(** * Verification of the APOGEE import core (src/db_manager.py)

    A shallow embedding of [ApogeeDBManager]: the text-segmentation and
    grade-extraction functions (which rest on Python's [re] module), and
    the transactional import and delete operations (which rest on
    SQLite).  Python strings are sequences of Unicode code points, so a
    string is a list of code points here; regular expressions are
    abstract syntax trees run by a backtracking matcher with the priority
    order of Python's engine. *)

From Stdlib Require Import String Ascii NArith ZArith QArith Qreduction Bool Lia Arith List Permutation.
Import ListNotations.

Local Open Scope nat_scope.
Local Open Scope list_scope.

(* ================================================================== *)
(** * Python strings *)
(* ================================================================== *)

Module PyStr.

(** A code point. *)
Definition char := N.

(** A Python [str]. *)
Definition str := list char.

Definition char_eqb (a b : char) : bool := N.eqb a b.

Fixpoint str_eqb (a b : str) : bool :=
  match a, b with
  | [], [] => true
  | x :: a', y :: b' => char_eqb x y && str_eqb a' b'
  | _, _ => false
  end.

(** UTF-8 decoding, used only to write string literals of the source in
    this file (which is itself UTF-8): one to four bytes per code point. *)
Fixpoint utf8_decode (l : list N) : str :=
  match l with
  | [] => []
  | b :: t =>
    if (b <? 128)%N then b :: utf8_decode t
    else if (b <? 224)%N then
      match t with
      | b1 :: t1 => ((b - 192) * 64 + (b1 - 128))%N :: utf8_decode t1
      | _ => []
      end
    else if (b <? 240)%N then
      match t with
      | b1 :: b2 :: t2 =>
        ((b - 224) * 4096 + (b1 - 128) * 64 + (b2 - 128))%N :: utf8_decode t2
      | _ => []
      end
    else
      match t with
      | b1 :: b2 :: b3 :: t3 =>
        ((b - 240) * 262144 + (b1 - 128) * 4096 + (b2 - 128) * 64 + (b3 - 128))%N
          :: utf8_decode t3
      | _ => []
      end
  end.

(** [py "..."] is the Python string written between the quotes. *)
Definition py (s : string) : str :=
  utf8_decode (map N_of_ascii (list_ascii_of_string s)).

(** The newline character and the one-character string ["\n"]. *)
Definition LF : char := 10%N.
Definition NL : str := [LF].

(** ** Unicode character properties used by [re], [str.strip] and [float] *)

(** [Py_UNICODE_ISSPACE]: the characters of bidirectional type WS, B or S
    and of category Zs. *)
Definition is_space (c : char) : bool :=
  ((9 <=? c) && (c <=? 13) || (28 <=? c) && (c <=? 32)
   || (c =? 133) || (c =? 160) || (c =? 5760)
   || (8192 <=? c) && (c <=? 8202)
   || (c =? 8232) || (c =? 8233) || (c =? 8239) || (c =? 8287)
   || (c =? 12288))%N.

(** First code points of the runs of ten decimal digits (category Nd), as
    of Unicode 14.0, the character database of Python 3.11, which the
    program is written for. *)
Definition decimal_runs : list N :=
  [ 48; 1632; 1776; 1984; 2406; 2534; 2662; 2790; 2918; 3046; 3174; 3302;
    3430; 3558; 3664; 3792; 3872; 4160; 4240; 6112; 6160; 6470; 6608; 6784;
    6800; 6992; 7088; 7232; 7248; 42528; 43216; 43264; 43472; 43504; 43600;
    44016; 65296; 66720; 68912; 69734; 69872; 69942; 70096; 70384; 70736;
    70864; 71248; 71360; 71472; 71904; 72016; 72784; 73040; 73120;
    92768; 92864; 93008; 120782; 120792; 120802; 120812; 120822; 123200;
    123632; 125264; 130032 ]%N.

(** [Py_UNICODE_TODECIMAL]: the decimal value of a digit character. *)
Fixpoint decimal_in (runs : list N) (c : char) : option N :=
  match runs with
  | [] => None
  | lo :: runs' =>
    if ((lo <=? c) && (c <? lo + 10))%N then Some (c - lo)%N
    else decimal_in runs' c
  end.

Definition to_decimal (c : char) : option N := decimal_in decimal_runs c.

(** [Py_UNICODE_ISDECIMAL]. *)
Definition is_decimal (c : char) : bool :=
  match to_decimal c with Some _ => true | None => false end.

(** ** String methods *)

Fixpoint lstrip (s : str) : str :=
  match s with
  | c :: s' => if is_space c then lstrip s' else s
  | [] => []
  end.

Definition rstrip (s : str) : str := rev (lstrip (rev s)).

(** [s.strip()] *)
Definition strip (s : str) : str := rstrip (lstrip s).

(** [s.replace(a, b)] for one-character [a] and [b]. *)
Definition replace_char (a b : char) (s : str) : str :=
  map (fun c => if char_eqb c a then b else c) s.

(** [s.startswith(p)] *)
Fixpoint starts_with (p s : str) : bool :=
  match p, s with
  | [], _ => true
  | x :: p', y :: s' => char_eqb x y && starts_with p' s'
  | _ :: _, [] => false
  end.

(** Index of the first occurrence of [sub] in [s], counted from [pos]. *)
Fixpoint find_from (sub s : str) (pos : nat) : option nat :=
  if starts_with sub s then Some pos
  else match s with
       | [] => None
       | _ :: s' => find_from sub s' (S pos)
       end.

(** Python's treatment of a slice or search bound: a negative index counts
    from the end, and the result is clipped to [0, len]. *)
Definition clip_index (len : nat) (i : Z) : nat :=
  if (i <? 0)%Z then Z.to_nat (Z.max 0 (Z.of_nat len + i))
  else Nat.min len (Z.to_nat i).

(** [s.find(sub, start)]: the lowest index at or after [start]
    where [sub] occurs, or [-1]. *)
Definition find (s sub : str) (start : Z) : Z :=
  if (Z.of_nat (length s) <? start)%Z then (-1)%Z
  else
    let i := clip_index (length s) start in
    match find_from sub (skipn i s) i with
    | Some p => Z.of_nat p
    | None => (-1)%Z
    end.

(** [s[a:b]] *)
Definition slice (s : str) (a b : Z) : str :=
  let i := clip_index (length s) a in
  let j := clip_index (length s) b in
  firstn (j - i) (skipn i s).

(** [sub in s] *)
Definition contains (sub s : str) : bool :=
  match find_from sub s 0 with Some _ => true | None => false end.

End PyStr.
Export PyStr.

(* ================================================================== *)
(** * Regular expressions: the fragment of Python's [re] the code uses *)
(* ================================================================== *)

Module PyRe.

(** One item of a bracketed character class. *)
Inductive citem :=
| CChar (c : char)          (* a literal character *)
| CRange (lo hi : char)     (* lo-hi *)
| CDigit                    (* \d *)
| CSpace.                   (* \s *)

Definition citem_mem (i : citem) (c : char) : bool :=
  match i with
  | CChar x => char_eqb c x
  | CRange lo hi => ((lo <=? c) && (c <=? hi))%N
  | CDigit => is_decimal c
  | CSpace => is_space c
  end.

(** A set of characters: [[...]], [[^...]], or [.] under [re.DOTALL]. *)
Inductive cset :=
| CIn (items : list citem)
| CNotIn (items : list citem)
| CAny.

Definition cset_mem (cs : cset) (c : char) : bool :=
  match cs with
  | CIn l => existsb (fun i => citem_mem i c) l
  | CNotIn l => negb (existsb (fun i => citem_mem i c) l)
  | CAny => true
  end.

Inductive regex :=
| REps                                   (* the empty pattern *)
| RChar (cs : cset)                      (* one character of a set *)
| RSeq (r1 r2 : regex)                   (* r1 r2 *)
| RAlt (r1 r2 : regex)                   (* r1|r2, r1 tried first *)
| RStar (greedy : bool) (r : regex)      (* r* (greedy) or r*? (lazy) *)
| RGroup (i : nat) (r : regex)           (* the i-th capturing group *)
| RBol                                   (* ^ under re.MULTILINE *)
| REnd                                   (* \Z *)
| RLook (r : regex).                     (* (?=r) *)

(** Derived forms. *)
Definition RPlus (greedy : bool) (r : regex) : regex := RSeq r (RStar greedy r).
Definition ROpt (r : regex) : regex := RAlt r REps.
Definition RLit1 (c : char) : regex := RChar (CIn [CChar c]).
Fixpoint RLit (s : str) : regex :=
  match s with
  | [] => REps
  | c :: s' => RSeq (RLit1 c) (RLit s')
  end.
Fixpoint RTimes (n : nat) (r : regex) : regex :=
  match n with
  | O => REps
  | S n' => RSeq r (RTimes n' r)
  end.
Fixpoint RSeqs (rs : list regex) : regex :=
  match rs with
  | [] => REps
  | [r] => r
  | r :: rs' => RSeq r (RSeqs rs')
  end.

Definition r_d : regex := RChar (CIn [CDigit]).        (* \d *)
Definition r_s : regex := RChar (CIn [CSpace]).        (* \s *)
Definition r_S : regex := RChar (CNotIn [CSpace]).     (* \S *)

(** The captured groups: group number and captured text, latest first. *)
Definition captures := list (nat * str).

Fixpoint group_of (caps : captures) (i : nat) : option str :=
  match caps with
  | [] => None
  | (j, t) :: caps' => if Nat.eqb i j then Some t else group_of caps' i
  end.

(** A position of the matcher in the subject: the index, the character
    before it (for [^]), the text from it on, and the groups so far. *)
Record mstate := MState {
  m_pos : nat;
  m_prev : option char;
  m_rest : str;
  m_caps : captures
}.

Definition at_line_start (st : mstate) : bool :=
  match m_prev st with
  | None => true
  | Some c => char_eqb c LF
  end.

Definition set_group (i : nat) (from to : mstate) : mstate :=
  MState (m_pos to) (m_prev to) (m_rest to)
         ((i, firstn (m_pos to - m_pos from) (m_rest from)) :: m_caps to).

(** The loop of a repetition: [body] matches the repeated expression
    once.  A greedy loop tries one more round before it goes on with
    [k], a lazy one goes on with [k] first; a round that matched the
    empty string is given up.  [n] bounds the number of rounds, and
    [rmatch] starts it above the length of the text left. *)
Fixpoint star_loop (body : mstate -> (mstate -> option mstate) -> option mstate)
  (greedy : bool) (k : mstate -> option mstate) (n : nat) (st0 : mstate)
  {struct n} : option mstate :=
  match n with
  | O => k st0
  | S n' =>
    let more :=
      body st0 (fun st1 => if m_pos st0 <? m_pos st1
                           then star_loop body greedy k n' st1 else None) in
    if greedy
    then match more with Some res => Some res | None => k st0 end
    else match k st0 with Some res => Some res | None => more end
  end.

(** The backtracking matcher, in continuation-passing style: [rmatch r st k]
    runs [r] from [st] and hands every way of matching it, in priority
    order, to [k] until [k] accepts. *)
Fixpoint rmatch (r : regex) (st : mstate) (k : mstate -> option mstate)
  {struct r} : option mstate :=
  match r with
  | REps => k st
  | RChar cs =>
    match m_rest st with
    | c :: rest' =>
      if cset_mem cs c
      then k (MState (S (m_pos st)) (Some c) rest' (m_caps st))
      else None
    | [] => None
    end
  | RSeq r1 r2 => rmatch r1 st (fun st1 => rmatch r2 st1 k)
  | RAlt r1 r2 =>
    match rmatch r1 st k with
    | Some res => Some res
    | None => rmatch r2 st k
    end
  | RStar greedy r1 => star_loop (rmatch r1) greedy k (S (length (m_rest st))) st
  | RGroup i r1 => rmatch r1 st (fun st1 => k (set_group i st st1))
  | RBol => if at_line_start st then k st else None
  | REnd => match m_rest st with [] => k st | _ :: _ => None end
  | RLook r1 =>
    match rmatch r1 st (fun st1 => Some st1) with
    | Some st1 => k (MState (m_pos st) (m_prev st) (m_rest st) (m_caps st1))
    | None => None
    end
  end.

(** [pattern.match] at one position: the end state of the match. *)
Definition match_here (r : regex) (pos : nat) (prev : option char) (rest : str)
  : option mstate :=
  rmatch r (MState pos prev rest []) (fun st => Some st).

(** A match object: where the match starts and its end state. *)
Record rmatch_obj := MatchObj { mo_start : nat; mo_end : mstate }.

(** [m.group(i)], with [''] for a group that took no part (as [findall]
    reports it). *)
Definition group (m : rmatch_obj) (i : nat) : str :=
  match group_of (m_caps (mo_end m)) i with
  | Some t => t
  | None => []
  end.

(** [re.search]: the leftmost position where the pattern matches. *)
Fixpoint search_from (r : regex) (pos : nat) (prev : option char) (rest : str)
  : option rmatch_obj :=
  match match_here r pos prev rest with
  | Some e => Some (MatchObj pos e)
  | None =>
    match rest with
    | [] => None
    | c :: rest' => search_from r (S pos) (Some c) rest'
    end
  end.

Definition search (r : regex) (s : str) : option rmatch_obj :=
  search_from r 0 None s.

(** [re.finditer]: the matches from left to right, without overlap.
    [skip] counts the characters still covered by the previous match; a
    new match is looked for once it is back to zero. *)
Fixpoint finditer_from (r : regex) (skip : nat) (pos : nat) (prev : option char)
  (rest : str) : list rmatch_obj :=
  match skip with
  | S skip' =>
    match rest with
    | [] => []
    | c :: rest' => finditer_from r skip' (S pos) (Some c) rest'
    end
  | O =>
    match match_here r pos prev rest with
    | Some e =>
      MatchObj pos e ::
        match rest with
        | [] => []
        | c :: rest' => finditer_from r (pred (m_pos e - pos)) (S pos) (Some c) rest'
        end
    | None =>
      match rest with
      | [] => []
      | c :: rest' => finditer_from r 0 (S pos) (Some c) rest'
      end
    end
  end.

Definition finditer (r : regex) (s : str) : list rmatch_obj :=
  finditer_from r 0 0 None s.

End PyRe.
Export PyRe.

(* ================================================================== *)
(** * [float(str)] *)
(* ================================================================== *)

Module PyFloat.

(** A Python float as far as this program looks at it: a finite value
    (the exact decimal value written in the text; rounding to binary64 is
    not modelled), an infinity, or a NaN. *)
Inductive pyfloat :=
| FNum (q : Q)
| FInf (negative : bool)
| FNan.

Definition ch (a : ascii) : char := N_of_ascii a.

(** [_PyUnicode_TransformDecimalAndSpaceToASCII] on one character. *)
Definition to_ascii (c : char) : char :=
  if (c <? 127)%N then c
  else if is_space c then ch " "
  else match to_decimal c with
       | Some d => (48 + d)%N
       | None => ch "?"
       end.

(** [Py_ISSPACE] *)
Definition is_ascii_space (c : char) : bool :=
  ((9 <=? c) && (c <=? 13) || (c =? 32))%N.

Fixpoint lstrip_ascii (s : str) : str :=
  match s with
  | c :: s' => if is_ascii_space c then lstrip_ascii s' else s
  | [] => []
  end.

Definition strip_ascii (s : str) : str :=
  rev (lstrip_ascii (rev (lstrip_ascii s))).

Definition ascii_digit (c : char) : option N :=
  if ((48 <=? c) && (c <=? 57))%N then Some (c - 48)%N else None.

Definition is_ascii_digit (c : char) : bool :=
  match ascii_digit c with Some _ => true | None => false end.

(** A run of digits, where single underscores may stand between two
    digits: the value read after [acc], the number of digits, the rest. *)
Fixpoint digitpart (acc : N) (n : nat) (s : str) : N * nat * str :=
  match s with
  | c :: s' =>
    match ascii_digit c with
    | Some d => digitpart (acc * 10 + d)%N (S n) s'
    | None =>
      if (char_eqb c (ch "_") && (0 <? n))%bool then
        match s' with
        | c2 :: _ => if is_ascii_digit c2 then digitpart acc n s' else (acc, n, s)
        | [] => (acc, n, s)
        end
      else (acc, n, s)
    end
  | [] => (acc, n, s)
  end.

(** [[+-]] *)
Definition sign (s : str) : bool * str :=
  match s with
  | c :: s' =>
    if char_eqb c (ch "-") then (true, s')
    else if char_eqb c (ch "+") then (false, s')
    else (false, s)
  | [] => (false, s)
  end.

(** The exponent part: nothing, or [e] or [E], a sign and digits. *)
Definition exponent (s : str) : option (Z * str) :=
  match s with
  | c :: s' =>
    if (char_eqb c (ch "e") || char_eqb c (ch "E"))%bool then
      let (neg, s1) := sign s' in
      match digitpart 0 0 s1 with
      | (_, O, _) => None
      | (e, S _, s2) => Some (if neg then (- Z.of_N e)%Z else Z.of_N e, s2)
      end
    else Some (0%Z, s)
  | [] => Some (0%Z, s)
  end.

Definition pow10 (e : Z) : Q := Qpower (10 # 1) e.

(** [digits[.digits]] or [.digits], then the exponent; the whole text must
    be used up. *)
Definition number (s : str) : option Q :=
  let '(i, ni, s1) := digitpart 0 0 s in
  let after_point :=
    match s1 with
    | c :: s2 =>
      if char_eqb c (ch ".") then
        let '(f, nf, s3) := digitpart 0 0 s2 in
        if ((ni =? 0) && (nf =? 0))%nat then None
        else Some ((i * 10 ^ N.of_nat nf + f)%N, nf, s3)
      else if (ni =? 0)%nat then None else Some (i, O, s1)
    | [] => if (ni =? 0)%nat then None else Some (i, O, s1)
    end in
  match after_point with
  | None => None
  | Some (m, nf, s3) =>
    match exponent s3 with
    | Some (e, []) =>
      Some (Qred ((Z.of_N m # 1) * pow10 (e - Z.of_nat nf)))
    | _ => None
    end
  end.

Definition lower (c : char) : char :=
  if ((65 <=? c) && (c <=? 90))%N then (c + 32)%N else c.

(** [float(s)]: [None] stands for [ValueError]. *)
Definition float (s : str) : option pyfloat :=
  let t := strip_ascii (map to_ascii s) in
  let (neg, body) := sign t in
  let low := map lower body in
  if (str_eqb low (py "inf") || str_eqb low (py "infinity"))%bool
  then Some (FInf neg)
  else if str_eqb low (py "nan") then Some FNan
  else match number body with
       | Some q => Some (FNum (if neg then Qred (- q) else q))
       | None => None
       end.

End PyFloat.
Export PyFloat.

(* ================================================================== *)
(** * The grade tree builder: [_extract_courses], [_extract_ue_courses] *)
(* ================================================================== *)

(** An entry of the list [_extract_courses] returns: the dictionary with
    keys ["ue"], ["cours"], ["note"] and ["est_ue"]. *)
Record course := Course {
  ue : str;
  cours : str;
  note : pyfloat;
  est_ue : Z
}.

(** The score: [\d+ [\.,] \d+] *)
Definition score_re : regex :=
  RSeqs [RPlus true r_d; RChar (CIn [CChar (ch "."); CChar (ch ",")]); RPlus true r_d].

(** [ue_pattern]:  ( UE \d+ [^0-9\n]* ) \s+ ( \d+ [\.,] \d+ ) \s* /20  *)
Definition ue_pattern : regex :=
  RSeqs [ RGroup 1 (RSeqs [ RLit (py "UE"); RPlus true r_d;
                            RStar true (RChar (CNotIn [CRange (ch "0") (ch "9"); CChar LF])) ]);
          RPlus true r_s;
          RGroup 2 score_re;
          RStar true r_s;
          RLit (py "/20") ].

(** [course_pattern], under [re.MULTILINE]:
    ^ ( [^U/\n] [^\n]*? ) \s+ ( \d+ [\.,] \d+ ) \s* /20  *)
Definition course_pattern : regex :=
  RSeqs [ RBol;
          RGroup 1 (RSeqs [ RChar (CNotIn [CChar (ch "U"); CChar (ch "/"); CChar LF]);
                            RStar false (RChar (CNotIn [CChar LF])) ]);
          RPlus true r_s;
          RGroup 2 score_re;
          RStar true r_s;
          RLit (py "/20") ].

(** [re.findall] for a pattern with two groups: the pairs of group texts. *)
Definition findall2 (r : regex) (s : str) : list (str * str) :=
  map (fun m => (group m 1, group m 2)) (finditer r s).

(** The score text to a number: commas become dots, the text is stripped
    and handed to [float]; 0 on [ValueError]. *)
Definition parse_note (note_str : str) : pyfloat :=
  match float (strip (replace_char (ch ",") (ch ".") note_str)) with
  | Some v => v
  | None => FNum 0
  end.

Definition _extract_ue_courses (notes_block ue_name : str) : list course :=
  let ue_start := find notes_block ue_name 0 in
  let next_ue := find notes_block (py "UE") (ue_start + Z.of_nat (length ue_name)) in
  let next_ue := if (next_ue =? -1)%Z then Z.of_nat (length notes_block) else next_ue in
  let ue_section := slice notes_block ue_start next_ue in
  let course_matches := findall2 course_pattern ue_section in
  flat_map
    (fun course_match =>
       let '(course_name, course_note_str) := course_match in
       let course_name := strip course_name in
       if (contains (py "Note/Barème") course_name
           || contains (py "Note :") course_name)%bool
       then []
       else [Course ue_name course_name (parse_note course_note_str) 0])
    course_matches.

Definition _extract_courses (notes_block : str) : list course :=
  let ue_matches := findall2 ue_pattern notes_block in
  flat_map
    (fun ue_match =>
       let '(ue_name, ue_note_str) := ue_match in
       let ue_name := strip ue_name in
       Course ue_name ue_name (parse_note ue_note_str) 1
         :: _extract_ue_courses notes_block ue_name)
    ue_matches.

(* ================================================================== *)
(** * The document segmenter *)
(* ================================================================== *)

(** The dictionary [parcours_info], keys ["parcours"], ["semestre"] and
    ["annee"]. *)
Record parcours_info := ParcoursInfo {
  p_parcours : str;
  p_semestre : str;
  p_annee : str
}.

(** inscrit[e]? \s+ en \s+ Semestre \s+ ( \d+ ) \s+ ( [^\s\n]+ ) *)
Definition semestre_parcours_re : regex :=
  RSeqs [ RLit (py "inscrit"); ROpt (RChar (CIn [CChar (ch "e")]));
          RPlus true r_s; RLit (py "en"); RPlus true r_s; RLit (py "Semestre");
          RPlus true r_s; RGroup 1 (RPlus true r_d); RPlus true r_s;
          RGroup 2 (RPlus true (RChar (CNotIn [CSpace; CChar LF]))) ].

(** Année universitaire ( \d{4} / \d{4} ) *)
Definition annee_re : regex :=
  RSeqs [ RLit (py "Année universitaire ");
          RGroup 1 (RSeqs [RTimes 4 r_d; RLit (py "/"); RTimes 4 r_d]) ].

(** Session \s+ S \d+ \s+ ( \d{4} / \d{2} ) *)
Definition session_re : regex :=
  RSeqs [ RLit (py "Session"); RPlus true r_s; RLit (py "S"); RPlus true r_d;
          RPlus true r_s;
          RGroup 1 (RSeqs [RTimes 4 r_d; RLit (py "/"); RTimes 2 r_d]) ].

Definition _extract_parcours_info (content : str) : parcours_info :=
  let parcours_info := ParcoursInfo (py "M1 API") (py "7") (py "2022-2023") in
  let parcours_info :=
    match search semestre_parcours_re content with
    | Some m => ParcoursInfo (group m 2) (group m 1) (p_annee parcours_info)
    | None => parcours_info
    end in
  match search annee_re content with
  | Some annee_match =>
    ParcoursInfo (p_parcours parcours_info) (p_semestre parcours_info)
                 (replace_char (ch "/") (ch "-") (group annee_match 1))
  | None =>
    match search session_re content with
    | Some session_match =>
      let annee_short := group session_match 1 in
      if (length annee_short =? 7)%nat then
        let year_start := slice annee_short 0 4 in
        let year_end := py "20" ++ slice annee_short 5 7 in
        ParcoursInfo (p_parcours parcours_info) (p_semestre parcours_info)
                     (year_start ++ py "-" ++ year_end)
      else parcours_info
    | None => parcours_info
    end
  end.

(** Code point of a (possibly non-ASCII) character written as a string. *)
Definition uc (s : string) : char := hd 0%N (py s).

(** [A-ZÀ-ÖØ-Þ] *)
Definition upper_cs : cset :=
  CIn [CRange (ch "A") (ch "Z"); CRange (uc "À") (uc "Ö"); CRange (uc "Ø") (uc "Þ")].

(** [A-Za-zÀ-ÖØ-öø-ÿ'-] *)
Definition name_cs : cset :=
  CIn [CRange (ch "A") (ch "Z"); CRange (ch "a") (ch "z");
       CRange (uc "À") (uc "Ö"); CRange (uc "Ø") (uc "ö");
       CRange (uc "ø") (uc "ÿ"); CChar (ch "'"); CChar (ch "-")].

(** A run of words of one character set, one blank between two words:
    [cs+ (?: \s cs+ )* ] *)
Definition words (cs : cset) : regex :=
  RSeq (RPlus true (RChar cs))
       (RStar true (RSeq r_s (RPlus true (RChar cs)))).

Definition not_LF : regex := RChar (CNotIn [CChar LF]).
Definition r_LF : regex := RLit1 LF.

(** The lines that head a student's block, up to the notes (the pattern
    is written with blanks between its parts):
<<
  ( [A-ZÀ-ÖØ-Þ]+ (?: \s [A-ZÀ-ÖØ-Þ]+ )* )
  \s+ ( [A-Za-zÀ-ÖØ-öø-ÿ'-]+ (?: \s [A-Za-zÀ-ÖØ-öø-ÿ'-]+ )* )
  \s* \n N° \s* Etudiant \s* : \s* ( \d+ ) \s* INE \s* : \s* \S+
  \s* \n Né (?:e)? _le \s* : [^\n]+
  \s* \n inscrit [e]? \s+ en \s+ Semestre \s+ \d+ [^\n]+
  (?: \s* \n )+
  (?: Notes_et_résultats \s* \n )?
  (?: Note/Barème_Pts_jury_Résultat_Session_Crédits \s* \n )?
  \s*
>>
    where [_] stands for a blank of the pattern. *)
Definition student_head : regex :=
  RSeqs [ RGroup 1 (words upper_cs);
          RPlus true r_s; RGroup 2 (words name_cs);
          RStar true r_s; r_LF; RLit (py "N°"); RStar true r_s; RLit (py "Etudiant");
          RStar true r_s; RLit (py ":"); RStar true r_s; RGroup 3 (RPlus true r_d);
          RStar true r_s; RLit (py "INE"); RStar true r_s; RLit (py ":");
          RStar true r_s; RPlus true r_S;
          RStar true r_s; r_LF; RLit (py "Né"); ROpt (RLit (py "e")); RLit (py " le");
          RStar true r_s; RLit (py ":"); RPlus true not_LF;
          RStar true r_s; r_LF; RLit (py "inscrit"); ROpt (RChar (CIn [CChar (ch "e")]));
          RPlus true r_s; RLit (py "en"); RPlus true r_s; RLit (py "Semestre");
          RPlus true r_s; RPlus true r_d; RPlus true not_LF;
          RPlus true (RSeq (RStar true r_s) r_LF);
          ROpt (RSeqs [RLit (py "Notes et résultats"); RStar true r_s; r_LF]);
          ROpt (RSeqs [RLit (py "Note/Barème Pts jury Résultat Session Crédits");
                       RStar true r_s; r_LF]);
          RStar true r_s ].

(** The end of the notes, looked ahead for:
<<
  (?= \n \s* \n (?: [A-ZÀ-ÖØ-Þ]+ (?: \s [A-ZÀ-ÖØ-Þ]+ )* \s+
                     [A-Za-zÀ-ÖØ-öø-ÿ'-]+ (?: \s [A-Za-zÀ-ÖØ-öø-ÿ'-]+ )*
                     \s* \n N° \s* Etudiant
                 | Université_Savoie_Mont_Blanc_Année_universitaire )
    | \Z )
>> *)
Definition notes_end_body : regex :=
  RAlt
    (RSeqs [ r_LF; RStar true r_s; r_LF;
             RAlt
               (RSeqs [ words upper_cs; RPlus true r_s; words name_cs;
                        RStar true r_s; r_LF; RLit (py "N°"); RStar true r_s;
                        RLit (py "Etudiant") ])
               (RLit (py "Université Savoie Mont Blanc Année universitaire")) ])
    REnd.

Definition notes_end : regex := RLook notes_end_body.

(** [student_pattern], under [re.DOTALL]: the head, the notes
    [( UE .+? )] and the look-ahead. *)
Definition student_pattern : regex :=
  RSeqs [ student_head;
          RGroup 4 (RSeqs [RLit (py "UE"); RPlus false (RChar CAny)]);
          notes_end ].

(** A block as [re.findall] returns it: the tuple of the group texts. *)
Definition block := list str.

Definition _extract_student_blocks (content : str) : list block :=
  map (fun m => [group m 1; group m 2; group m 3; group m 4])
      (finditer student_pattern content).

(** The dictionary [_process_student_block] returns, keys
    ["numero_etudiant"], ["nom"], ["prenom"] and ["cours"]. *)
Record student := Student {
  s_numero_etudiant : str;
  s_nom : str;
  s_prenom : str;
  s_cours : list course
}.

(** [None] is the [None] the [except] clause returns: unpacking a tuple
    that has not four fields raises. *)
Definition _process_student_block (b : block) : option student :=
  match b with
  | [nom; prenom; student_number; notes_block] =>
    let nom := strip nom in
    let prenom := strip prenom in
    let student_number := strip student_number in
    let courses := _extract_courses notes_block in
    Some (Student student_number nom prenom courses)
  | _ => None
  end.

(** The dictionary [parse_apogee_file] returns, keys ["parcours"] and
    ["etudiants"]. *)
Record apogee_data := ApogeeData {
  d_parcours : parcours_info;
  d_etudiants : list student
}.

(** [parse_apogee_file], as a function of the text of the file. *)
Definition parse_apogee_file (content : str) : apogee_data :=
  let student_blocks := _extract_student_blocks content in
  ApogeeData (_extract_parcours_info content)
    (flat_map (fun b => match _process_student_block b with
                        | Some student_data => [student_data]
                        | None => []
                        end) student_blocks).

(* ================================================================== *)
(** * The persistent store and its transactions *)
(* ================================================================== *)

(** Exceptions the operations can meet. *)
Inductive exn :=
| OperationalError      (* sqlite3.Error: the store cannot be opened *)
| IntegrityError        (* sqlite3.IntegrityError *)
| TypeError             (* subscripting the [None] of an empty [fetchone()] *)
| UnboundLocalError.    (* reading a local variable that was never bound *)

Inductive result (A : Type) :=
| Ok (a : A)
| Raise (e : exn).
Arguments Ok {A} a.
Arguments Raise {A} e.

(** A row of table [etudiants]. *)
Record etudiant_row := EtudiantRow {
  e_id : Z;
  e_nom : str;
  e_prenom : str;
  e_numero_etudiant : str;
  e_parcours : str;
  e_annee : str;
  e_semestre : str
}.

(** A row of table [notes]. *)
Record note_row := NoteRow {
  n_id : Z;
  n_etudiant_id : Z;
  n_ue : str;
  n_cours : str;
  n_note : pyfloat;
  n_est_ue : Z
}.

(** The content of the database file: the two tables in rowid order, and
    for each the counter [sqlite_sequence] keeps for AUTOINCREMENT. *)
Record database := Database {
  etudiants : list etudiant_row;
  notes : list note_row;
  seq_etudiants : Z;
  seq_notes : Z
}.

(** The database [initialize_db] creates when there is none. *)
Definition empty_db : database := Database [] [] 0 0.

(** [initialize_db]: both statements are CREATE TABLE IF NOT EXISTS. *)
Definition initialize_db (db : database) : database := db.

(** The rowid an AUTOINCREMENT table gives to a new row. *)
Definition next_rowid (seq : Z) (ids : list Z) : Z :=
  (fold_left Z.max ids seq + 1)%Z.

(** UNIQUE(nom, prenom, parcours, annee, semestre), and the WHERE clause
    of the SELECT of [import_apogee_data]. *)
Definition same_etudiant (nom prenom parcours annee semestre : str)
  (r : etudiant_row) : bool :=
  str_eqb (e_nom r) nom && str_eqb (e_prenom r) prenom
  && str_eqb (e_parcours r) parcours && str_eqb (e_annee r) annee
  && str_eqb (e_semestre r) semestre.

(** UNIQUE(etudiant_id, cours) *)
Definition same_note (etudiant_id : Z) (cours : str) (r : note_row) : bool :=
  (n_etudiant_id r =? etudiant_id)%Z && str_eqb (n_cours r) cours.

(** INSERT OR IGNORE INTO etudiants: a row whose key is there already is
    dropped; the rowid drawn for it stays used. *)
Definition insert_or_ignore_etudiant (db : database)
  (nom prenom numero_etudiant parcours annee semestre : str) : database :=
  let id := next_rowid (seq_etudiants db) (map e_id (etudiants db)) in
  if existsb (same_etudiant nom prenom parcours annee semestre) (etudiants db)
  then Database (etudiants db) (notes db) id (seq_notes db)
  else Database
         (etudiants db ++
            [EtudiantRow id nom prenom numero_etudiant parcours annee semestre])
         (notes db) id (seq_notes db).

(** SELECT id FROM etudiants WHERE ..., then [fetchone()]. *)
Definition select_etudiant_id (db : database)
  (nom prenom parcours annee semestre : str) : option Z :=
  option_map e_id
    (List.find (same_etudiant nom prenom parcours annee semestre) (etudiants db)).

(** INSERT OR IGNORE INTO notes *)
Definition insert_or_ignore_note (db : database) (etudiant_id : Z) (c : course)
  : database :=
  let id := next_rowid (seq_notes db) (map n_id (notes db)) in
  if existsb (same_note etudiant_id (cours c)) (notes db)
  then Database (etudiants db) (notes db) (seq_etudiants db) id
  else Database (etudiants db)
         (notes db ++ [NoteRow id etudiant_id (ue c) (cours c) (note c) (est_ue c)])
         (seq_etudiants db) id.

(** ** Connections *)

(** What a connection holds: the committed content of the file, the
    content as the connection sees it, and the snapshots its open
    savepoints would restore, innermost first. *)
Record connection := Connection {
  c_file : database;
  c_work : database;
  c_savepoints : list database
}.

(** The store behind [db_path]: [None] when it cannot be opened. *)
Definition store := option database.

(** [get_connection]: [sqlite3.connect] raises when the store cannot be
    opened, and the exception is raised again. *)
Definition get_connection (s : store) : result connection :=
  match s with
  | Some db => Ok (Connection db db [])
  | None => Raise OperationalError
  end.

(** SAVEPOINT import_student *)
Definition exec_savepoint (c : connection) : connection :=
  Connection (c_file c) (c_work c) (c_work c :: c_savepoints c).

(** [conn.commit()] *)
Definition commit (c : connection) : connection :=
  Connection (c_work c) (c_work c) [].

(** RELEASE import_student: the innermost savepoint goes; releasing the
    one that opened the transaction commits.  (The program releases and
    rolls back only after it has set a savepoint.) *)
Definition exec_release (c : connection) : connection :=
  match c_savepoints c with
  | [] => c
  | [_] => commit c
  | _ :: outer => Connection (c_file c) (c_work c) outer
  end.

(** ROLLBACK TO import_student: back to the innermost savepoint, which
    stays open. *)
Definition exec_rollback_to (c : connection) : connection :=
  match c_savepoints c with
  | [] => c
  | snapshot :: _ => Connection (c_file c) snapshot (c_savepoints c)
  end.

(** [conn.rollback()] *)
Definition rollback (c : connection) : connection :=
  Connection (c_file c) (c_file c) [].

(** [conn.close()]: what is not committed is lost. *)
Definition close (c : connection) : database := c_file c.

Definition set_work (c : connection) (db : database) : connection :=
  Connection (c_file c) db (c_savepoints c).

(* ================================================================== *)
(** * [import_apogee_data] *)
(* ================================================================== *)

(** The two INSERT statements of the import, with their parameters. *)
Inductive insert_stmt :=
| InsertEtudiant (nom prenom numero_etudiant parcours annee semestre : str)
| InsertNote (etudiant_id : Z) (c : course).

Section ImportEngine.

(** When the engine answers an INSERT with an integrity error.  OR IGNORE
    takes care of UNIQUE, NOT NULL and PRIMARY KEY conflicts itself; what
    is left to raise (an enforced foreign key, a trigger, a type
    mismatch) depends on the store the program is pointed at, so it is a
    parameter: it sees the content of the store and the statement. *)
Variable violates : database -> insert_stmt -> bool.

(** A statement runs on the content the connection sees.  One that raises
    leaves the connection as it found it; what the statements before it
    have written stays in the connection until it rolls back. *)
Definition exec_insert_etudiant (conn : connection)
  (nom prenom numero_etudiant parcours annee semestre : str)
  : result unit * connection :=
  if violates (c_work conn)
       (InsertEtudiant nom prenom numero_etudiant parcours annee semestre)
  then (Raise IntegrityError, conn)
  else (Ok tt,
        set_work conn
          (insert_or_ignore_etudiant (c_work conn) nom prenom numero_etudiant
             parcours annee semestre)).

Definition exec_insert_note (conn : connection) (etudiant_id : Z) (c : course)
  : result unit * connection :=
  if violates (c_work conn) (InsertNote etudiant_id c)
  then (Raise IntegrityError, conn)
  else (Ok tt, set_work conn (insert_or_ignore_note (c_work conn) etudiant_id c)).

(** The loop [for course in student["cours"]]. *)
Fixpoint insert_notes (conn : connection) (etudiant_id : Z) (courses : list course)
  : result unit * connection :=
  match courses with
  | [] => (Ok tt, conn)
  | c :: courses' =>
    match exec_insert_note conn etudiant_id c with
    | (Ok _, conn) => insert_notes conn etudiant_id courses'
    | (Raise e, conn) => (Raise e, conn)
    end
  end.

(** The statements of the [try] block for one student, up to the
    RELEASE: the identity row, its id, the grade rows.  With the outcome
    comes the connection as the statements leave it, also when one of
    them raises. *)
Definition student_statements (parcours annee semestre : str) (conn : connection)
  (st : student) : result unit * connection :=
  match exec_insert_etudiant conn (s_nom st) (s_prenom st) (s_numero_etudiant st)
                             parcours annee semestre with
  | (Raise e, conn) => (Raise e, conn)
  | (Ok _, conn) =>
    match select_etudiant_id (c_work conn) (s_nom st) (s_prenom st)
                             parcours annee semestre with
    | None => (Raise TypeError, conn)
    | Some etudiant_id => insert_notes conn etudiant_id (s_cours st)
    end
  end.

(** The loop [for student in data["etudiants"]] and what follows it: the
    outcome, and the content of the file afterwards.  An exception other
    than [IntegrityError] leaves the function; the connection is then
    dropped with what it had not committed. *)
Fixpoint import_students (parcours annee semestre : str) (conn : connection)
  (students : list student) (students_imported : nat) : result nat * database :=
  match students with
  | [] => (Ok students_imported, close conn)
  | st :: students' =>
    let conn := exec_savepoint conn in
    match student_statements parcours annee semestre conn st with
    | (Ok _, conn) =>
      let conn := commit (exec_release conn) in
      import_students parcours annee semestre conn students' (S students_imported)
    | (Raise IntegrityError, conn) =>
      import_students parcours annee semestre (exec_rollback_to conn)
                      students' students_imported
    | (Raise e, conn) => (Raise e, close conn)
    end
  end.

(** [import_apogee_data], as a function of the text of the file and of
    the store: the outcome and the store afterwards. *)
Definition import_apogee_data (content : str) (s : store) : result nat * store :=
  let data := parse_apogee_file content in
  match d_etudiants data with
  | [] => (Ok 0, s)
  | _ :: _ =>
    let parcours := p_parcours (d_parcours data) in
    let annee := p_annee (d_parcours data) in
    let semestre := p_semestre (d_parcours data) in
    match get_connection s with
    | Raise e => (Raise e, s)
    | Ok conn =>
      let (r, db) := import_students parcours annee semestre conn (d_etudiants data) 0 in
      (r, Some db)
    end
  end.

End ImportEngine.

(** The store [initialize_db] sets up raises no integrity error on the
    two INSERT OR IGNORE statements: its only constraints are the ones
    OR IGNORE absorbs, and foreign keys are not enforced. *)
Definition no_violation (db : database) (i : insert_stmt) : bool := false.

(* ================================================================== *)
(** * Queries and [delete_data] *)
(* ================================================================== *)

(** [column = ?] for an optional filter argument ([year=None] and the
    like); Python tests it with [if year:], so the empty string filters
    nothing either. *)
Definition filter_ok (o : option str) (v : str) : bool :=
  match o with
  | Some (c :: f) => str_eqb v (c :: f)
  | _ => true
  end.

(** Order of TEXT values under the BINARY collation. *)
Fixpoint str_leb (a b : str) : bool :=
  match a, b with
  | [], _ => true
  | _ :: _, [] => false
  | x :: a', y :: b' => ((x <? y) || ((x =? y) && str_leb a' b'))%N
  end.

Fixpoint insert_sorted (x : str) (l : list str) : list str :=
  match l with
  | [] => [x]
  | y :: l' =>
    if str_eqb x y then l
    else if str_leb x y then x :: l else y :: insert_sorted x l'
  end.

(** SELECT DISTINCT ... ORDER BY on one TEXT column. *)
Definition distinct_sorted (l : list str) : list str :=
  fold_right insert_sorted [] l.

(** A row of the join of [etudiants] and [notes]. *)
Definition joined := (etudiant_row * note_row)%type.

(** etudiants e JOIN notes n ON e.id = n.etudiant_id *)
Definition join (db : database) : list joined :=
  flat_map (fun e =>
    map (fun n => (e, n))
        (filter (fun n => (n_etudiant_id n =? e_id e)%Z) (notes db)))
    (etudiants db).

(** A query that swallows every exception: the [except Exception] clause
    logs and returns the empty value. *)
Definition guarded {A : Type} (empty : A) (s : store) (q : database -> A) : result A :=
  match get_connection s with
  | Ok conn => Ok (q (c_work conn))
  | Raise _ => Ok empty
  end.

Definition export_to_dataframe (s : store) : result (list joined) :=
  guarded [] s join.

Definition get_available_years (s : store) : result (list str) :=
  guarded [] s (fun db => distinct_sorted (map e_annee (etudiants db))).

Definition get_available_parcours (year : option str) (s : store)
  : result (list str) :=
  guarded [] s (fun db =>
    distinct_sorted
      (map e_parcours (filter (fun e => filter_ok year (e_annee e)) (etudiants db)))).

Definition get_available_semestres (year parcours : option str) (s : store)
  : result (list str) :=
  guarded [] s (fun db =>
    distinct_sorted
      (map e_semestre
         (filter (fun e => filter_ok year (e_annee e)
                           && filter_ok parcours (e_parcours e))
                 (etudiants db)))).

Definition etudiant_ok (year parcours semestre : option str) (e : etudiant_row)
  : bool :=
  filter_ok year (e_annee e) && filter_ok parcours (e_parcours e)
  && filter_ok semestre (e_semestre e).

(** [get_students]; the rows come ordered by (nom, prenom). *)
Fixpoint insert_by_name (e : etudiant_row) (l : list etudiant_row)
  : list etudiant_row :=
  match l with
  | [] => [e]
  | y :: l' =>
    if (if str_eqb (e_nom e) (e_nom y) then str_leb (e_prenom e) (e_prenom y)
        else str_leb (e_nom e) (e_nom y))
    then e :: l else y :: insert_by_name e l'
  end.

Definition get_students (year parcours semestre : option str) (s : store)
  : result (list etudiant_row) :=
  guarded [] s (fun db =>
    fold_right insert_by_name []
      (filter (etudiant_ok year parcours semestre) (etudiants db))).

Definition get_student_data (nom prenom : str) (year parcours semestre : option str)
  (s : store) : result (list joined) :=
  guarded [] s (fun db =>
    filter (fun en => str_eqb (e_nom (fst en)) nom && str_eqb (e_prenom (fst en)) prenom
                      && etudiant_ok year parcours semestre (fst en))
           (join db)).

Definition get_available_ues (year parcours semestre : option str) (s : store)
  : result (list str) :=
  guarded [] s (fun db =>
    distinct_sorted
      (map (fun en => n_ue (snd en))
         (filter (fun en => (n_est_ue (snd en) =? 1)%Z
                            && etudiant_ok year parcours semestre (fst en))
                 (join db)))).

Definition get_available_courses (year parcours semestre ue_filter : option str)
  (s : store) : result (list str) :=
  guarded [] s (fun db =>
    distinct_sorted
      (map (fun en => n_cours (snd en))
         (filter (fun en => (n_est_ue (snd en) =? 0)%Z
                            && etudiant_ok year parcours semestre (fst en)
                            && filter_ok ue_filter (n_ue (snd en)))
                 (join db)))).

(** The dictionary [criteria]: a key that is absent is [None]. *)
Record criteria := Criteria {
  k_annee : option str;
  k_parcours : option str;
  k_semestre : option str
}.

(** One condition [column = ?] of the WHERE clause per key present. *)
Definition condition (k : option str) (v : str) : bool :=
  match k with
  | Some x => str_eqb v x
  | None => true
  end.

Definition where_clause (cr : criteria) (e : etudiant_row) : bool :=
  condition (k_annee cr) (e_annee e) && condition (k_parcours cr) (e_parcours e)
  && condition (k_semestre cr) (e_semestre e).

Definition no_conditions (cr : criteria) : bool :=
  match k_annee cr, k_parcours cr, k_semestre cr with
  | None, None, None => true
  | _, _, _ => false
  end.

Definition mem_Z (x : Z) (l : list Z) : bool := existsb (Z.eqb x) l.

Section DeleteEngine.

(** SQLITE_LIMIT_VARIABLE_NUMBER: the most host parameters ([?]) the engine
    accepts in one statement (999 in SQLite before 3.32, 32766 since,
    unless the library was built otherwise); a statement with more raises
    [OperationalError].  It bears on the DELETE of the grade rows, which
    binds one parameter per student to delete; the other statements of the
    program bind six parameters at most. *)
Variable max_variables : nat.

(** [delete_data]: the outcome (the number of students deleted) and the
    store afterwards.  When the connection cannot be opened, the
    [except] clause reads [conn], which was never bound.  When the engine
    refuses the DELETE of the grade rows, the [except] clause rolls back
    and returns 0. *)
Definition delete_data (cr : criteria) (s : store) : result nat * store :=
  match get_connection s with
  | Raise _ => (Raise UnboundLocalError, s)
  | Ok conn =>
    if no_conditions cr then (Ok 0, Some (close conn))
    else
      let db := c_work conn in
      let student_ids_to_delete := map e_id (filter (where_clause cr) (etudiants db)) in
      match student_ids_to_delete with
      | [] => (Ok 0, Some (close conn))
      | _ :: _ =>
        if max_variables <? length student_ids_to_delete
        then (Ok 0, Some (close (rollback conn)))
        else
          let notes' :=
            filter (fun n => negb (mem_Z (n_etudiant_id n) student_ids_to_delete))
                   (notes db) in
          let etudiants' := filter (fun e => negb (where_clause cr e)) (etudiants db) in
          let students_deleted_count := length (filter (where_clause cr) (etudiants db)) in
          let conn := commit (set_work conn
                        (Database etudiants' notes' (seq_etudiants db) (seq_notes db))) in
          (Ok students_deleted_count, Some (close conn))
      end
  end.

End DeleteEngine.

(* ================================================================== *)
(** * What a match is: the relation the matcher computes *)
(* ================================================================== *)

(** [reach r st st']: the expression [r] can be matched from [st],
    ending at [st'].  The relation knows no priorities; every match the
    matcher returns is one of these (lemma [rmatch_sound]). *)
Inductive reach : regex -> mstate -> mstate -> Prop :=
| reach_eps st :
    reach REps st st
| reach_char cs pos prev c rest caps :
    cset_mem cs c = true ->
    reach (RChar cs) (MState pos prev (c :: rest) caps)
                     (MState (S pos) (Some c) rest caps)
| reach_seq r1 r2 st1 st2 st3 :
    reach r1 st1 st2 -> reach r2 st2 st3 -> reach (RSeq r1 r2) st1 st3
| reach_alt_l r1 r2 st1 st2 :
    reach r1 st1 st2 -> reach (RAlt r1 r2) st1 st2
| reach_alt_r r1 r2 st1 st2 :
    reach r2 st1 st2 -> reach (RAlt r1 r2) st1 st2
| reach_star_stop g r st :
    reach (RStar g r) st st
| reach_star_more g r st1 st2 st3 :
    reach r st1 st2 -> m_pos st1 < m_pos st2 ->
    reach (RStar g r) st2 st3 -> reach (RStar g r) st1 st3
| reach_group i r st1 st2 :
    reach r st1 st2 -> reach (RGroup i r) st1 (set_group i st1 st2)
| reach_bol st :
    at_line_start st = true -> reach RBol st st
| reach_end st :
    m_rest st = [] -> reach REnd st st
| reach_look r st1 st2 :
    reach r st1 st2 ->
    reach (RLook r) st1 (MState (m_pos st1) (m_prev st1) (m_rest st1) (m_caps st2)).

(** The text between two positions of the matcher. *)
Definition text_between (st1 st2 : mstate) : str :=
  firstn (m_pos st2 - m_pos st1) (m_rest st1).

(** Expressions without capturing groups. *)
Fixpoint groupless (r : regex) : bool :=
  match r with
  | REps | RChar _ | RBol | REnd => true
  | RSeq r1 r2 | RAlt r1 r2 => groupless r1 && groupless r2
  | RStar _ r1 | RLook r1 => groupless r1
  | RGroup _ _ => false
  end.

(* ================================================================== *)
(** * Notions of the statements and of the proofs *)
(* ================================================================== *)

(** ** Decimal digits, blanks and [float] *)

(** The ten characters of a run, as offsets. *)
Definition ten : list N := [0; 1; 2; 3; 4; 5; 6; 7; 8; 9]%N.

(** Checked on the table: no decimal digit is a blank, and the only
    digits below 127 are the ASCII ones. *)
Definition run_ok (lo : N) : bool :=
  forallb (fun k => negb (is_space (lo + k)%N)) ten
  && ((lo =? 48) || (127 <=? lo))%N.

Definition all_ascii_digits (s : str) : Prop :=
  Forall (fun c => is_ascii_digit c = true) s.

Definition all_decimal (s : str) : Prop :=
  Forall (fun c => is_decimal c = true) s.

(** What may follow a run of digits for [digitpart] to stop there. *)
Definition stops (rest : str) : Prop :=
  match rest with
  | [] => True
  | c :: _ => is_ascii_digit c = false /\ char_eqb c (ch "_") = false
  end.

(** The shape of a score: digits, a point or a comma, digits. *)
Definition score_shape (s : str) : Prop :=
  exists a sep b,
    s = a ++ sep :: b /\ a <> [] /\ b <> []
    /\ all_decimal a /\ all_decimal b
    /\ (sep = ch "." \/ sep = ch ",").

(** ** The claims *)

(** The score read from a score text: the parse of the code, which did
    not fail. *)
Definition parsed_as (note_str : str) (v : pyfloat) : Prop :=
  score_shape note_str
  /\ exists q, v = FNum q
               /\ float (strip (replace_char (ch ",") (ch ".") note_str)) = Some v.

(** ** C1: the worked example of the grade tree builder *)

(** The notes text of the example: the unit line and, in its section,
    the course line. *)
Definition notes_C1 : str :=
  py "UE401 Systèmes 14,5/20" ++ NL ++ py "Algorithmique 12/20".

(** The same with the course score written with a decimal separator. *)
Definition notes_C1_decimal : str :=
  py "UE401 Systèmes 14,5/20" ++ NL ++ py "Algorithmique 12,0/20".

(** The claim as it is written: the unit entry carries the bare code
    [UE401], and the course scored [12/20] is returned. *)
Definition C1_as_stated : Prop :=
  _extract_courses notes_C1 =
    [ Course (py "UE401") (py "UE401") (FNum (29 # 2)) 1;
      Course (py "UE401") (py "Algorithmique") (FNum (12 # 1)) 0 ].

(** ** C4: the order of the entries *)

(** Each unit entry comes before all the course entries that carry its
    unit code. *)
Definition units_precede (l : list course) : Prop :=
  forall i j u c,
    nth_error l i = Some u -> nth_error l j = Some c ->
    est_ue u = 1%Z -> est_ue c = 0%Z -> ue c = ue u -> i < j.

(** Each course entry carries the code of a unit entry that comes
    earlier in the list. *)
Definition courses_follow_a_unit (l : list course) : Prop :=
  forall j c,
    nth_error l j = Some c -> est_ue c = 0%Z ->
    exists i u, i < j /\ nth_error l i = Some u
                /\ est_ue u = 1%Z /\ ue u = ue c.

(** The course name of a unit entry is its unit code. *)
Definition units_named_by_code (l : list course) : Prop :=
  forall c, In c l -> est_ue c = 1%Z -> cours c = ue c.

Definition C4_as_stated (notes_block : str) : Prop :=
  units_precede (_extract_courses notes_block)
  /\ courses_follow_a_unit (_extract_courses notes_block)
  /\ units_named_by_code (_extract_courses notes_block).

(** Two unit lines with the same label. *)
Definition notes_same_label : str :=
  py "UE1 A 10,5/20" ++ NL ++ py "Algo 12,5/20" ++ NL ++ py "UE1 A 11,5/20".

(** The unit codes of the unit entries, in order. *)
Definition unit_codes (l : list course) : list str :=
  map ue (filter (fun c => (est_ue c =? 1)%Z) l).

(** What one unit match contributes. *)
Definition chunk (notes_block : str) (ue_match : str * str) : list course :=
  let '(ue_name, ue_note_str) := ue_match in
  let ue_name := strip ue_name in
  Course ue_name ue_name (parse_note ue_note_str) 1
    :: _extract_ue_courses notes_block ue_name.

(** ** C8: the store cannot be opened *)

(** The failure reaches the caller. *)
Definition surfaced {A : Type} (r : result A) : Prop :=
  exists e, r = Raise e.

(** The claim as it is written, for the listing of the years. *)
Definition C8_as_stated_for_years : Prop :=
  surfaced (get_available_years None).

(** ** C6: delete by year, track and semester *)

(** The student matches the three filters. *)
Definition matches_all (annee parcours semestre : str) (e : etudiant_row) : bool :=
  str_eqb (e_annee e) annee && str_eqb (e_parcours e) parcours
  && str_eqb (e_semestre e) semestre.

(** The grade row belongs to a student that matches the three filters. *)
Definition owner_matches (annee parcours semestre : str) (db : database)
  (g : note_row) : bool :=
  existsb (fun e => (e_id e =? n_etudiant_id g)%Z
                    && matches_all annee parcours semestre e)
          (etudiants db).

(** A store with [n] students under one year, track and semester, who
    differ by their given names, and no grade row. *)
Definition crowded_store (n : nat) : database :=
  Database
    (map (fun i => EtudiantRow (Z.of_nat i) (py "DUPONT") (repeat (ch "a") i)
                     (py "0") (py "M1") (py "2022-2023") (py "7"))
         (seq 1 n))
    [] (Z.of_nat n) 0.

(** ** C5: the academic year of the header *)

(** The text starts with a full academic-year header: the words, four
    digits, a slash, four digits. *)
Definition year_header_here (s : str) : Prop :=
  exists y1 y2 rest,
    s = py "Année universitaire " ++ y1 ++ ch "/" :: y2 ++ rest
    /\ length y1 = 4 /\ length y2 = 4 /\ all_decimal y1 /\ all_decimal y2.

Definition all_space (s : str) : Prop := Forall (fun c => is_space c = true) s.

(** The text starts with a session header: the word, blanks, S and a
    number, blanks, four digits, a slash, two digits. *)
Definition session_header_here (s : str) : Prop :=
  exists b1 n b2 y1 y2 rest,
    s = py "Session" ++ b1 ++ ch "S" :: n ++ b2 ++ y1 ++ ch "/" :: y2 ++ rest
    /\ b1 <> [] /\ all_space b1 /\ n <> [] /\ all_decimal n
    /\ b2 <> [] /\ all_space b2
    /\ length y1 = 4 /\ length y2 = 2 /\ all_decimal y1 /\ all_decimal y2.

(** [sub] occurs in [s]. *)
Definition occurs (sub s : str) : Prop :=
  exists pre post, s = pre ++ sub ++ post.

Definition academic_year (content : str) : str :=
  p_annee (_extract_parcours_info content).

(** The claim as it is written: the header only has to occur. *)
Definition C5_as_stated : Prop :=
  (forall content,
     occurs (py "Année universitaire 2022/2023") content ->
     academic_year content = py "2022-2023")
  /\ (forall content,
     occurs (py "Session S1 2022/23") content ->
     (forall i, ~ year_header_here (skipn i content)) ->
     academic_year content = py "2022-2023").

(** A document of two pages, the first of another year. *)
Definition two_headers : str :=
  py "Année universitaire 2021/2022" ++ NL ++ py "Année universitaire 2022/2023".

(** ** The import loop as a fold over the store *)

(** The body of [import_apogee_data] once the connection is open. *)
Definition import_batch (violates : database -> insert_stmt -> bool)
  (parcours annee semestre : str) (db : database) (students : list student)
  : result nat * database :=
  import_students violates parcours annee semestre (Connection db db []) students 0.

(** What the statements of the import come to as functions of the content
    the connection sees: the content afterwards, or the exception. *)
Definition insert_etudiant_on (violates : database -> insert_stmt -> bool)
  (db : database) (nom prenom numero_etudiant parcours annee semestre : str)
  : result database :=
  if violates db (InsertEtudiant nom prenom numero_etudiant parcours annee semestre)
  then Raise IntegrityError
  else Ok (insert_or_ignore_etudiant db nom prenom numero_etudiant parcours annee semestre).

Definition insert_note_on (violates : database -> insert_stmt -> bool)
  (db : database) (etudiant_id : Z) (c : course) : result database :=
  if violates db (InsertNote etudiant_id c)
  then Raise IntegrityError
  else Ok (insert_or_ignore_note db etudiant_id c).

Fixpoint insert_notes_on (violates : database -> insert_stmt -> bool)
  (db : database) (etudiant_id : Z) (courses : list course) : result database :=
  match courses with
  | [] => Ok db
  | c :: courses' =>
    match insert_note_on violates db etudiant_id c with
    | Ok db' => insert_notes_on violates db' etudiant_id courses'
    | Raise e => Raise e
    end
  end.

Definition student_statements_on (violates : database -> insert_stmt -> bool)
  (parcours annee semestre : str) (db : database) (st : student)
  : result database :=
  match insert_etudiant_on violates db (s_nom st) (s_prenom st)
          (s_numero_etudiant st) parcours annee semestre with
  | Raise e => Raise e
  | Ok db1 =>
    match select_etudiant_id db1 (s_nom st) (s_prenom st) parcours annee semestre with
    | None => Raise TypeError
    | Some etudiant_id => insert_notes_on violates db1 etudiant_id (s_cours st)
    end
  end.

(** What the savepoints amount to: a student whose statements succeed
    moves the store on and is counted, one whose statements meet an
    integrity error leaves no trace. *)
Fixpoint import_loop (violates : database -> insert_stmt -> bool)
  (parcours annee semestre : str) (db : database) (students : list student)
  (n : nat) : result nat * database :=
  match students with
  | [] => (Ok n, db)
  | st :: students' =>
    match student_statements_on violates parcours annee semestre db st with
    | Ok db' => import_loop violates parcours annee semestre db' students' (S n)
    | Raise IntegrityError =>
      import_loop violates parcours annee semestre db students' n
    | Raise e => (Raise e, db)
    end
  end.

(** ** C2: importing a document twice *)

(** A document with one student. *)
Definition one_student_document : str :=
  py "DUPONT Jean" ++ NL ++
  py "N° Etudiant : 12345 INE : 1234567890A" ++ NL ++
  py "Né le : 01/01/2000" ++ NL ++
  py "inscrit en Semestre 7 M1-API" ++ NL ++ NL ++
  py "UE701 Maths 12,5/20" ++ NL ++
  py "Algebre 11,0/20".

(** The store [later] holds the rows of [earlier], in the same place, and
    maybe more after them. *)
Definition extends (earlier later : database) : Prop :=
  (exists l, etudiants later = etudiants earlier ++ l)
  /\ (exists l, notes later = notes earlier ++ l).

(** The store holds the identity row of the student and, under its id,
    a grade row for each course of the student. *)
Definition stored (parcours annee semestre : str) (st : student) (db : database)
  : Prop :=
  exists id,
    select_etudiant_id db (s_nom st) (s_prenom st) parcours annee semestre = Some id
    /\ forall c, In c (s_cours st) ->
                 existsb (same_note id (cours c)) (notes db) = true.

(** ** Instances *)

(** A store that refuses the grade rows of one course (a trigger on table
    [notes], say), and accepts the rest. *)
Definition rejects_cours (bad : str) (db : database) (i : insert_stmt) : bool :=
  match i with
  | InsertEtudiant _ _ _ _ _ _ => false
  | InsertNote _ c => str_eqb (cours c) bad
  end.

Definition dupont : student :=
  Student (py "1") (py "DUPONT") (py "Jean")
          [Course (py "UE1 A") (py "UE1 A") (FNum (12 # 1)) 1].

(** The second of his grade rows is the one the store refuses. *)
Definition martin : student :=
  Student (py "2") (py "MARTIN") (py "Paul")
          [Course (py "UE1 A") (py "UE1 A") (FNum (9 # 1)) 1;
           Course (py "UE1 A") (py "Algo") (FNum (8 # 1)) 0].

Definition durand : student :=
  Student (py "3") (py "DURAND") (py "Anne") [].

Definition after_dupont : database :=
  snd (import_batch (rejects_cours (py "Algo")) (py "M1") (py "2022-2023") (py "7")
         empty_db [dupont]).

(** The connection as the statements of [martin] leave it. *)
Definition martin_fails : connection :=
  snd (student_statements (rejects_cours (py "Algo")) (py "M1") (py "2022-2023")
         (py "7") (exec_savepoint (Connection after_dupont after_dupont [])) martin).

(** A page that starts with a title line before the header. *)
Definition page_before : str := py "USMB" ++ NL.

Definition page_after : str := NL ++ py "DUPONT Jean".

(** ** The matcher finds a match whenever there is one *)

(** Every look-ahead of the expression is without groups (so that what
    it leaves behind does not depend on how it was matched). *)
Fixpoint looks_groupless (r : regex) : bool :=
  match r with
  | REps | RChar _ | RBol | REnd => true
  | RSeq r1 r2 | RAlt r1 r2 => looks_groupless r1 && looks_groupless r2
  | RStar _ r1 | RGroup _ r1 => looks_groupless r1
  | RLook r1 => groupless r1
  end.

(** ** Matching inside one subject *)

(** The character before position [pos] of [s]. *)
Definition prev_at (s : str) (pos : nat) : option char :=
  match pos with
  | O => None
  | S p => nth_error s p
  end.

(** The matcher standing at position [pos] of [s], no group captured. *)
Definition state_at (s : str) (pos : nat) : mstate :=
  MState pos (prev_at s pos) (skipn pos s) [].

(** [pattern.match(s, pos)] *)
Definition match_at (r : regex) (s : str) (pos : nat) : option mstate :=
  match_here r pos (prev_at s pos) (skipn pos s).

(** The state stands at one of the positions of [s]. *)
Definition on_subject (s : str) (st : mstate) : Prop :=
  m_pos st <= length s
  /\ m_rest st = skipn (m_pos st) s
  /\ m_prev st = prev_at s (m_pos st).

Definition with_caps (st : mstate) (c : captures) : mstate :=
  MState (m_pos st) (m_prev st) (m_rest st) c.

(** The state [j] characters further. *)
Fixpoint advance (st : mstate) (j : nat) : mstate :=
  match j with
  | O => st
  | S j' =>
    match m_rest st with
    | c :: rest' => advance (MState (S (m_pos st)) (Some c) rest' (m_caps st)) j'
    | [] => st
    end
  end.

(** The notes of a block may end at position [x] of [s]: what the
    look-ahead of the block pattern asks for is there. *)
Definition notes_may_end (s : str) (x : nat) : Prop :=
  exists st', reach notes_end_body (state_at s x) st'.

(** ** Counting the matches of [finditer] *)

(** The number of the positions of [ps] at or after [x]. *)
Definition count_from (x : nat) (ps : list nat) : nat :=
  length (filter (fun p => x <=? p) ps).

(** ** The words an expression spells *)

(** [spells r w]: some match of [r] consumes exactly the word [w]. *)
Definition spells (r : regex) (w : str) : Prop :=
  exists st st', reach r st st' /\ m_rest st = w ++ m_rest st'.

(** The code points [lo], [lo + 1], ... ([n] of them). *)
Fixpoint N_range (lo : N) (n : nat) : list N :=
  match n with
  | O => []
  | S n' => lo :: N_range (N.succ lo) n'
  end.

(** Every character of the item satisfies [P]; [sp] and [dg] tell
    whether [P] is known to hold of every blank and of every digit. *)
Definition item_within (P : char -> bool) (sp dg : bool) (i : citem) : bool :=
  match i with
  | CChar x => P x
  | CRange lo hi => forallb P (N_range lo (N.to_nat (hi + 1 - lo)))
  | CDigit => dg
  | CSpace => sp
  end.

Definition cset_within (P : char -> bool) (sp dg : bool) (cs : cset) : bool :=
  match cs with
  | CIn l => forallb (item_within P sp dg) l
  | CNotIn _ | CAny => false
  end.

(** Every character the expression can consume satisfies [P]. *)
Fixpoint within (P : char -> bool) (sp dg : bool) (r : regex) : bool :=
  match r with
  | RChar cs => cset_within P sp dg cs
  | RSeq r1 r2 | RAlt r1 r2 => within P sp dg r1 && within P sp dg r2
  | RStar _ r1 | RGroup _ r1 => within P sp dg r1
  | REps | RBol | REnd | RLook _ => true
  end.

(** ** The shape of the head of a student's block *)

(** The parts of [student_head]. *)
Definition names_part : list regex :=
  [ RGroup 1 (words upper_cs); RPlus true r_s; RGroup 2 (words name_cs);
    RStar true r_s; r_LF ].

Definition id_part : list regex :=
  [ RStar true r_s; RLit (py "Etudiant"); RStar true r_s; RLit (py ":");
    RStar true r_s; RGroup 3 (RPlus true r_d); RStar true r_s; RLit (py "INE");
    RStar true r_s ].

Definition ine_part : list regex :=
  [ RLit (py ":"); RStar true r_s; RPlus true r_S ].

Definition born_part : list regex :=
  [ RStar true r_s; r_LF; RLit (py "Né"); ROpt (RLit (py "e")); RLit (py " le");
    RStar true r_s ].

Definition born_value : list regex := [ RLit (py ":"); RPlus true not_LF ].

Definition enrol_part : list regex :=
  [ RStar true r_s; r_LF; RLit (py "inscrit"); ROpt (RChar (CIn [CChar (ch "e")]));
    RPlus true r_s; RLit (py "en"); RPlus true r_s; RLit (py "Semestre");
    RPlus true r_s ].

Definition enrol_value : list regex := [ RPlus true r_d; RPlus true not_LF ].

Definition gap_part : list regex :=
  [ RPlus true (RSeq (RStar true r_s) r_LF);
    ROpt (RSeqs [RLit (py "Notes et résultats"); RStar true r_s; r_LF]);
    ROpt (RSeqs [RLit (py "Note/Barème Pts jury Résultat Session Crédits");
                 RStar true r_s; r_LF]);
    RStar true r_s ].

Definition tail_part : list regex :=
  id_part ++ ine_part ++ born_part ++ born_value ++ enrol_part ++ enrol_value
  ++ gap_part.

Definition cN : char := ch "N".

Definition cU : char := ch "U".

Definition cE : char := ch "E".

Definition cColon : char := ch ":".

Definition cDeg : char := uc "°".

Definition cAcc : char := uc "é".

(** A character of a name, or a blank. *)
Definition name_char (c : char) : bool := cset_mem name_cs c || is_space c.

(** The characters of the fixed words of the head. *)
Definition lit_chars : str :=
  py "Etudiant:INENé leinscritenSemestreNotes et résultatsNote/Barème Pts jury Résultat Session Crédits".

(** A blank, a digit or a character of a fixed word of the head. *)
Definition plain (c : char) : bool :=
  is_space c || is_decimal c || existsb (N.eqb c) lit_chars.

(** The same, the accented letter apart. *)
Definition id_char (c : char) : bool := plain c && negb (N.eqb c cAcc).

Definition not_space (c : char) : bool := negb (is_space c).

Definition not_newline (c : char) : bool := negb (N.eqb c LF).

(** The two names, up to the end of their line. *)
Definition names_shape (n : str) : Prop :=
  exists up w,
    n = up :: w ++ [LF]
    /\ is_space up = false
    /\ Forall (fun c => name_char c = true) (up :: w).

(** What follows the degree sign of the second line. *)
Definition tail_shape (t : str) : Prop :=
  exists a sp v b w1 c d w2 y1 y2,
    t = a ++ cColon :: sp ++ v ++ b ++ cColon :: w1 ++ c ++ d :: w2
          ++ y1 ++ LF :: y2
    /\ Forall (fun x => id_char x = true) a
    /\ Forall (fun x => is_space x = true) sp
    /\ Forall (fun x => not_space x = true) v
    /\ Forall (fun x => plain x = true) b
    /\ In cAcc b
    /\ Forall (fun x => not_newline x = true) w1
    /\ Forall (fun x => plain x = true) c
    /\ is_decimal d = true
    /\ Forall (fun x => not_newline x = true) w2
    /\ Forall (fun x => plain x = true) y1
    /\ Forall (fun x => is_space x = true) y2.

Definition head_shape (w : str) : Prop :=
  exists n t, w = n ++ cN :: cDeg :: t /\ names_shape n /\ tail_shape t.

(** A word that is empty or ends a line. *)
Definition ends_line (w : str) : Prop := w = [] \/ exists w', w = w' ++ [LF].

(** ** Two heads do not nest *)

(** Any character but [k]. *)
Definition other_than (k : char) (c : char) : bool := negb (N.eqb c k).

Ltac list_eq :=
  repeat (rewrite <- app_assoc || rewrite <- app_comm_cons); reflexivity.

(** ** Blocks of a document and the blocks [findall] reports *)

(** The block pattern matches at each of the positions [ps] of [s], and
    each of these matches ends before the next position, or at it. *)
Fixpoint blocks_at (s : str) (ps : list nat) : bool :=
  match ps with
  | [] => true
  | p :: ps' =>
    match match_at student_pattern s p with
    | None => false
    | Some e =>
      match ps' with
      | [] => true
      | p' :: _ => m_pos e <=? p'
      end && blocks_at s ps'
    end
  end.

(** The fields of the block that stands at position [p] of [s]: the
    texts of the four groups of the block pattern matched there. *)
Definition block_at (s : str) (p : nat) : option block :=
  match match_at student_pattern s p with
  | Some e =>
    Some [group (MatchObj p e) 1; group (MatchObj p e) 2;
          group (MatchObj p e) 3; group (MatchObj p e) 4]
  | None => None
  end.

(** The position [q] lies in one of the blocks that stand at [ps]. *)
Fixpoint in_blocks (s : str) (ps : list nat) (q : nat) : bool :=
  match ps with
  | [] => false
  | p :: ps' =>
    match match_at student_pattern s p with
    | Some e => (p <=? q) && (q <? m_pos e)
    | None => false
    end || in_blocks s ps' q
  end.

(** No block starts outside the blocks at [ps]: at a position of [s]
    that lies in none of them, the block pattern does not match. *)
Definition no_block_outside (s : str) (ps : list nat) : bool :=
  forallb (fun q =>
             in_blocks s ps q
             || match match_at student_pattern s q with
                | None => true
                | Some _ => false
                end)
          (seq 0 (S (length s))).

(** The family name and the given name a block carries. *)
Definition block_names (s : str) (p : nat) : str * str :=
  match block_at s p with
  | Some b => (strip (nth 0 b []), strip (nth 1 b []))
  | None => ([], [])
  end.

(** ** C7: a malformed block among well-formed ones *)

(** A document with two well-formed blocks and, between them, a block
    without the line of the student number. *)
Definition document_with_malformed_block : str :=
  py "DUPONT Jean" ++ NL ++
  py "N° Etudiant : 12345 INE : 1234567890A" ++ NL ++
  py "Né le : 01/01/2000" ++ NL ++
  py "inscrit en Semestre 7 M1-API" ++ NL ++ NL ++
  py "UE701 Maths 12,5/20" ++ NL ++
  py "Algebre 11,0/20" ++ NL ++ NL ++
  py "MARTIN Paul" ++ NL ++
  py "Né le : 02/02/2000" ++ NL ++
  py "inscrit en Semestre 7 M1-API" ++ NL ++ NL ++
  py "UE701 Maths 9,0/20" ++ NL ++ NL ++
  py "DURAND Anne" ++ NL ++
  py "N° Etudiant : 67890 INE : 0987654321B" ++ NL ++
  py "Né le : 03/03/2000" ++ NL ++
  py "inscrit en Semestre 7 M1-API" ++ NL ++ NL ++
  py "UE701 Maths 15,0/20" ++ NL.

(** A document with two well-formed blocks that carry the same names (two
    students called alike, with their own numbers and grades) and,
    between them, a block without the line of the student number. *)
Definition document_with_twin_blocks : str :=
  py "DUPONT Jean" ++ NL ++
  py "N° Etudiant : 12345 INE : 1234567890A" ++ NL ++
  py "Né le : 01/01/2000" ++ NL ++
  py "inscrit en Semestre 7 M1-API" ++ NL ++ NL ++
  py "UE701 Maths 12,5/20" ++ NL ++
  py "Algebre 11,0/20" ++ NL ++ NL ++
  py "MARTIN Paul" ++ NL ++
  py "Né le : 02/02/2000" ++ NL ++
  py "inscrit en Semestre 7 M1-API" ++ NL ++ NL ++
  py "UE701 Maths 9,0/20" ++ NL ++ NL ++
  py "DUPONT Jean" ++ NL ++
  py "N° Etudiant : 67890 INE : 0987654321B" ++ NL ++
  py "Né le : 03/03/2000" ++ NL ++
  py "inscrit en Semestre 7 M1-API" ++ NL ++ NL ++
  py "UE701 Maths 15,0/20" ++ NL.

(** The claim as it is written, for an import into an empty store, where
    the students committed are the identity rows: N well-formed blocks,
    and nothing else that reads as a block, give N students or more. *)
Definition C7_as_stated : Prop :=
  forall (content : str) (ps : list nat),
    blocks_at content ps = true ->
    no_block_outside content ps = true ->
    exists n db',
      import_apogee_data no_violation content (Some empty_db) = (Ok n, Some db')
      /\ length ps <= length (etudiants db').

(** A document whose malformed block is two names on a line, right before
    a well-formed block. *)
Definition document_with_bare_names : str :=
  py "MARTIN Paul" ++ NL ++
  py "DURAND Anne" ++ NL ++
  py "N° Etudiant : 67890 INE : 0987654321B" ++ NL ++
  py "Né le : 03/03/2000" ++ NL ++
  py "inscrit en Semestre 7 M1-API" ++ NL ++ NL ++
  py "UE701 Maths 15,0/20" ++ NL.

(** ** The store: consistency, and what the operations keep *)

(** The columns of UNIQUE(nom, prenom, parcours, annee, semestre). *)
Definition etudiant_key (e : etudiant_row) : str * str * str * str * str :=
  (e_nom e, e_prenom e, e_parcours e, e_annee e, e_semestre e).

(** The columns of UNIQUE(etudiant_id, cours). *)
Definition note_key (g : note_row) : Z * str := (n_etudiant_id g, n_cours g).

(** A store whose keys are what the schema says, and where every grade
    row belongs to a student (the schema declares the foreign key, but
    SQLite does not enforce it unless asked to). *)
Definition consistent (db : database) : Prop :=
  NoDup (map e_id (etudiants db))
  /\ NoDup (map etudiant_key (etudiants db))
  /\ NoDup (map n_id (notes db))
  /\ NoDup (map note_key (notes db))
  /\ forall g, In g (notes db) ->
               exists e, In e (etudiants db) /\ e_id e = n_etudiant_id g.

(** A store with two students of two tracks, each with one grade row. *)
Definition sample_store : database :=
  Database
    [ EtudiantRow 1 (py "DUPONT") (py "Jean") (py "12345")
                  (py "M1-API") (py "2022-2023") (py "7");
      EtudiantRow 2 (py "DURAND") (py "Anne") (py "67890")
                  (py "M2-API") (py "2022-2023") (py "9") ]
    [ NoteRow 1 1 (py "UE701 Maths") (py "UE701 Maths") (FNum (25 # 2)) 1;
      NoteRow 2 2 (py "UE901 Projet") (py "UE901 Projet") (FNum (15 # 1)) 1 ]
    2 2.

(** The criteria that select the first of them. *)
Definition sample_criteria : criteria :=
  Criteria (Some (py "2022-2023")) (Some (py "M1-API")) (Some (py "7")).

(** ** Replacing the data of a document *)

(** The identity row carries the names and the number of a student of
    the list. *)
Definition from_document (students : list student) (e : etudiant_row) : Prop :=
  exists st,
    In st students
    /\ e_nom e = s_nom st /\ e_prenom e = s_prenom st
    /\ e_numero_etudiant e = s_numero_etudiant st.

(** The grade row of [e] carries an entry of a student of the list that
    has the names of [e]. *)
Definition grade_from_document (students : list student) (e : etudiant_row)
  (g : note_row) : Prop :=
  exists st c,
    In st students /\ In c (s_cours st)
    /\ e_nom e = s_nom st /\ e_prenom e = s_prenom st
    /\ n_ue g = ue c /\ n_cours g = cours c
    /\ n_note g = note c /\ n_est_ue g = est_ue c.

(** The store [db] is [db0] with rows added at the end, all of them for
    students of the list under the given year, track and semester. *)
Definition grown (annee parcours semestre : str) (students : list student)
  (db0 db : database) : Prop :=
  exists newE newN,
    etudiants db = etudiants db0 ++ newE
    /\ notes db = notes db0 ++ newN
    /\ (forall e, In e newE ->
          matches_all annee parcours semestre e = true
          /\ from_document students e)
    /\ (forall g, In g newN ->
          exists e, In e (etudiants db)
                    /\ e_id e = n_etudiant_id g
                    /\ matches_all annee parcours semestre e = true
                    /\ grade_from_document students e g).

(** ** The order of the listings *)

(** Strictly before, in the order of the code points. *)
Definition str_ltb (a b : str) : bool := str_leb a b && negb (str_eqb a b).

(** A list in strictly ascending order: every element is strictly
    before all that follow it (so none occurs twice). *)
Fixpoint ascending (l : list str) : Prop :=
  match l with
  | [] => True
  | x :: l' => (forall y, In y l' -> str_ltb x y = true) /\ ascending l'
  end.

(** The order of ORDER BY nom, prenom: by family name, then by given
    name. *)
Definition name_leb (e1 e2 : etudiant_row) : bool :=
  if str_eqb (e_nom e1) (e_nom e2)
  then str_leb (e_prenom e1) (e_prenom e2)
  else str_leb (e_nom e1) (e_nom e2).

(** A list of student rows in that order: every row is before all that
    follow it, or equal to them in both names. *)
Fixpoint by_name (l : list etudiant_row) : Prop :=
  match l with
  | [] => True
  | x :: l' => (forall y, In y l' -> name_leb x y = true) /\ by_name l'
  end.

(** ** Capturing groups *)

(** The expression holds group [i]. *)
Fixpoint has_group (i : nat) (r : regex) : bool :=
  match r with
  | REps | RChar _ | RBol | REnd => false
  | RSeq r1 r2 | RAlt r1 r2 => has_group i r1 || has_group i r2
  | RStar _ r1 | RLook r1 => has_group i r1
  | RGroup j r1 => Nat.eqb i j || has_group i r1
  end.

(** ** The section of a unit *)

(** The part of the notes text in which [_extract_ue_courses] looks for the
    courses of a unit: from the first occurrence of the label to the next
    occurrence of [UE] after it, or to the end. *)
Definition ue_section (notes_block ue_name : str) : str :=
  let ue_start := find notes_block ue_name 0 in
  let next_ue := find notes_block (py "UE") (ue_start + Z.of_nat (length ue_name)) in
  let next_ue := if (next_ue =? -1)%Z then Z.of_nat (length notes_block) else next_ue in
  slice notes_block ue_start next_ue.

(** ** The upload of a file: [process_file_content] (main_improved.py) *)

(** [s.endswith(suffix)] *)
Definition ends_with (s suffix : str) : bool :=
  starts_with (rev suffix) (rev s).

(** The dictionary [conflict_info]. *)
Record conflict_info := ConflictInfo {
  ci_filename : str;
  ci_parcours : str;
  ci_annee : str;
  ci_semestre : str;
  ci_content : str;
  ci_nb_etudiants : nat
}.

(** The status message, by its wording. *)
Inductive status_message :=
| WrongFormat                               (* Format incorrect (doit être .txt) *)
| NoStudentFound                            (* Aucun étudiant trouvé dans le fichier *)
| AlreadyThere (parcours annee semestre : str)
                                            (* Données déjà existantes pour ... *)
| ImportedOk (success : nat)                (* Importé avec succès (... étudiants) *)
| NothingImported                           (* Erreur lors de l'import (aucun étudiant importé) *)
| Failed.                                   (* Erreur - ..., from the except clause *)

Section Upload.

Variable violates : database -> insert_stmt -> bool.

(** The text the manager reads back from the temporary file: the upload
    is split at its comma, the second part is decoded from base64, the
    bytes are written to the file and the file is read as UTF-8.  [None]
    when one of these steps raises. *)
Variable file_text : str -> option str.

(** [process_file_content]: the pair it returns, and the store
    afterwards.  Every exception ends in the [except Exception] clause. *)
Definition process_file_content (content filename : str) (s : store)
  : (status_message * option conflict_info) * store :=
  if negb (ends_with filename (py ".txt")) then ((WrongFormat, None), s)
  else
    match file_text content with
    | None => ((Failed, None), s)
    | Some text =>
      (* ApogeeDBManager(db_path=db_path) runs initialize_db *)
      match get_connection s with
      | Raise _ => ((Failed, None), s)
      | Ok conn =>
        let s := Some (close (commit (set_work conn (initialize_db (c_work conn))))) in
        let parsed_data := parse_apogee_file text in
        match d_etudiants parsed_data with
        | [] => ((NoStudentFound, None), s)
        | _ :: _ =>
          let parcours := p_parcours (d_parcours parsed_data) in
          let annee := p_annee (d_parcours parsed_data) in
          let semestre := p_semestre (d_parcours parsed_data) in
          match get_students (Some annee) (Some parcours) (Some semestre) s with
          | Raise _ => ((Failed, None), s)
          | Ok (_ :: _) =>
            ((AlreadyThere parcours annee semestre,
              Some (ConflictInfo filename parcours annee semestre content
                      (length (d_etudiants parsed_data)))),
             s)
          | Ok [] =>
            match import_apogee_data violates text s with
            | (Ok success, s') =>
              ((if 0 <? success then ImportedOk success else NothingImported, None), s')
            | (Raise _, s') => ((Failed, None), s')
            end
          end
        end
      end
    end.

End Upload.

(** An upload that carries its text as it is; it stands for the decoding
    in the instances. *)
Definition plain_upload (content : str) : option str := Some content.

(* ================================================================== *)
(** * Lemmas on strings *)
(* ================================================================== *)

Lemma str_eqb_eq : forall a b, str_eqb a b = true <-> a = b.
Proof.
  induction a as [|x a IH]; destruct b as [|y b]; simpl; split;
    try congruence; try discriminate.
  - intros H. apply andb_true_iff in H. destruct H as [H1 H2].
    apply N.eqb_eq in H1. apply IH in H2. congruence.
  - intros H. injection H as -> ->. apply andb_true_iff. split.
    + apply N.eqb_refl.
    + apply IH. reflexivity.
Qed.

Lemma str_eqb_refl : forall a, str_eqb a a = true.
Proof. intros a. apply str_eqb_eq. reflexivity. Qed.

Lemma str_eqb_neq : forall a b, str_eqb a b = false <-> a <> b.
Proof.
  intros a b. split.
  - intros H E. apply str_eqb_eq in E. congruence.
  - intros H. destruct (str_eqb a b) eqn:E; [|reflexivity].
    apply str_eqb_eq in E. contradiction.
Qed.

(* ================================================================== *)
(** * The matcher returns matches *)
(* ================================================================== *)

Section MatcherSound.

Lemma star_loop_sound :
  forall (g : bool) (r : regex) (k : mstate -> option mstate) (res : mstate),
    (forall st k', rmatch r st k' = Some res ->
                   exists st', reach r st st' /\ k' st' = Some res) ->
    forall n st,
      star_loop (rmatch r) g k n st = Some res ->
      exists st', reach (RStar g r) st st' /\ k st' = Some res.
Proof.
  intros g r k res IHr. induction n as [|n IHn]; intros st H.
  - exists st. split; [constructor | exact H].
  - simpl in H.
    assert (Hmore :
      rmatch r st
        (fun st1 => if m_pos st <? m_pos st1
                    then star_loop (rmatch r) g k n st1 else None) = Some res ->
      exists st', reach (RStar g r) st st' /\ k st' = Some res).
    { intros Hm. apply IHr in Hm. destruct Hm as [st1 [Hr1 Hk1]].
      destruct (m_pos st <? m_pos st1) eqn:Hlt; [|discriminate].
      apply Nat.ltb_lt in Hlt. apply IHn in Hk1.
      destruct Hk1 as [st' [Hr' Hk']].
      exists st'. split; [|exact Hk'].
      eapply reach_star_more; eassumption. }
    destruct g.
    + destruct (rmatch r st _) as [res'|] eqn:Em.
      * injection H as ->. apply Hmore. reflexivity.
      * exists st. split; [constructor | exact H].
    + destruct (k st) as [res'|] eqn:Ek.
      * injection H as ->. exists st. split; [constructor | exact Ek].
      * apply Hmore. exact H.
Qed.

Lemma rmatch_sound :
  forall r st k res,
    rmatch r st k = Some res ->
    exists st', reach r st st' /\ k st' = Some res.
Proof.
  induction r as [ | cs | r1 IH1 r2 IH2 | r1 IH1 r2 IH2 | g r IH | i r IH
                   | | | r IH ]; intros st k res H; cbn [rmatch] in H.
  - exists st. split; [constructor | exact H].
  - destruct st as [pos prev rest caps]. simpl in H.
    destruct rest as [|c rest]; [discriminate|].
    destruct (cset_mem cs c) eqn:Ec; [|discriminate].
    eexists. split; [constructor; exact Ec | exact H].
  - apply IH1 in H. destruct H as [st1 [H1 H]].
    apply IH2 in H. destruct H as [st2 [H2 H]].
    exists st2. split; [econstructor; eassumption | exact H].
  - destruct (rmatch r1 st k) as [res'|] eqn:E1.
    + injection H as ->. apply IH1 in E1. destruct E1 as [st1 [H1 Hk]].
      exists st1. split; [apply reach_alt_l; exact H1 | exact Hk].
    + apply IH2 in H. destruct H as [st1 [H1 Hk]].
      exists st1. split; [apply reach_alt_r; exact H1 | exact Hk].
  - eapply star_loop_sound; [|exact H]. intros st0 k' H0. apply IH. exact H0.
  - apply IH in H. destruct H as [st1 [H1 Hk]].
    eexists. split; [apply reach_group; exact H1 | exact Hk].
  - destruct (at_line_start st) eqn:E; [|discriminate].
    exists st. split; [constructor; exact E | exact H].
  - destruct (m_rest st) eqn:E; [|discriminate].
    exists st. split; [constructor; exact E | exact H].
  - destruct (rmatch r st (fun st1 => Some st1)) as [st1|] eqn:E; [|discriminate].
    apply IH in E. destruct E as [st2 [H2 Hk]]. injection Hk as ->.
    eexists. split; [apply reach_look; exact H2 | exact H].
Qed.

End MatcherSound.

(* ================================================================== *)
(** * What a match consumes *)
(* ================================================================== *)

Section ReachFacts.

(** A match consumes a prefix of the text that is left. *)
Lemma reach_consumes :
  forall r st1 st2,
    reach r st1 st2 ->
    exists w, m_rest st1 = w ++ m_rest st2 /\ m_pos st2 = m_pos st1 + length w.
Proof.
  induction 1 as
    [ st | cs pos prev c rest caps Hc | r1 r2 s1 s2 s3 _ IH1 _ IH2
    | r1 r2 s1 s2 _ IH | r1 r2 s1 s2 _ IH | g r st
    | g r s1 s2 s3 _ IH1 Hlt _ IH2 | i r s1 s2 _ IH | st Hb | st He
    | r s1 s2 _ IH ];
    try (exists []; simpl; split; [reflexivity | lia]);
    try exact IH.
  - exists [c]. simpl. split; [reflexivity | lia].
  - destruct IH1 as [w1 [E1 P1]]. destruct IH2 as [w2 [E2 P2]].
    exists (w1 ++ w2). rewrite E1, E2, <- app_assoc, length_app.
    split; [reflexivity | lia].
  - destruct IH1 as [w1 [E1 P1]]. destruct IH2 as [w2 [E2 P2]].
    exists (w1 ++ w2). rewrite E1, E2, <- app_assoc, length_app.
    split; [reflexivity | lia].
Qed.

Lemma reach_pos_le :
  forall r st1 st2, reach r st1 st2 -> m_pos st1 <= m_pos st2.
Proof.
  intros r st1 st2 H. apply reach_consumes in H.
  destruct H as [w [_ P]]. lia.
Qed.

Lemma text_between_spec :
  forall st1 st2 w,
    m_rest st1 = w ++ m_rest st2 -> m_pos st2 = m_pos st1 + length w ->
    text_between st1 st2 = w.
Proof.
  intros st1 st2 w E P. unfold text_between. rewrite E, P.
  replace (m_pos st1 + length w - m_pos st1) with (length w + 0) by lia.
  rewrite firstn_app_2. simpl. apply app_nil_r.
Qed.

(** An expression without groups leaves the captured groups alone. *)
Lemma reach_groupless_caps :
  forall r st1 st2,
    reach r st1 st2 -> groupless r = true -> m_caps st2 = m_caps st1.
Proof.
  induction 1 as
    [ st | cs pos prev c rest caps Hc | r1 r2 s1 s2 s3 _ IH1 _ IH2
    | r1 r2 s1 s2 _ IH | r1 r2 s1 s2 _ IH | g r st
    | g r s1 s2 s3 _ IH1 Hlt _ IH2 | i r s1 s2 _ IH | st Hb | st He
    | r s1 s2 _ IH ]; simpl; intros G;
    try reflexivity; try discriminate.
  - apply andb_true_iff in G. destruct G as [G1 G2].
    rewrite IH2, IH1 by assumption. reflexivity.
  - apply andb_true_iff in G. destruct G as [G1 G2]. auto.
  - apply andb_true_iff in G. destruct G as [G1 G2]. auto.
  - rewrite IH2, IH1 by assumption. reflexivity.
  - auto.
Qed.

(** A repetition of one character set consumes characters of the set. *)
Lemma reach_star_chars :
  forall g cs st1 st2,
    reach (RStar g (RChar cs)) st1 st2 ->
    exists w, m_rest st1 = w ++ m_rest st2
              /\ m_pos st2 = m_pos st1 + length w
              /\ Forall (fun c => cset_mem cs c = true) w
              /\ m_caps st2 = m_caps st1.
Proof.
  intros g cs st1 st2 H.
  remember (RStar g (RChar cs)) as r eqn:Er.
  induction H as
    [ st | cs' pos prev c rest caps Hc | r1 r2 s1 s2 s3 _ IH1 _ IH2
    | r1 r2 s1 s2 _ IH | r1 r2 s1 s2 _ IH | g' r st
    | g' r s1 s2 s3 H1 _ Hlt _ IH2 | i r s1 s2 _ IH | st Hb | st He
    | r s1 s2 _ IH ]; try discriminate.
  - exists []. repeat split; try reflexivity; [simpl; lia | constructor].
  - injection Er as -> ->. destruct (IH2 eq_refl) as [w [E [P [F C]]]].
    inversion H1; subst. simpl in *.
    exists (c :: w). rewrite E. repeat split.
    + rewrite P. simpl. lia.
    + constructor; assumption.
    + exact C.
Qed.

Lemma reach_char_inv :
  forall cs st1 st2,
    reach (RChar cs) st1 st2 ->
    exists c, m_rest st1 = c :: m_rest st2 /\ cset_mem cs c = true
              /\ m_pos st2 = S (m_pos st1) /\ m_caps st2 = m_caps st1
              /\ m_prev st2 = Some c.
Proof.
  intros cs st1 st2 H. inversion H; subst. simpl.
  exists c. repeat split; assumption.
Qed.

(** One or more characters of a set. *)
Lemma reach_plus_chars :
  forall g cs st1 st2,
    reach (RPlus g (RChar cs)) st1 st2 ->
    exists c w, m_rest st1 = (c :: w) ++ m_rest st2
                /\ m_pos st2 = m_pos st1 + length (c :: w)
                /\ Forall (fun c => cset_mem cs c = true) (c :: w)
                /\ m_caps st2 = m_caps st1.
Proof.
  intros g cs st1 st2 H. unfold RPlus in H. inversion H; subst.
  match goal with
  | H1 : reach (RChar _) _ _, H2 : reach (RStar _ _) _ _ |- _ =>
    apply reach_char_inv in H1; destruct H1 as [c [E1 [M1 [P1 [C1 _]]]]];
    apply reach_star_chars in H2; destruct H2 as [w [E2 [P2 [F2 C2]]]]
  end.
  exists c, w. repeat split.
  - rewrite E1, E2. reflexivity.
  - rewrite P2, P1. simpl. lia.
  - constructor; assumption.
  - congruence.
Qed.

End ReachFacts.

(* ================================================================== *)
(** * Decimal digits, blanks and [float] *)
(* ================================================================== *)

Section DigitFacts.

Lemma decimal_in_inv :
  forall runs c d,
    decimal_in runs c = Some d ->
    exists lo, In lo runs /\ (lo <= c)%N /\ (c < lo + 10)%N /\ d = (c - lo)%N.
Proof.
  induction runs as [|lo runs IH]; simpl; intros c d H; [discriminate|].
  destruct ((lo <=? c) && (c <? lo + 10))%N eqn:E.
  - injection H as <-. apply andb_true_iff in E. destruct E as [E1 E2].
    apply N.leb_le in E1. apply N.ltb_lt in E2.
    exists lo. repeat split; auto.
  - destruct (IH c d H) as [lo' [Hin Hlo]]. exists lo'. split; [right|]; assumption.
Qed.

Lemma in_ten : forall k, (k < 10)%N -> In k ten.
Proof.
  intros k H. unfold ten.
  destruct (N.eq_dec k 0) as [->|]; [simpl; tauto|].
  destruct (N.eq_dec k 1) as [->|]; [simpl; tauto|].
  destruct (N.eq_dec k 2) as [->|]; [simpl; tauto|].
  destruct (N.eq_dec k 3) as [->|]; [simpl; tauto|].
  destruct (N.eq_dec k 4) as [->|]; [simpl; tauto|].
  destruct (N.eq_dec k 5) as [->|]; [simpl; tauto|].
  destruct (N.eq_dec k 6) as [->|]; [simpl; tauto|].
  destruct (N.eq_dec k 7) as [->|]; [simpl; tauto|].
  destruct (N.eq_dec k 8) as [->|]; [simpl; tauto|].
  destruct (N.eq_dec k 9) as [->|]; [simpl; tauto|].
  lia.
Qed.

Lemma decimal_runs_ok : forallb run_ok decimal_runs = true.
Proof. vm_compute. reflexivity. Qed.

Lemma to_decimal_facts :
  forall c d,
    to_decimal c = Some d ->
    (d < 10)%N /\ is_space c = false /\ ((c < 127)%N -> c = (48 + d)%N).
Proof.
  intros c d H. apply decimal_in_inv in H.
  destruct H as [lo [Hin [H1 [H2 ->]]]].
  pose proof decimal_runs_ok as Hok.
  rewrite forallb_forall in Hok. specialize (Hok lo Hin).
  unfold run_ok in Hok. apply andb_true_iff in Hok. destruct Hok as [Hs Hl].
  rewrite forallb_forall in Hs.
  split; [lia|]. split.
  - assert (Hk : (c - lo < 10)%N) by lia.
    specialize (Hs (c - lo)%N (in_ten (c - lo)%N Hk)). simpl in Hs.
    replace (lo + (c - lo))%N with c in Hs by lia.
    destruct (is_space c); [discriminate | reflexivity].
  - intros Hc. apply orb_true_iff in Hl. destruct Hl as [Hl|Hl].
    + apply N.eqb_eq in Hl. lia.
    + apply N.leb_le in Hl. lia.
Qed.

Lemma is_decimal_to_decimal :
  forall c, is_decimal c = true -> exists d, to_decimal c = Some d.
Proof.
  intros c H. unfold is_decimal in H.
  destruct (to_decimal c) as [d|]; [exists d; reflexivity | discriminate].
Qed.

Lemma is_decimal_not_space :
  forall c, is_decimal c = true -> is_space c = false.
Proof.
  intros c H. apply is_decimal_to_decimal in H. destruct H as [d H].
  apply to_decimal_facts in H. tauto.
Qed.

(** [to_ascii] sends a decimal digit to an ASCII digit. *)
Lemma to_ascii_decimal :
  forall c, is_decimal c = true -> is_ascii_digit (to_ascii c) = true.
Proof.
  intros c H. apply is_decimal_to_decimal in H. destruct H as [d H].
  pose proof (to_decimal_facts c d H) as [Hd [Hs Hc]].
  unfold to_ascii. destruct (c <? 127)%N eqn:E.
  - apply N.ltb_lt in E. specialize (Hc E). subst c.
    unfold is_ascii_digit, ascii_digit.
    replace ((48 <=? 48 + d) && (48 + d <=? 57))%N with true; [reflexivity|].
    symmetry. apply andb_true_iff. split; apply N.leb_le; lia.
  - rewrite Hs, H. unfold is_ascii_digit, ascii_digit.
    replace ((48 <=? 48 + d) && (48 + d <=? 57))%N with true; [reflexivity|].
    symmetry. apply andb_true_iff. split; apply N.leb_le; lia.
Qed.

Lemma ascii_digit_range :
  forall c, is_ascii_digit c = true -> (48 <= c)%N /\ (c <= 57)%N.
Proof.
  intros c H. unfold is_ascii_digit, ascii_digit in H.
  destruct ((48 <=? c) && (c <=? 57))%N eqn:E; [|discriminate].
  apply andb_true_iff in E. destruct E as [E1 E2].
  apply N.leb_le in E1. apply N.leb_le in E2. split; assumption.
Qed.

Lemma ascii_digit_some :
  forall c, is_ascii_digit c = true -> exists d, ascii_digit c = Some d.
Proof.
  intros c H. unfold is_ascii_digit in H.
  destruct (ascii_digit c) as [d|]; [exists d; reflexivity | discriminate].
Qed.

End DigitFacts.

Section StripFacts.

Lemma lstrip_head :
  forall c s, is_space c = false -> lstrip (c :: s) = c :: s.
Proof. intros c s H. simpl. rewrite H. reflexivity. Qed.

Lemma rstrip_last :
  forall s c, is_space c = false -> rstrip (s ++ [c]) = s ++ [c].
Proof.
  intros s c H. unfold rstrip. rewrite rev_app_distr. simpl.
  rewrite H. change (c :: rev s) with ([c] ++ rev s).
  rewrite rev_app_distr, rev_involutive. reflexivity.
Qed.

(** A text that neither starts nor ends with a blank is its own strip. *)
Lemma strip_id :
  forall c s z,
    is_space c = false -> is_space z = false ->
    strip (c :: s ++ [z]) = c :: s ++ [z].
Proof.
  intros c s z Hc Hz. unfold strip. rewrite lstrip_head by assumption.
  change (c :: s ++ [z]) with ((c :: s) ++ [z]).
  apply rstrip_last. assumption.
Qed.

Lemma strip_ascii_id :
  forall c s z,
    is_ascii_space c = false -> is_ascii_space z = false ->
    strip_ascii (c :: s ++ [z]) = c :: s ++ [z].
Proof.
  intros c s z Hc Hz. unfold strip_ascii. simpl. rewrite Hc.
  change (c :: s ++ [z]) with ((c :: s) ++ [z]).
  rewrite rev_app_distr. simpl. rewrite Hz.
  change (z :: rev s ++ [c]) with ([z] ++ rev (c :: s)).
  rewrite rev_app_distr, rev_involutive. reflexivity.
Qed.

End StripFacts.

Section FloatFacts.

Lemma digitpart_digits :
  forall ds acc n rest,
    all_ascii_digits ds -> stops rest ->
    exists v, digitpart acc n (ds ++ rest) = (v, n + length ds, rest).
Proof.
  induction ds as [|c ds IH]; intros acc n rest Hd Hr.
  - simpl. exists acc. rewrite Nat.add_0_r.
    destruct rest as [|c rest]; [reflexivity|].
    simpl in Hr. destruct Hr as [H1 H2]. simpl.
    unfold is_ascii_digit in H1.
    destruct (ascii_digit c); [discriminate|].
    rewrite H2. reflexivity.
  - inversion Hd as [|? ? Hc Hds]; subst.
    apply ascii_digit_some in Hc. destruct Hc as [d Hc].
    simpl. rewrite Hc.
    destruct (IH (acc * 10 + d)%N (S n) rest Hds Hr) as [v Hv].
    exists v. rewrite Hv. f_equal. f_equal. lia.
Qed.

Lemma stops_point : forall s, stops (ch "." :: s).
Proof. intros s. simpl. split; reflexivity. Qed.

Lemma number_point :
  forall a b,
    all_ascii_digits a -> all_ascii_digits b -> b <> [] ->
    exists q, number (a ++ ch "." :: b) = Some q.
Proof.
  intros a b Ha Hb Hne. unfold number.
  destruct (digitpart_digits a 0%N 0 (ch "." :: b) Ha (stops_point b)) as [i Hi].
  rewrite Hi.
  change (char_eqb (ch ".") (ch ".")) with true. cbv iota.
  pose proof (digitpart_digits b 0%N 0 [] Hb I) as [f Hf].
  rewrite app_nil_r in Hf. rewrite Hf.
  destruct b as [|c b]; [contradiction|].
  replace (((0 + length a =? 0) && (0 + length (c :: b) =? 0))%nat) with false.
  - simpl. eexists. reflexivity.
  - symmetry. apply andb_false_iff. right. reflexivity.
Qed.

Lemma ascii_digit_not_ascii_space :
  forall c, is_ascii_digit c = true -> is_ascii_space c = false.
Proof.
  intros c H. apply ascii_digit_range in H. destruct H as [H1 H2].
  unfold is_ascii_space.
  apply orb_false_iff. split.
  - apply andb_false_iff. right. apply N.leb_gt. lia.
  - apply N.eqb_neq. lia.
Qed.

Lemma sign_digit :
  forall c s, is_ascii_digit c = true -> sign (c :: s) = (false, c :: s).
Proof.
  intros c s H. apply ascii_digit_range in H. destruct H as [H1 H2].
  unfold sign.
  replace (char_eqb c (ch "-")) with false
    by (symmetry; apply N.eqb_neq; change (ch "-") with 45%N; lia).
  replace (char_eqb c (ch "+")) with false
    by (symmetry; apply N.eqb_neq; change (ch "+") with 43%N; lia).
  reflexivity.
Qed.

Lemma lower_digit : forall c, is_ascii_digit c = true -> lower c = c.
Proof.
  intros c H. apply ascii_digit_range in H. destruct H as [H1 H2].
  unfold lower.
  replace ((65 <=? c) && (c <=? 90))%N with false; [reflexivity|].
  symmetry. apply andb_false_iff. left. apply N.leb_gt. lia.
Qed.

(** A word that starts with a digit is none of [inf], [infinity], [nan]. *)
Lemma not_a_word :
  forall c s w,
    is_ascii_digit c = true ->
    (w = py "inf" \/ w = py "infinity" \/ w = py "nan") ->
    str_eqb (map lower (c :: s)) w = false.
Proof.
  intros c s w H Hw. simpl. rewrite (lower_digit c H).
  apply ascii_digit_range in H. destruct H as [H1 H2].
  destruct Hw as [-> | [-> | ->]]; vm_compute py; simpl;
    apply andb_false_iff; left; apply N.eqb_neq; lia.
Qed.

(** [float] reads every text that [to_ascii] turns into ASCII digits, a
    point, and ASCII digits. *)
Lemma float_point :
  forall s a b,
    map to_ascii s = a ++ ch "." :: b ->
    all_ascii_digits a -> all_ascii_digits b -> a <> [] -> b <> [] ->
    exists q, float s = Some (FNum q).
Proof.
  intros s a b Hmap Ha Hb Hna Hnb. unfold float. rewrite Hmap.
  destruct a as [|c a]; [contradiction|].
  destruct (exists_last Hnb) as [b0 [z Hz]]. subst b.
  assert (Hc : is_ascii_digit c = true) by (inversion Ha; assumption).
  assert (Hzd : is_ascii_digit z = true).
  { unfold all_ascii_digits in Hb. rewrite Forall_forall in Hb.
    apply Hb. apply in_or_app. right. left. reflexivity. }
  replace ((c :: a) ++ ch "." :: b0 ++ [z])
    with (c :: (a ++ ch "." :: b0) ++ [z])
    by (simpl; rewrite <- app_assoc; reflexivity).
  rewrite strip_ascii_id by (apply ascii_digit_not_ascii_space; assumption).
  rewrite sign_digit by assumption.
  rewrite !not_a_word by (auto).
  simpl orb. cbv iota.
  replace (c :: (a ++ ch "." :: b0) ++ [z])
    with ((c :: a) ++ ch "." :: b0 ++ [z])
    by (simpl; rewrite <- app_assoc; reflexivity).
  destruct (number_point (c :: a) (b0 ++ [z]) Ha Hb Hnb) as [q Hq]. rewrite Hq.
  exists q. reflexivity.
Qed.

Lemma decimal_not_comma :
  forall c, is_decimal c = true -> char_eqb c (ch ",") = false.
Proof.
  intros c H. apply is_decimal_to_decimal in H. destruct H as [d H].
  apply to_decimal_facts in H. destruct H as [Hd [_ Hc]].
  apply N.eqb_neq. change (ch ",") with 44%N. intros ->.
  assert (H44 : (44 < 127)%N) by lia. specialize (Hc H44). lia.
Qed.

Lemma replace_char_app :
  forall x y l1 l2,
    replace_char x y (l1 ++ l2) = replace_char x y l1 ++ replace_char x y l2.
Proof. intros. apply map_app. Qed.

Lemma replace_char_cons :
  forall x y c l,
    replace_char x y (c :: l) = (if char_eqb c x then y else c) :: replace_char x y l.
Proof. reflexivity. Qed.

Lemma replace_decimal :
  forall a, all_decimal a -> replace_char (ch ",") (ch ".") a = a.
Proof.
  induction a as [|c a IH]; intros H; [reflexivity|].
  inversion H; subst. rewrite replace_char_cons.
  rewrite decimal_not_comma by assumption. rewrite IH by assumption. reflexivity.
Qed.

Lemma all_decimal_to_ascii :
  forall a, all_decimal a -> all_ascii_digits (map to_ascii a).
Proof.
  induction a as [|c a IH]; intros H; [constructor|].
  inversion H; subst. simpl. constructor.
  - apply to_ascii_decimal. assumption.
  - apply IH. assumption.
Qed.

(** The numeric parse of the code succeeds on every text of the shape of
    a score. *)
Lemma float_score :
  forall s,
    score_shape s ->
    exists q, float (strip (replace_char (ch ",") (ch ".") s)) = Some (FNum q).
Proof.
  intros s [a [sep [b [-> [Hna [Hnb [Ha [Hb Hsep]]]]]]]].
  assert (Hrep : replace_char (ch ",") (ch ".") (a ++ sep :: b) = a ++ ch "." :: b).
  { rewrite replace_char_app, replace_char_cons.
    rewrite !replace_decimal by assumption.
    destruct Hsep as [-> | ->]; reflexivity. }
  rewrite Hrep.
  assert (Hstrip : strip (a ++ ch "." :: b) = a ++ ch "." :: b).
  { destruct a as [|c a]; [contradiction|].
    destruct (exists_last Hnb) as [b0 [z Hz]]. subst b.
    replace ((c :: a) ++ ch "." :: b0 ++ [z])
      with (c :: (a ++ ch "." :: b0) ++ [z])
      by (simpl; rewrite <- app_assoc; reflexivity).
    apply strip_id.
    - apply is_decimal_not_space. inversion Ha; assumption.
    - apply is_decimal_not_space. unfold all_decimal in Hb.
      rewrite Forall_forall in Hb. apply Hb.
      apply in_or_app. right. left. reflexivity. }
  rewrite Hstrip.
  apply (float_point (a ++ ch "." :: b) (map to_ascii a) (map to_ascii b)).
  - rewrite map_app. reflexivity.
  - apply all_decimal_to_ascii. assumption.
  - apply all_decimal_to_ascii. assumption.
  - destruct a; [contradiction | discriminate].
  - destruct b; [contradiction | discriminate].
Qed.

End FloatFacts.

(* ================================================================== *)
(** * Taking matches apart *)
(* ================================================================== *)

Section ReachInversion.

Lemma reach_seq_inv :
  forall r1 r2 st1 st3,
    reach (RSeq r1 r2) st1 st3 ->
    exists st2, reach r1 st1 st2 /\ reach r2 st2 st3.
Proof.
  intros r1 r2 st1 st3 H. inversion H; subst. eauto.
Qed.

Lemma reach_group_inv :
  forall i r st1 st',
    reach (RGroup i r) st1 st' ->
    exists st2, reach r st1 st2 /\ st' = set_group i st1 st2.
Proof.
  intros i r st1 st' H. inversion H; subst. eauto.
Qed.

Lemma reach_alt_inv :
  forall r1 r2 st1 st2,
    reach (RAlt r1 r2) st1 st2 -> reach r1 st1 st2 \/ reach r2 st1 st2.
Proof.
  intros r1 r2 st1 st2 H. inversion H; subst; auto.
Qed.

Lemma reach_eps_inv :
  forall st1 st2, reach REps st1 st2 -> st2 = st1.
Proof.
  intros st1 st2 H. inversion H; subst. reflexivity.
Qed.

Lemma match_here_reach :
  forall r pos prev rest e,
    match_here r pos prev rest = Some e ->
    reach r (MState pos prev rest []) e.
Proof.
  intros r pos prev rest e H. unfold match_here in H.
  apply rmatch_sound in H. destruct H as [st' [Hr Hk]].
  injection Hk as ->. exact Hr.
Qed.

(** Every match [finditer] lists was found by the matcher somewhere. *)
Lemma finditer_from_In :
  forall r rest skip pos prev m,
    In m (finditer_from r skip pos prev rest) ->
    exists pos' prev' rest', match_here r pos' prev' rest' = Some (mo_end m).
Proof.
  intros r. induction rest as [|c rest IH]; intros skip pos prev m H.
  - destruct skip as [|skip]; simpl in H; [|contradiction].
    destruct (match_here r pos prev []) as [e|] eqn:E; [|contradiction].
    destruct H as [<- | []]. simpl. eauto.
  - destruct skip as [|skip]; simpl in H; [|eapply IH; exact H].
    destruct (match_here r pos prev (c :: rest)) as [e|] eqn:E.
    + destruct H as [<- | H]; [simpl; eauto | eapply IH; exact H].
    + eapply IH; exact H.
Qed.

Lemma finditer_reach :
  forall r s m,
    In m (finditer r s) ->
    exists pos prev rest, reach r (MState pos prev rest []) (mo_end m).
Proof.
  intros r s m H. apply finditer_from_In in H.
  destruct H as [pos [prev [rest H]]].
  exists pos, prev, rest. apply match_here_reach. exact H.
Qed.

End ReachInversion.

Section ScoreCapture.

Lemma digit_class :
  forall c, cset_mem (CIn [CDigit]) c = true -> is_decimal c = true.
Proof.
  intros c H. simpl in H. rewrite orb_false_r in H. exact H.
Qed.

Lemma digit_class_all :
  forall w, Forall (fun c => cset_mem (CIn [CDigit]) c = true) w -> all_decimal w.
Proof.
  intros w H. unfold all_decimal. eapply Forall_impl; [|exact H].
  intros c Hc. apply digit_class. exact Hc.
Qed.

Lemma separator_class :
  forall c,
    cset_mem (CIn [CChar (ch "."); CChar (ch ",")]) c = true ->
    c = ch "." \/ c = ch ",".
Proof.
  intros c H. simpl in H. rewrite orb_false_r in H.
  apply orb_true_iff in H. destruct H as [H|H]; apply N.eqb_eq in H; auto.
Qed.

(** What [score_re] matches has the shape of a score. *)
Lemma reach_score_shape :
  forall st1 st2,
    reach score_re st1 st2 ->
    score_shape (text_between st1 st2) /\ m_caps st2 = m_caps st1.
Proof.
  intros st1 st2 H. unfold score_re in H. cbn [RSeqs] in H.
  apply reach_seq_inv in H. destruct H as [sa [Ha H]].
  apply reach_seq_inv in H. destruct H as [sb [Hsep Hb]].
  apply reach_plus_chars in Ha. destruct Ha as [c1 [w1 [E1 [P1 [F1 C1]]]]].
  apply reach_char_inv in Hsep. destruct Hsep as [sep [E2 [M2 [P2 [C2 _]]]]].
  apply reach_plus_chars in Hb. destruct Hb as [c2 [w2 [E3 [P3 [F3 C3]]]]].
  split; [|congruence].
  rewrite (text_between_spec st1 st2 ((c1 :: w1) ++ sep :: (c2 :: w2))).
  - exists (c1 :: w1), sep, (c2 :: w2). repeat split.
    + discriminate.
    + discriminate.
    + apply digit_class_all. exact F1.
    + apply digit_class_all. exact F3.
    + apply separator_class. exact M2.
  - rewrite E1, E2, E3. rewrite <- app_assoc. reflexivity.
  - rewrite P3, P2, P1. rewrite length_app. simpl. lia.
Qed.

(** After group 2 has taken a score, an expression without groups keeps
    it. *)
Lemma score_group_kept :
  forall post st e,
    groupless post = true ->
    reach (RSeq (RGroup 2 score_re) post) st e ->
    exists g, group_of (m_caps e) 2 = Some g /\ score_shape g.
Proof.
  intros post st e G H.
  apply reach_seq_inv in H. destruct H as [s3 [Hg Hpost]].
  apply reach_group_inv in Hg. destruct Hg as [s2 [Hs ->]].
  apply reach_groupless_caps in Hpost; [|exact G].
  apply reach_score_shape in Hs. destruct Hs as [Hshape _].
  exists (text_between st s2). split; [|exact Hshape].
  rewrite Hpost. reflexivity.
Qed.

Lemma ue_pattern_score :
  forall st e,
    reach ue_pattern st e ->
    exists g, group_of (m_caps e) 2 = Some g /\ score_shape g.
Proof.
  intros st e H. unfold ue_pattern in H. cbn [RSeqs] in H.
  apply reach_seq_inv in H. destruct H as [s1 [_ H]].
  apply reach_seq_inv in H. destruct H as [s2 [_ H]].
  eapply score_group_kept; [|exact H]. reflexivity.
Qed.

Lemma course_pattern_score :
  forall st e,
    reach course_pattern st e ->
    exists g, group_of (m_caps e) 2 = Some g /\ score_shape g.
Proof.
  intros st e H. unfold course_pattern in H. cbn [RSeqs] in H.
  apply reach_seq_inv in H. destruct H as [s0 [_ H]].
  apply reach_seq_inv in H. destruct H as [s1 [_ H]].
  apply reach_seq_inv in H. destruct H as [s2 [_ H]].
  eapply score_group_kept; [|exact H]. reflexivity.
Qed.

(** The score text of every pair [findall] returns, for both patterns. *)
Lemma findall2_score :
  forall r s name g,
    (forall st e, reach r st e ->
                  exists g, group_of (m_caps e) 2 = Some g /\ score_shape g) ->
    In (name, g) (findall2 r s) -> score_shape g.
Proof.
  intros r s name g Hr H. unfold findall2 in H.
  apply in_map_iff in H. destruct H as [m [E Hin]].
  injection E as _ <-.
  apply finditer_reach in Hin. destruct Hin as [pos [prev [rest Hin]]].
  apply Hr in Hin. destruct Hin as [g' [Hg Hs]].
  unfold group. rewrite Hg. exact Hs.
Qed.

End ScoreCapture.

(* ================================================================== *)
(** * The claims *)
(* ================================================================== *)

Lemma parse_note_parsed :
  forall s, score_shape s -> parsed_as s (parse_note s).
Proof.
  intros s H. split; [exact H|].
  destruct (float_score s H) as [q Hq].
  exists q. unfold parse_note. rewrite Hq. split; reflexivity.
Qed.

Lemma extract_ue_courses_parsed :
  forall notes_block ue_name c,
    In c (_extract_ue_courses notes_block ue_name) ->
    exists s, parsed_as s (note c).
Proof.
  intros notes_block ue_name c H. unfold _extract_ue_courses in H.
  apply in_flat_map in H. destruct H as [[name s] [Hin Hc]].
  destruct (contains _ _ || contains _ _)%bool; [contradiction|].
  destruct Hc as [<- | []]. simpl.
  exists s. apply parse_note_parsed.
  eapply findall2_score; [|exact Hin]. exact course_pattern_score.
Qed.

(** C9. For every notes text, every score text the unit pattern or the
    course pattern captures has the shape digits, comma or point, digits;
    on it the parse of the code (comma to point, strip, [float]) succeeds,
    so the fallback to 0 is never taken: the score of every entry
    [_extract_courses] returns is the value of a successful parse. *)
Theorem C9_numeric_fallback_unreachable :
  forall notes_block : str,
    (forall name s, In (name, s) (findall2 ue_pattern notes_block) ->
       score_shape s
       /\ exists q, float (strip (replace_char (ch ",") (ch ".") s)) = Some (FNum q))
    /\ (forall section name s, In (name, s) (findall2 course_pattern section) ->
       score_shape s
       /\ exists q, float (strip (replace_char (ch ",") (ch ".") s)) = Some (FNum q))
    /\ (forall c, In c (_extract_courses notes_block) ->
       exists s, parsed_as s (note c)).
Proof.
  intros notes_block. split; [|split].
  - intros name s H.
    assert (Hs : score_shape s)
      by (eapply findall2_score; [|exact H]; exact ue_pattern_score).
    split; [exact Hs | apply float_score; exact Hs].
  - intros section name s H.
    assert (Hs : score_shape s)
      by (eapply findall2_score; [|exact H]; exact course_pattern_score).
    split; [exact Hs | apply float_score; exact Hs].
  - intros c H. unfold _extract_courses in H.
    apply in_flat_map in H. destruct H as [[name s] [Hin Hc]].
    destruct Hc as [<- | Hc].
    + simpl. exists s. apply parse_note_parsed.
      eapply findall2_score; [|exact Hin]. exact ue_pattern_score.
    + eapply extract_ue_courses_parsed. exact Hc.
Qed.

(** ** C1: the worked example of the grade tree builder *)

Lemma C1_counterexample : ~ C1_as_stated.
Proof. unfold C1_as_stated. vm_compute. discriminate. Qed.

(** C1 (amended). The unit code the builder returns is the whole unit
    label [UE401 Systèmes], not the bare code, and a course score needs a
    decimal separator: with the course line scored [12,0/20] the builder
    returns the unit entry (score 14.5) and the course entry
    [Algorithmique] (score 12.0) tagged with that unit; with the course
    line scored [12/20] it returns the unit entry alone. *)
Theorem C1_grade_tree_example :
  _extract_courses notes_C1_decimal =
    [ Course (py "UE401 Systèmes") (py "UE401 Systèmes") (FNum (29 # 2)) 1;
      Course (py "UE401 Systèmes") (py "Algorithmique") (FNum (12 # 1)) 0 ]
  /\ _extract_courses notes_C1 =
    [ Course (py "UE401 Systèmes") (py "UE401 Systèmes") (FNum (29 # 2)) 1 ].
Proof. split; vm_compute; reflexivity. Qed.

(** ** C4: the order of the entries *)

Lemma C4_counterexample : ~ C4_as_stated notes_same_label.
Proof.
  intros [H _]. unfold units_precede in H.
  specialize (H 2 1
    (Course (py "UE1 A") (py "UE1 A") (FNum (23 # 2)) 1)
    (Course (py "UE1 A") (py "Algo") (FNum (25 # 2)) 0)).
  assert (Hlt : 2 < 1); [|lia].
  apply H; vm_compute; reflexivity.
Qed.

Section GradeTreeOrder.

Variable notes_block : str.

Lemma extract_courses_chunks :
  _extract_courses notes_block =
  flat_map (chunk notes_block) (findall2 ue_pattern notes_block).
Proof. reflexivity. Qed.

Lemma ue_courses_tagged :
  forall ue_name c,
    In c (_extract_ue_courses notes_block ue_name) ->
    ue c = ue_name /\ est_ue c = 0%Z.
Proof.
  intros ue_name c H. unfold _extract_ue_courses in H.
  apply in_flat_map in H. destruct H as [[name s] [_ Hc]].
  destruct (contains _ _ || contains _ _)%bool; [contradiction|].
  destruct Hc as [<- | []]. split; reflexivity.
Qed.

Lemma chunk_shape :
  forall m, exists u tl,
    chunk notes_block m = u :: tl /\ est_ue u = 1%Z /\ cours u = ue u
    /\ ue u = strip (fst m)
    /\ forall c, In c tl -> ue c = ue u /\ est_ue c = 0%Z.
Proof.
  intros [name s]. simpl. eexists. eexists. split; [reflexivity|].
  simpl. repeat split; try reflexivity;
    apply ue_courses_tagged in H; tauto.
Qed.

Lemma chunks_named :
  forall ms, units_named_by_code (flat_map (chunk notes_block) ms).
Proof.
  intros ms c H Hu. apply in_flat_map in H. destruct H as [m [_ Hc]].
  destruct (chunk_shape m) as [u [tl [E [Hu1 [Hn [_ Htl]]]]]].
  rewrite E in Hc. destruct Hc as [<- | Hc]; [exact Hn|].
  apply Htl in Hc. destruct Hc as [_ H0]. rewrite H0 in Hu. discriminate.
Qed.

Lemma chunks_follow :
  forall ms, courses_follow_a_unit (flat_map (chunk notes_block) ms).
Proof.
  induction ms as [|m ms IH]; intros j c Hj Hc.
  - destruct j; discriminate.
  - cbn [flat_map] in *.
    destruct (chunk_shape m) as [u [tl [E [Hu1 [Hn [_ Htl]]]]]].
    rewrite E in *.
    destruct (Nat.lt_ge_cases j (length (u :: tl))) as [Hlt|Hge].
    + rewrite nth_error_app1 in Hj by exact Hlt.
      destruct j as [|j].
      * injection Hj as <-. rewrite Hc in Hu1. discriminate.
      * exists 0, u. simpl in Hj. apply nth_error_In in Hj.
        apply Htl in Hj. destruct Hj as [Hue _].
        split; [lia|]. split; [reflexivity|].
        split; [exact Hu1 | symmetry; exact Hue].
    + rewrite nth_error_app2 in Hj by exact Hge.
      destruct (IH _ _ Hj Hc) as [i [u' [Hi [Hn' [Hu' He]]]]].
      exists (length (u :: tl) + i), u'.
      split; [lia|]. split; [|split; assumption].
      rewrite nth_error_app2 by lia.
      replace (length (u :: tl) + i - length (u :: tl)) with i by lia.
      exact Hn'.
Qed.

Lemma unit_codes_chunks :
  forall ms, unit_codes (flat_map (chunk notes_block) ms) = map (fun m => strip (fst m)) ms.
Proof.
  induction ms as [|m ms IH]; [reflexivity|].
  simpl. unfold unit_codes in *. rewrite filter_app, map_app, IH.
  destruct (chunk_shape m) as [u [tl [E [Hu1 [Hn [Hs Htl]]]]]].
  rewrite E. simpl. rewrite Hu1. simpl. rewrite Hs. f_equal.
  assert (Hnil : filter (fun c => (est_ue c =? 1)%Z) tl = []).
  { clear E. induction tl as [|c tl IHtl]; [reflexivity|].
    simpl. destruct (Htl c (or_introl eq_refl)) as [_ H0]. rewrite H0. simpl.
    apply IHtl. intros c' Hc'. apply Htl. right. exact Hc'. }
  rewrite Hnil. reflexivity.
Qed.

Lemma unit_in_chunks :
  forall ms u,
    In u (flat_map (chunk notes_block) ms) -> est_ue u = 1%Z ->
    In (ue u) (map (fun m => strip (fst m)) ms).
Proof.
  intros ms u H Hu. rewrite <- unit_codes_chunks. unfold unit_codes.
  apply in_map. apply filter_In. split; [exact H|].
  rewrite Hu. reflexivity.
Qed.

Lemma chunks_precede :
  forall ms,
    NoDup (map (fun m => strip (fst m)) ms) ->
    units_precede (flat_map (chunk notes_block) ms).
Proof.
  induction ms as [|m ms IH]; intros Hnd i j u c Hi Hj Hu Hc He.
  - destruct i; discriminate.
  - cbn [flat_map] in *. simpl in Hnd.
    inversion Hnd as [|? ? Hnotin Hnd']; subst.
    destruct (chunk_shape m) as [u0 [tl [E [Hu1 [Hn [Hs Htl]]]]]].
    rewrite E in *.
    destruct (Nat.lt_ge_cases i (length (u0 :: tl))) as [Hilt|Hige].
    + rewrite nth_error_app1 in Hi by exact Hilt.
      destruct i as [|i].
      * destruct j as [|j]; [|lia].
        simpl in Hj. injection Hj as <-. rewrite Hc in Hu1. discriminate.
      * simpl in Hi. apply nth_error_In in Hi. apply Htl in Hi.
        destruct Hi as [_ H0]. rewrite H0 in Hu. discriminate.
    + rewrite nth_error_app2 in Hi by exact Hige.
      destruct (Nat.lt_ge_cases j (length (u0 :: tl))) as [Hjlt|Hjge].
      * exfalso. rewrite nth_error_app1 in Hj by exact Hjlt.
        assert (Hcu : ue c = ue u0).
        { destruct j as [|j].
          - simpl in Hj. injection Hj as <-. reflexivity.
          - simpl in Hj. apply nth_error_In in Hj. apply Htl in Hj. tauto. }
        apply Hnotin. rewrite <- Hs, <- Hcu, He.
        apply unit_in_chunks; [|exact Hu].
        eapply nth_error_In. exact Hi.
      * rewrite nth_error_app2 in Hj by exact Hjge.
        specialize (IH Hnd' _ _ _ _ Hi Hj Hu Hc He). lia.
Qed.

End GradeTreeOrder.

(** C4 (amended). For every notes text, every course entry of the list
    carries the code of a unit entry that comes earlier in the list, and
    every unit entry has its unit code as course name; when the unit
    entries carry pairwise different codes, each unit entry comes before
    all the course entries that carry its code. *)
Theorem C4_grade_tree_order :
  forall notes_block : str,
    courses_follow_a_unit (_extract_courses notes_block)
    /\ units_named_by_code (_extract_courses notes_block)
    /\ (NoDup (unit_codes (_extract_courses notes_block)) ->
        units_precede (_extract_courses notes_block)).
Proof.
  intros notes_block. rewrite (extract_courses_chunks notes_block).
  split; [apply chunks_follow|]. split; [apply chunks_named|].
  intros H. apply chunks_precede.
  rewrite <- (unit_codes_chunks notes_block). exact H.
Qed.

(** ** C10: a document without students *)

(** C10. For every document from which no student record is extracted,
    [import_apogee_data] returns 0 and leaves the store as it was: no
    connection is opened, so no row is inserted, deleted or changed. *)
Theorem C10_no_student_no_effect :
  forall (violates : database -> insert_stmt -> bool) (content : str) (s : store),
    d_etudiants (parse_apogee_file content) = [] ->
    import_apogee_data violates content s = (Ok 0, s).
Proof.
  intros violates content s H. unfold import_apogee_data.
  rewrite H. reflexivity.
Qed.

Lemma C10_witness :
  d_etudiants (parse_apogee_file (py "Relevé sans étudiant")) = []
  /\ import_apogee_data no_violation (py "Relevé sans étudiant") (Some empty_db)
     = (Ok 0, Some empty_db).
Proof.
  split; [vm_compute; reflexivity|].
  apply (C10_no_student_no_effect no_violation (py "Relevé sans étudiant")
           (Some empty_db)).
  vm_compute. reflexivity.
Defined.

(** ** C8: the store cannot be opened *)

Lemma C8_counterexample : ~ C8_as_stated_for_years.
Proof.
  intros [e H]. vm_compute in H. discriminate.
Qed.

(** C8 (amended). When the store cannot be opened, no operation commits
    anything.  The import (of a document with at least one student) and
    the delete let an exception reach the caller: the import the error of
    the connection, the delete an [UnboundLocalError] raised by its own
    handler.  The export, the listing queries and the per-student fetch
    swallow the failure: they return normally, with an empty result. *)
Theorem C8_unreachable_store :
  (forall violates content,
     d_etudiants (parse_apogee_file content) <> [] ->
     import_apogee_data violates content None = (Raise OperationalError, None))
  /\ (forall max_variables cr,
        delete_data max_variables cr None = (Raise UnboundLocalError, None))
  /\ export_to_dataframe None = Ok []
  /\ get_available_years None = Ok []
  /\ (forall year, get_available_parcours year None = Ok [])
  /\ (forall year parcours, get_available_semestres year parcours None = Ok [])
  /\ (forall year parcours semestre,
        get_students year parcours semestre None = Ok [])
  /\ (forall year parcours semestre,
        get_available_ues year parcours semestre None = Ok [])
  /\ (forall year parcours semestre ue_filter,
        get_available_courses year parcours semestre ue_filter None = Ok [])
  /\ (forall nom prenom year parcours semestre,
        get_student_data nom prenom year parcours semestre None = Ok []).
Proof.
  repeat split; try reflexivity.
  intros violates content H. unfold import_apogee_data.
  destruct (d_etudiants (parse_apogee_file content)); [contradiction|reflexivity].
Qed.

(** ** C6: delete by year, track and semester *)

Section DeleteFacts.

Lemma matches_all_spec :
  forall a p s e,
    matches_all a p s e = true
    <-> e_annee e = a /\ e_parcours e = p /\ e_semestre e = s.
Proof.
  intros a p s e. unfold matches_all.
  rewrite !andb_true_iff, !str_eqb_eq. tauto.
Qed.

Lemma owner_matches_spec :
  forall a p s db g,
    owner_matches a p s db g = true
    <-> exists e, In e (etudiants db) /\ e_id e = n_etudiant_id g
                  /\ matches_all a p s e = true.
Proof.
  intros a p s db g. unfold owner_matches. rewrite existsb_exists.
  split; intros [e [Hin H]]; exists e; split; try exact Hin.
  - apply andb_true_iff in H. destruct H as [H1 H2].
    apply Z.eqb_eq in H1. tauto.
  - destruct H as [H1 H2]. apply andb_true_iff. split; [|exact H2].
    apply Z.eqb_eq. exact H1.
Qed.

Lemma mem_ids :
  forall (f : etudiant_row -> bool) x l,
    mem_Z x (map e_id (filter f l))
    = existsb (fun e => (e_id e =? x)%Z && f e) l.
Proof.
  intros f x. unfold mem_Z. induction l as [|e l IH]; [reflexivity|].
  simpl. destruct (f e) eqn:Ef; simpl.
  - rewrite IH, andb_true_r, (Z.eqb_sym x (e_id e)). reflexivity.
  - rewrite IH, andb_false_r. reflexivity.
Qed.

Lemma filter_none_negb_all :
  forall (A : Type) (f : A -> bool) l,
    filter f l = [] -> filter (fun x => negb (f x)) l = l.
Proof.
  intros A f. induction l as [|x l IH]; intros H; [reflexivity|].
  simpl in *. destruct (f x); [discriminate|].
  simpl. rewrite IH by exact H. reflexivity.
Qed.

Lemma filter_all_true :
  forall (A : Type) (f : A -> bool) l,
    (forall x, In x l -> f x = true) -> filter f l = l.
Proof.
  intros A f. induction l as [|x l IH]; intros H; [reflexivity|].
  simpl. rewrite (H x (or_introl eq_refl)).
  rewrite IH; [reflexivity|]. intros y Hy. apply H. right. exact Hy.
Qed.

End DeleteFacts.

Lemma NoDup_map_injective :
  forall (A B : Type) (f : A -> B) l,
    (forall x y, f x = f y -> x = y) -> NoDup l -> NoDup (map f l).
Proof.
  intros A B f l Inj N. induction N as [|x l Hx N IH]; cbn [map]; constructor.
  - intros H. apply in_map_iff in H. destruct H as [y [E Hy]].
    apply Inj in E. subst y. exact (Hx Hy).
  - exact IH.
Qed.

(** What [delete_data] does under the year, the track and the semester,
    for every content of the store and every limit of the engine.  When
    the students that match the three filters are no more than the host
    parameters the engine accepts, it commits exactly this: their
    identity rows are gone, and so are the grade rows they own; the other
    rows stay, in their order; it returns the number of students deleted.
    When they are more, the engine refuses the DELETE of the grade rows:
    nothing is deleted and 0 is returned.  When no student matches, the
    store is left as it was and 0 is returned. *)
Lemma delete_exact :
  forall (max_variables : nat) (db : database) (annee parcours semestre : str),
    exists n db',
      delete_data max_variables
        (Criteria (Some annee) (Some parcours) (Some semestre)) (Some db)
      = (Ok n, Some db')
      /\ (length (filter (matches_all annee parcours semestre) (etudiants db))
            <= max_variables ->
          etudiants db'
          = filter (fun e => negb (matches_all annee parcours semestre e))
                   (etudiants db)
          /\ notes db'
             = filter (fun g => negb (owner_matches annee parcours semestre db g))
                      (notes db)
          /\ n = length (filter (matches_all annee parcours semestre) (etudiants db)))
      /\ (max_variables
            < length (filter (matches_all annee parcours semestre) (etudiants db)) ->
          db' = db /\ n = 0)
      /\ ((forall e, In e (etudiants db) ->
                     matches_all annee parcours semestre e = false) ->
          db' = db /\ n = 0).
Proof.
  intros limit db a p s. unfold delete_data.
  cbn [get_connection no_conditions k_annee].
  cbn [c_work close rollback c_file].
  change (where_clause (Criteria (Some a) (Some p) (Some s)))
    with (matches_all a p s).
  assert (Hnotes :
    filter (fun n => negb (mem_Z (n_etudiant_id n)
                             (map e_id (filter (matches_all a p s) (etudiants db)))))
           (notes db)
    = filter (fun g => negb (owner_matches a p s db g)) (notes db)).
  { apply filter_ext. intros g. rewrite mem_ids. reflexivity. }
  destruct (filter (matches_all a p s) (etudiants db)) as [|e l] eqn:Ef.
  - cbn [map]. exists 0, db. split; [reflexivity|].
    split; [|split; [cbn [length]; lia | auto]].
    intros _. split; [symmetry; apply filter_none_negb_all; exact Ef|].
    split; [|reflexivity].
    rewrite <- Hnotes. symmetry. apply filter_all_true. reflexivity.
  - assert (Hno : (forall x, In x (etudiants db) -> matches_all a p s x = false) ->
                  False).
    { intros Hno.
      assert (Hin : In e (filter (matches_all a p s) (etudiants db)))
        by (rewrite Ef; left; reflexivity).
      apply filter_In in Hin. destruct Hin as [Hin Hm].
      rewrite (Hno e Hin) in Hm. discriminate. }
    cbn [map length]. rewrite length_map.
    destruct (Nat.ltb_spec limit (S (length l))) as [Hlt | Hle].
    + exists 0, db. split; [reflexivity|].
      split; [intros H; lia|]. split; [auto|].
      intros H. destruct (Hno H).
    + eexists. eexists. split; [reflexivity|].
      cbn [commit set_work c_work c_file etudiants notes].
      split; [intros _; split; [reflexivity|]; split; [exact Hnotes | reflexivity]|].
      split; [intros H; lia|].
      intros H. destruct (Hno H).
Qed.

(** C6, at a store that holds one student more under one year, track and
    semester than the engine accepts host parameters in a statement (1000
    students for SQLite before 3.32, 32767 since): [delete_data] under
    that year, track and semester deletes nothing and returns 0, although
    every student of the store matches the three filters. *)
Theorem C6_refused_delete :
  forall (max_variables : nat),
    let db := crowded_store (S max_variables) in
    delete_data max_variables
      (Criteria (Some (py "2022-2023")) (Some (py "M1")) (Some (py "7"))) (Some db)
    = (Ok 0, Some db)
    /\ length (etudiants db) = S max_variables
    /\ (forall e, In e (etudiants db) ->
          matches_all (py "2022-2023") (py "M1") (py "7") e = true)
    /\ NoDup (map e_id (etudiants db))
    /\ NoDup (map e_prenom (etudiants db)).
Proof.
  intros limit db.
  assert (Hall : forall e, In e (etudiants db) ->
                   matches_all (py "2022-2023") (py "M1") (py "7") e = true).
  { intros e He. unfold db, crowded_store in He. cbn [etudiants] in He.
    apply in_map_iff in He. destruct He as [i [<- _]]. reflexivity. }
  assert (Hlen : length (etudiants db) = S limit).
  { unfold db, crowded_store. cbn [etudiants].
    rewrite length_map, length_seq. reflexivity. }
  split; [|split; [exact Hlen|split; [exact Hall|]]].
  - destruct (delete_exact limit db (py "2022-2023") (py "M1") (py "7"))
      as [n [db' [E [_ [H _]]]]].
    rewrite (filter_all_true _ _ _ Hall), Hlen in H.
    destruct (H (Nat.lt_succ_diag_r limit)) as [-> ->]. exact E.
  - unfold db, crowded_store. cbn [etudiants]. rewrite !map_map. cbn [e_id e_prenom].
    split.
    + apply NoDup_map_injective; [|apply seq_NoDup].
      intros x y H. apply Nat2Z.inj. exact H.
    + apply NoDup_map_injective; [|apply seq_NoDup].
      intros x y H.
      assert (L : length (repeat (ch "a") x) = length (repeat (ch "a") y))
        by (rewrite H; reflexivity).
      rewrite !repeat_length in L. exact L.
Qed.

(** ** C5: the academic year of the header *)

Lemma C5_counterexample : ~ C5_as_stated.
Proof.
  intros [H _].
  assert (Hocc : occurs (py "Année universitaire 2022/2023") two_headers).
  { exists (py "Année universitaire 2021/2022" ++ NL), []. vm_compute. reflexivity. }
  specialize (H two_headers Hocc). vm_compute in H. discriminate.
Qed.

Section HeaderFacts.

Lemma reach_lit :
  forall w st1 st2,
    reach (RLit w) st1 st2 ->
    m_rest st1 = w ++ m_rest st2
    /\ m_pos st2 = m_pos st1 + length w
    /\ m_caps st2 = m_caps st1.
Proof.
  induction w as [|c w IH]; intros st1 st2 H; cbn [RLit] in H.
  - apply reach_eps_inv in H. subst. simpl. repeat split. lia.
  - apply reach_seq_inv in H. destruct H as [sa [Hc Hw]].
    apply reach_char_inv in Hc. destruct Hc as [c' [E [M [P [C _]]]]].
    apply IH in Hw. destruct Hw as [E' [P' C']].
    simpl in M. rewrite orb_false_r in M. apply N.eqb_eq in M. subst c'.
    rewrite E, E'. simpl. repeat split; [lia | congruence].
Qed.

Lemma reach_times_digits :
  forall n st1 st2,
    reach (RTimes n r_d) st1 st2 ->
    exists w, m_rest st1 = w ++ m_rest st2
              /\ m_pos st2 = m_pos st1 + length w
              /\ length w = n /\ all_decimal w
              /\ m_caps st2 = m_caps st1.
Proof.
  induction n as [|n IH]; intros st1 st2 H; cbn [RTimes] in H.
  - apply reach_eps_inv in H. subst. exists []. simpl.
    repeat split; [lia | constructor].
  - apply reach_seq_inv in H. destruct H as [sa [Hc Hw]].
    apply reach_char_inv in Hc. destruct Hc as [c [E [M [P [C _]]]]].
    apply IH in Hw. destruct Hw as [w [E' [P' [L [D C']]]]].
    exists (c :: w). rewrite E, E'. simpl. repeat split.
    + lia.
    + lia.
    + constructor; [apply digit_class; exact M | exact D].
    + congruence.
Qed.

(** What [annee_re] matches, and what its group holds. *)
Lemma reach_annee :
  forall st e,
    reach annee_re st e ->
    exists y1 y2,
      m_rest st = py "Année universitaire " ++ y1 ++ ch "/" :: y2 ++ m_rest e
      /\ length y1 = 4 /\ length y2 = 4 /\ all_decimal y1 /\ all_decimal y2
      /\ group_of (m_caps e) 1 = Some (y1 ++ ch "/" :: y2).
Proof.
  intros st e H. unfold annee_re in H. cbn [RSeqs] in H.
  apply reach_seq_inv in H. destruct H as [s1 [Hl H]].
  apply reach_group_inv in H. destruct H as [s4 [H ->]].
  apply reach_seq_inv in H. destruct H as [s2 [Hy1 H]].
  apply reach_seq_inv in H. destruct H as [s3 [Hs Hy2]].
  apply reach_lit in Hl. destruct Hl as [El [Pl Cl]].
  apply reach_times_digits in Hy1. destruct Hy1 as [y1 [E1 [P1 [L1 [D1 C1]]]]].
  apply reach_lit in Hs. destruct Hs as [Es [Ps Cs]].
  apply reach_times_digits in Hy2. destruct Hy2 as [y2 [E2 [P2 [L2 [D2 C2]]]]].
  exists y1, y2. repeat split; try assumption.
  - rewrite El, E1, Es, E2. simpl. reflexivity.
  - simpl. f_equal. apply (text_between_spec s1 s4).
    + rewrite E1, Es, E2. rewrite <- app_assoc. reflexivity.
    + rewrite P2, Ps, P1, length_app. simpl. lia.
Qed.

Lemma space_class_all :
  forall w, Forall (fun c => cset_mem (CIn [CSpace]) c = true) w -> all_space w.
Proof.
  intros w H. unfold all_space. eapply Forall_impl; [|exact H].
  intros c Hc. simpl in Hc. rewrite orb_false_r in Hc. exact Hc.
Qed.

(** What [session_re] matches, and what its group holds. *)
Lemma reach_session :
  forall st e,
    reach session_re st e ->
    exists b1 n b2 y1 y2,
      m_rest st = py "Session" ++ b1 ++ ch "S" :: n ++ b2 ++ y1 ++ ch "/" :: y2
                  ++ m_rest e
      /\ b1 <> [] /\ all_space b1 /\ n <> [] /\ all_decimal n
      /\ b2 <> [] /\ all_space b2
      /\ length y1 = 4 /\ length y2 = 2 /\ all_decimal y1 /\ all_decimal y2
      /\ group_of (m_caps e) 1 = Some (y1 ++ ch "/" :: y2).
Proof.
  intros st e H. unfold session_re in H. cbn [RSeqs] in H.
  apply reach_seq_inv in H. destruct H as [s1 [Hl H]].
  apply reach_seq_inv in H. destruct H as [s2 [Hb1 H]].
  apply reach_seq_inv in H. destruct H as [s3 [HS H]].
  apply reach_seq_inv in H. destruct H as [s4 [Hn H]].
  apply reach_seq_inv in H. destruct H as [s5 [Hb2 H]].
  apply reach_group_inv in H. destruct H as [s8 [H ->]].
  apply reach_seq_inv in H. destruct H as [s6 [Hy1 H]].
  apply reach_seq_inv in H. destruct H as [s7 [Hs Hy2]].
  apply reach_lit in Hl. destruct Hl as [El [Pl Cl]].
  apply reach_plus_chars in Hb1. destruct Hb1 as [c1 [w1 [Eb1 [Pb1 [Fb1 Cb1]]]]].
  apply reach_lit in HS. destruct HS as [ES [PS CS]].
  apply reach_plus_chars in Hn. destruct Hn as [c2 [w2 [En [Pn [Fn Cn]]]]].
  apply reach_plus_chars in Hb2. destruct Hb2 as [c3 [w3 [Eb2 [Pb2 [Fb2 Cb2]]]]].
  apply reach_times_digits in Hy1. destruct Hy1 as [y1 [E1 [P1 [L1 [D1 C1]]]]].
  apply reach_lit in Hs. destruct Hs as [Es [Ps Cs]].
  apply reach_times_digits in Hy2. destruct Hy2 as [y2 [E2 [P2 [L2 [D2 C2]]]]].
  exists (c1 :: w1), (c2 :: w2), (c3 :: w3), y1, y2.
  split.
  { rewrite El, Eb1, ES, En, Eb2, E1, Es, E2. simpl.
    repeat (rewrite <- app_assoc; simpl). reflexivity. }
  repeat split; try assumption; try discriminate.
  - apply space_class_all. exact Fb1.
  - apply digit_class_all. exact Fn.
  - apply space_class_all. exact Fb2.
  - simpl. f_equal. apply (text_between_spec s5 s8).
    + rewrite E1, Es, E2. rewrite <- app_assoc. reflexivity.
    + rewrite P2, Ps, P1, length_app. simpl. lia.
Qed.

(** [re.search] passes over the positions where the pattern does not
    match. *)
Lemma search_from_skip :
  forall r pre rest pos prev,
    (forall i, i < length pre ->
               forall pos' prev', match_here r pos' prev' (skipn i (pre ++ rest)) = None) ->
    exists prev',
      search_from r pos prev (pre ++ rest)
      = search_from r (pos + length pre) prev' rest.
Proof.
  intros r. induction pre as [|c pre IH]; intros rest pos prev H.
  - exists prev. simpl. rewrite Nat.add_0_r. reflexivity.
  - assert (H0 : 0 < length (c :: pre)) by (simpl; lia).
    pose proof (H 0 H0 pos prev) as Hm. simpl in Hm.
    simpl. rewrite Hm.
    destruct (IH rest (S pos) (Some c)) as [prev' E].
    + intros i Hi pos' prev'. apply (H (S i)). simpl. lia.
    + exists prev'. rewrite E. f_equal. lia.
Qed.

Lemma search_from_none :
  forall r s pos prev,
    (forall i pos' prev', match_here r pos' prev' (skipn i s) = None) ->
    search_from r pos prev s = None.
Proof.
  intros r. induction s as [|c s IH]; intros pos prev H.
  - pose proof (H 0 pos prev) as Hm. simpl in Hm.
    simpl. rewrite Hm. reflexivity.
  - pose proof (H 0 pos prev) as Hm. simpl in Hm.
    simpl. rewrite Hm. apply IH.
    intros i pos' prev'. apply (H (S i)).
Qed.

Lemma no_year_header_no_match :
  forall s, ~ year_header_here s ->
            forall pos prev, match_here annee_re pos prev s = None.
Proof.
  intros s Hn pos prev.
  destruct (match_here annee_re pos prev s) as [e|] eqn:E; [|reflexivity].
  exfalso. apply Hn. apply match_here_reach in E. apply reach_annee in E.
  destruct E as [y1 [y2 [E [L1 [L2 [D1 [D2 _]]]]]]]. simpl in E.
  exists y1, y2, (m_rest e). repeat split; assumption.
Qed.

Lemma no_session_header_no_match :
  forall s, ~ session_header_here s ->
            forall pos prev, match_here session_re pos prev s = None.
Proof.
  intros s Hn pos prev.
  destruct (match_here session_re pos prev s) as [e|] eqn:E; [|reflexivity].
  exfalso. apply Hn. apply match_here_reach in E. apply reach_session in E.
  destruct E as [b1 [n [b2 [y1 [y2 [E H]]]]]]. simpl in E.
  exists b1, n, b2, y1, y2, (m_rest e). split; [exact E|]. tauto.
Qed.

End HeaderFacts.

Section HeaderExamples.

(** A run of characters of one kind, followed by a character of another
    kind, is read in one way only. *)
Lemma run_unique :
  forall (f : char -> bool) w u d x c t,
    Forall (fun a => f a = true) w -> Forall (fun a => f a = true) u ->
    f d = false -> f c = false ->
    w ++ d :: x = u ++ c :: t ->
    w = u /\ d = c /\ x = t.
Proof.
  intros f. induction w as [|a w IH]; intros u d x c t Hw Hu Hd Hc E.
  - destruct u as [|b u]; simpl in E.
    + injection E as -> ->. auto.
    + injection E as -> _. inversion Hu; subst. congruence.
  - destruct u as [|b u]; simpl in E.
    + injection E as -> _. inversion Hw; subst. congruence.
    + injection E as -> E. inversion Hw; subst. inversion Hu; subst.
      destruct (IH u d x c t) as [-> [-> ->]]; auto.
Qed.

Lemma search_from_unfold :
  forall r pos prev s,
    search_from r pos prev s =
    match match_here r pos prev s with
    | Some e => Some (MatchObj pos e)
    | None =>
      match s with
      | [] => None
      | c :: rest' => search_from r (S pos) (Some c) rest'
      end
    end.
Proof. intros r pos prev s. destruct s; reflexivity. Qed.

(** The year header of the example, wherever it is matched. *)
Lemma annee_2022_2023 :
  forall pos prev post,
    exists e,
      match_here annee_re pos prev (py "Année universitaire 2022/2023" ++ post)
      = Some e
      /\ group_of (m_caps e) 1 = Some (py "2022/2023").
Proof.
  intros pos prev post.
  destruct (match_here annee_re pos prev
              (py "Année universitaire 2022/2023" ++ post)) as [e|] eqn:E;
    [|vm_compute in E; discriminate].
  exists e. split; [reflexivity|].
  apply match_here_reach in E. apply reach_annee in E.
  destruct E as [y1 [y2 [E [L1 [L2 [_ [_ G]]]]]]].
  rewrite G. f_equal. cbn [m_rest] in E.
  change (py "Année universitaire 2022/2023" ++ post)
    with (py "Année universitaire " ++ py "2022/2023" ++ post) in E.
  apply app_inv_head in E.
  destruct y1 as [|a1 [|a2 [|a3 [|a4 [|]]]]]; try discriminate.
  destruct y2 as [|b1 [|b2 [|b3 [|b4 [|]]]]]; try discriminate.
  vm_compute in E. injection E as <- <- <- <- <- <- <- <- _.
  reflexivity.
Qed.

(** The session header of the example, wherever it is matched. *)
Lemma session_2022_23 :
  forall pos prev post,
    exists e,
      match_here session_re pos prev (py "Session S1 2022/23" ++ post) = Some e
      /\ group_of (m_caps e) 1 = Some (py "2022/23").
Proof.
  intros pos prev post.
  destruct (match_here session_re pos prev (py "Session S1 2022/23" ++ post))
    as [e|] eqn:E; [|vm_compute in E; discriminate].
  exists e. split; [reflexivity|].
  apply match_here_reach in E. apply reach_session in E.
  destruct E as [b1 [n [b2 [y1 [y2 [E [Nb1 [Sb1 [Nn [Dn [Nb2 [Sb2
                 [L1 [L2 [D1 [D2 G]]]]]]]]]]]]]]]].
  rewrite G. f_equal. cbn [m_rest] in E.
  change (py "Session S1 2022/23" ++ post)
    with (py "Session" ++ [ch " "] ++ ch "S" :: [ch "1"] ++ [ch " "]
          ++ py "2022/23" ++ post) in E.
  apply app_inv_head in E.
  assert (Hb2 : exists d b2', b2 = d :: b2' /\ is_decimal d = false).
  { destruct b2 as [|d b2']; [contradiction|]. exists d, b2'. split; [reflexivity|].
    inversion Sb2; subst.
    destruct (is_decimal d) eqn:Ed; [|reflexivity].
    apply is_decimal_not_space in Ed. congruence. }
  destruct Hb2 as [d [b2' [-> Hd]]].
  assert (Hy1 : exists a y1', y1 = a :: y1' /\ is_space a = false).
  { destruct y1 as [|a y1']; [discriminate|]. exists a, y1'. split; [reflexivity|].
    inversion D1; subst. apply is_decimal_not_space. assumption. }
  destruct Hy1 as [a [y1' [-> Ha]]].
  symmetry in E.
  apply (run_unique is_space) in E;
    [ | exact Sb1 | repeat constructor | reflexivity | reflexivity ].
  destruct E as [-> [_ E]].
  change ([ch "1"] ++ [ch " "] ++ py "2022/23" ++ post)
    with ([ch "1"] ++ ch " " :: py "2022/23" ++ post) in E.
  change (n ++ (d :: b2') ++ (a :: y1') ++ ch "/" :: y2 ++ m_rest e)
    with (n ++ d :: (b2' ++ (a :: y1') ++ ch "/" :: y2 ++ m_rest e)) in E.
  apply (run_unique is_decimal) in E;
    [ | exact Dn | repeat constructor | exact Hd | reflexivity ].
  destruct E as [-> [-> E]].
  change (py "2022/23" ++ post) with ([] ++ ch "2" :: py "022/23" ++ post) in E.
  change (b2' ++ (a :: y1') ++ ch "/" :: y2 ++ m_rest e)
    with (b2' ++ a :: (y1' ++ ch "/" :: y2 ++ m_rest e)) in E.
  inversion Sb2 as [|? ? _ Sb2']; subst.
  apply (run_unique is_space) in E;
    [ | exact Sb2' | constructor | exact Ha | reflexivity ].
  destruct E as [-> [-> E]].
  destruct y1' as [|a2 [|a3 [|a4 [|]]]]; try discriminate.
  destruct y2 as [|c1 [|c2 [|]]]; try discriminate.
  vm_compute in E. injection E; intros; subst.
  reflexivity.
Qed.

End HeaderExamples.

(** C5 (amended). For every document whose first full academic-year
    header is [Année universitaire 2022/2023], the academic year
    extracted is [2022-2023].  For every document that holds no full
    academic-year header and whose first session header is
    [Session S1 2022/23], it is [2022-2023] as well: the start year, a
    dash, and [20] before the two digits of the end year. *)
Theorem C5_academic_year :
  (forall pre post : str,
     (forall i, i < length pre ->
        ~ year_header_here
            (skipn i (pre ++ py "Année universitaire 2022/2023" ++ post))) ->
     academic_year (pre ++ py "Année universitaire 2022/2023" ++ post)
     = py "2022-2023")
  /\ (forall pre post : str,
     (forall i, ~ year_header_here (skipn i (pre ++ py "Session S1 2022/23" ++ post))) ->
     (forall i, i < length pre ->
        ~ session_header_here (skipn i (pre ++ py "Session S1 2022/23" ++ post))) ->
     academic_year (pre ++ py "Session S1 2022/23" ++ post) = py "2022-2023").
Proof.
  split.
  - intros pre post Hfirst. unfold academic_year, _extract_parcours_info.
    assert (Hs : exists m,
      search annee_re (pre ++ py "Année universitaire 2022/2023" ++ post) = Some m
      /\ group m 1 = py "2022/2023").
    { unfold search.
      destruct (search_from_skip annee_re pre
                  (py "Année universitaire 2022/2023" ++ post) 0 None) as [prev' E].
      - intros i Hi pos' prev'. apply no_year_header_no_match. apply Hfirst. exact Hi.
      - rewrite E, search_from_unfold.
        destruct (annee_2022_2023 (0 + length pre) prev' post) as [e [Em Eg]].
        rewrite Em. eexists. split; [reflexivity|].
        unfold group. cbn [mo_end]. rewrite Eg. reflexivity. }
    destruct Hs as [m [Hm Hg]]. rewrite Hm, Hg.
    destruct (search semestre_parcours_re _); reflexivity.
  - intros pre post Hnone Hfirst. unfold academic_year, _extract_parcours_info.
    assert (Hy : search annee_re (pre ++ py "Session S1 2022/23" ++ post) = None).
    { unfold search. apply search_from_none.
      intros i pos' prev'. apply no_year_header_no_match. apply Hnone. }
    assert (Hs : exists m,
      search session_re (pre ++ py "Session S1 2022/23" ++ post) = Some m
      /\ group m 1 = py "2022/23").
    { unfold search.
      destruct (search_from_skip session_re pre
                  (py "Session S1 2022/23" ++ post) 0 None) as [prev' E].
      - intros i Hi pos' prev'. apply no_session_header_no_match.
        apply Hfirst. exact Hi.
      - rewrite E, search_from_unfold.
        destruct (session_2022_23 (0 + length pre) prev' post) as [e [Em Eg]].
        rewrite Em. eexists. split; [reflexivity|].
        unfold group. cbn [mo_end]. rewrite Eg. reflexivity. }
    destruct Hs as [m [Hm Hg]]. rewrite Hy, Hm, Hg.
    destruct (search semestre_parcours_re _); reflexivity.
Qed.

(** ** The import loop as a fold over the store *)

Section ImportLoop.

Variable violates : database -> insert_stmt -> bool.
Variables parcours annee semestre : str.

(** The statements on a connection and on the content it sees: the same
    outcome; when a statement raises, the connection holds what the
    statements before it have written. *)
Lemma set_work_same : forall conn, set_work conn (c_work conn) = conn.
Proof. intros [f w sv]. reflexivity. Qed.

Lemma insert_notes_run :
  forall courses conn id,
    match insert_notes_on violates (c_work conn) id courses with
    | Ok db' => insert_notes violates conn id courses = (Ok tt, set_work conn db')
    | Raise e =>
      exists written,
        insert_notes violates conn id courses = (Raise e, set_work conn written)
    end.
Proof.
  induction courses as [|c courses IH]; intros conn id;
    cbn [insert_notes insert_notes_on].
  - rewrite set_work_same. reflexivity.
  - unfold exec_insert_note, insert_note_on.
    destruct (violates (c_work conn) (InsertNote id c)).
    + exists (c_work conn). rewrite set_work_same. reflexivity.
    + specialize (IH (set_work conn (insert_or_ignore_note (c_work conn) id c)) id).
      cbn [set_work c_work] in IH.
      destruct (insert_notes_on violates
                  (insert_or_ignore_note (c_work conn) id c) id courses)
        as [db'|e].
      * rewrite IH. reflexivity.
      * destruct IH as [written IH]. exists written. rewrite IH. reflexivity.
Qed.

Lemma student_statements_run :
  forall conn st,
    match student_statements_on violates parcours annee semestre (c_work conn) st with
    | Ok db' =>
      student_statements violates parcours annee semestre conn st
      = (Ok tt, set_work conn db')
    | Raise e =>
      exists written,
        student_statements violates parcours annee semestre conn st
        = (Raise e, set_work conn written)
    end.
Proof.
  intros conn st.
  unfold student_statements, student_statements_on,
    exec_insert_etudiant, insert_etudiant_on.
  destruct (violates (c_work conn) _).
  - exists (c_work conn). rewrite set_work_same. reflexivity.
  - cbn [set_work c_work].
    destruct (select_etudiant_id _ _ _ _ _ _) as [id|].
    + pose proof (insert_notes_run (s_cours st)
                    (set_work conn
                       (insert_or_ignore_etudiant (c_work conn) (s_nom st)
                          (s_prenom st) (s_numero_etudiant st)
                          parcours annee semestre)) id) as H.
      cbn [set_work c_work] in H.
      destruct (insert_notes_on violates _ id (s_cours st)) as [db'|e].
      * exact H.
      * destruct H as [written H]. exists written. exact H.
    + eexists. reflexivity.
Qed.

(** The loop over the students, with its savepoints, is the fold
    [import_loop]: RELEASE and the commit keep what a student's statements
    wrote, ROLLBACK TO puts back the content the savepoint saw. *)
Lemma import_students_loop :
  forall students conn n,
    c_work conn = c_file conn ->
    import_students violates parcours annee semestre conn students n
    = import_loop violates parcours annee semestre (c_file conn) students n.
Proof.
  induction students as [|st students IH]; intros conn n Hinv.
  - reflexivity.
  - cbn [import_students import_loop].
    pose proof (student_statements_run (exec_savepoint conn) st) as R.
    cbn [exec_savepoint c_work] in R. rewrite Hinv in R.
    destruct (student_statements_on violates parcours annee semestre (c_file conn) st)
      as [work|e].
    + rewrite R.
      assert (Hw : c_work (exec_release (set_work (exec_savepoint conn) work)) = work).
      { unfold exec_release, set_work, exec_savepoint. cbn [c_savepoints].
        destruct (c_savepoints conn); reflexivity. }
      rewrite IH by reflexivity.
      cbn [commit c_file]. rewrite Hw. reflexivity.
    + destruct R as [written R]. rewrite R.
      destruct e; try reflexivity.
      rewrite IH; [reflexivity|].
      unfold exec_rollback_to, set_work, exec_savepoint.
      cbn [c_savepoints c_work c_file]. exact Hinv.
Qed.

Lemma import_batch_loop :
  forall db students,
    import_batch violates parcours annee semestre db students
    = import_loop violates parcours annee semestre db students 0.
Proof.
  intros db students. unfold import_batch.
  rewrite import_students_loop; reflexivity.
Qed.

Lemma import_loop_app :
  forall l1 l2 db n n1 db1,
    import_loop violates parcours annee semestre db l1 n = (Ok n1, db1) ->
    import_loop violates parcours annee semestre db (l1 ++ l2) n
    = import_loop violates parcours annee semestre db1 l2 n1.
Proof.
  induction l1 as [|st l1 IH]; intros l2 db n n1 db1 H.
  - simpl in H. injection H as -> ->. reflexivity.
  - cbn [app import_loop] in *.
    destruct (student_statements_on violates parcours annee semestre db st) as [db'|e].
    + apply IH. exact H.
    + destruct e; try discriminate. apply IH. exact H.
Qed.

Lemma import_loop_count :
  forall l db n n' db',
    import_loop violates parcours annee semestre db l n = (Ok n', db') ->
    n <= n' /\ n' <= n + length l.
Proof.
  induction l as [|st l IH]; intros db n n' db' H.
  - simpl in H. injection H as -> ->. simpl. lia.
  - cbn [import_loop] in H.
    destruct (student_statements_on violates parcours annee semestre db st) as [d|e].
    + apply IH in H. simpl. lia.
    + destruct e; try discriminate. apply IH in H. simpl. lia.
Qed.

End ImportLoop.

(** ** C2: importing a document twice *)

(** C2, at the document of one student imported into the empty store and
    then once more: the second run adds no row and changes none, as the
    claim says, and yet it returns 1, not 0: the student is counted again
    although nothing of his was imported. *)
Theorem C2_second_run_counts :
  exists db1 db2,
    import_apogee_data no_violation one_student_document (Some empty_db)
    = (Ok 1, Some db1)
    /\ import_apogee_data no_violation one_student_document (Some db1)
       = (Ok 1, Some db2)
    /\ etudiants db2 = etudiants db1 /\ notes db2 = notes db1
    /\ length (etudiants db1) = 1 /\ length (notes db1) = 2.
Proof.
  eexists. eexists. split; [vm_compute; reflexivity|].
  split; [vm_compute; reflexivity|].
  repeat split; reflexivity.
Qed.

Section Idempotence.

Variables parcours annee semestre : str.

Lemma extends_refl : forall db, extends db db.
Proof. intros db. split; exists []; rewrite app_nil_r; reflexivity. Qed.

Lemma extends_trans :
  forall a b c, extends a b -> extends b c -> extends a c.
Proof.
  intros a b c [[l1 E1] [l2 E2]] [[l3 E3] [l4 E4]]. split.
  - exists (l1 ++ l3). rewrite E3, E1, app_assoc. reflexivity.
  - exists (l2 ++ l4). rewrite E4, E2, app_assoc. reflexivity.
Qed.

Lemma insert_etudiant_extends :
  forall db nom prenom num,
    extends db (insert_or_ignore_etudiant db nom prenom num parcours annee semestre).
Proof.
  intros db nom prenom num. unfold insert_or_ignore_etudiant.
  destruct (existsb _ _); split; simpl;
    try (exists []; rewrite app_nil_r; reflexivity).
  eexists. reflexivity.
Qed.

Lemma insert_note_extends :
  forall db id c, extends db (insert_or_ignore_note db id c).
Proof.
  intros db id c. unfold insert_or_ignore_note.
  destruct (existsb _ _); split; simpl;
    try (exists []; rewrite app_nil_r; reflexivity).
  eexists. reflexivity.
Qed.

Lemma find_app_some :
  forall (A : Type) (f : A -> bool) l l' x,
    List.find f l = Some x -> List.find f (l ++ l') = Some x.
Proof.
  intros A f. induction l as [|y l IH]; intros l' x H; [discriminate|].
  simpl in *. destruct (f y); [exact H | apply IH; exact H].
Qed.

Lemma find_app_none :
  forall (A : Type) (f : A -> bool) l l',
    List.find f l = None -> List.find f (l ++ l') = List.find f l'.
Proof.
  intros A f. induction l as [|y l IH]; intros l' H; [reflexivity|].
  simpl in *. destruct (f y); [discriminate | apply IH; exact H].
Qed.

Lemma find_existsb :
  forall (A : Type) (f : A -> bool) l,
    existsb f l = true -> exists x, List.find f l = Some x.
Proof.
  intros A f. induction l as [|y l IH]; intros H; [discriminate|].
  simpl in *. destruct (f y); [eauto | apply IH; exact H].
Qed.

Lemma find_not_existsb :
  forall (A : Type) (f : A -> bool) l,
    existsb f l = false -> List.find f l = None.
Proof.
  intros A f. induction l as [|y l IH]; intros H; [reflexivity|].
  simpl in *. destruct (f y); [discriminate | apply IH; exact H].
Qed.

Lemma same_etudiant_refl :
  forall id nom prenom num,
    same_etudiant nom prenom parcours annee semestre
      (EtudiantRow id nom prenom num parcours annee semestre) = true.
Proof.
  intros. unfold same_etudiant. simpl. rewrite !str_eqb_refl. reflexivity.
Qed.

(** After the INSERT OR IGNORE, the SELECT finds a row. *)
Lemma select_after_insert :
  forall db nom prenom num,
    exists id,
      select_etudiant_id
        (insert_or_ignore_etudiant db nom prenom num parcours annee semestre)
        nom prenom parcours annee semestre = Some id.
Proof.
  intros db nom prenom num. unfold select_etudiant_id, insert_or_ignore_etudiant.
  destruct (existsb (same_etudiant nom prenom parcours annee semestre) (etudiants db))
    eqn:E; cbn [etudiants].
  - apply find_existsb in E. destruct E as [x Hx]. rewrite Hx. simpl. eauto.
  - apply find_not_existsb in E. rewrite find_app_none by exact E.
    simpl. rewrite same_etudiant_refl. simpl. eauto.
Qed.

Lemma same_note_refl :
  forall nid id c,
    same_note id (cours c) (NoteRow nid id (ue c) (cours c) (note c) (est_ue c)) = true.
Proof.
  intros. unfold same_note. simpl. rewrite Z.eqb_refl, str_eqb_refl. reflexivity.
Qed.

Lemma existsb_app_l :
  forall (A : Type) (f : A -> bool) l l',
    existsb f l = true -> existsb f (l ++ l') = true.
Proof.
  intros A f l l' H. rewrite existsb_app, H. reflexivity.
Qed.

Lemma note_after_insert :
  forall db id c,
    existsb (same_note id (cours c)) (notes (insert_or_ignore_note db id c)) = true.
Proof.
  intros db id c. unfold insert_or_ignore_note.
  destruct (existsb (same_note id (cours c)) (notes db)) eqn:E; cbn [notes].
  - exact E.
  - rewrite existsb_app. simpl. rewrite same_note_refl.
    rewrite orb_true_r. reflexivity.
Qed.

Lemma note_kept :
  forall db db' id name,
    extends db db' ->
    existsb (same_note id name) (notes db) = true ->
    existsb (same_note id name) (notes db') = true.
Proof.
  intros db db' id name [_ [l E]] H. rewrite E. apply existsb_app_l. exact H.
Qed.

Lemma select_kept :
  forall db db' nom prenom id,
    extends db db' ->
    select_etudiant_id db nom prenom parcours annee semestre = Some id ->
    select_etudiant_id db' nom prenom parcours annee semestre = Some id.
Proof.
  intros db db' nom prenom id [[l E] _] H. unfold select_etudiant_id in *.
  rewrite E.
  destruct (List.find _ (etudiants db)) as [x|] eqn:F; [|discriminate].
  rewrite (find_app_some _ _ _ l _ F). exact H.
Qed.

(** The loop over the courses never raises, only adds grade rows, and
    leaves a row for each course. *)
Lemma insert_notes_ok :
  forall cs db id,
    exists db',
      insert_notes_on no_violation db id cs = Ok db'
      /\ extends db db'
      /\ etudiants db' = etudiants db
      /\ forall c, In c cs -> existsb (same_note id (cours c)) (notes db') = true.
Proof.
  induction cs as [|c cs IH]; intros db id.
  - exists db. simpl. split; [reflexivity|]. split; [apply extends_refl|].
    split; [reflexivity | contradiction].
  - cbn [insert_notes_on]. unfold insert_note_on. cbn [no_violation].
    destruct (IH (insert_or_ignore_note db id c) id) as [db' [E [X [T N]]]].
    exists db'. split; [exact E|]. split; [|split].
    + eapply extends_trans; [apply insert_note_extends | exact X].
    + rewrite T. unfold insert_or_ignore_note. destruct (existsb _ _); reflexivity.
    + intros c' [<- | Hc']; [|apply N; exact Hc'].
      eapply note_kept; [exact X | apply note_after_insert].
Qed.

(** With no integrity error, the statements of a student succeed and
    leave him stored. *)
Lemma student_statements_ok :
  forall db st,
    exists db',
      student_statements_on no_violation parcours annee semestre db st = Ok db'
      /\ extends db db' /\ stored parcours annee semestre st db'.
Proof.
  intros db st. unfold student_statements_on, insert_etudiant_on.
  cbn [no_violation].
  destruct (select_after_insert db (s_nom st) (s_prenom st) (s_numero_etudiant st))
    as [id Hid].
  rewrite Hid.
  destruct (insert_notes_ok (s_cours st)
              (insert_or_ignore_etudiant db (s_nom st) (s_prenom st)
                 (s_numero_etudiant st) parcours annee semestre) id)
    as [db' [E [X [T N]]]].
  exists db'. split; [exact E|]. split.
  - eapply extends_trans; [apply insert_etudiant_extends | exact X].
  - exists id. split; [|exact N].
    eapply select_kept; [exact X | exact Hid].
Qed.

(** On the schema [initialize_db] creates, the statements of a student
    raise nothing: no student is ever rolled back there, and the branch of
    the integrity error is not taken. *)
Lemma own_schema_never_raises :
  forall conn st,
    fst (student_statements no_violation parcours annee semestre conn st) = Ok tt.
Proof.
  intros conn st.
  pose proof (student_statements_run no_violation parcours annee semestre conn st)
    as R.
  destruct (student_statements_ok (c_work conn) st) as [db' [E _]].
  rewrite E in R. rewrite R. reflexivity.
Qed.

Lemma stored_kept :
  forall st db db',
    extends db db' ->
    stored parcours annee semestre st db -> stored parcours annee semestre st db'.
Proof.
  intros st db db' X [id [Hs Hn]]. exists id. split.
  - eapply select_kept; eassumption.
  - intros c Hc. eapply note_kept; [exact X | apply Hn; exact Hc].
Qed.

Lemma stored_same_tables :
  forall st db db',
    etudiants db' = etudiants db -> notes db' = notes db ->
    stored parcours annee semestre st db -> stored parcours annee semestre st db'.
Proof.
  intros st db db' Ee En [id [Hs Hn]]. exists id.
  unfold select_etudiant_id in *. rewrite Ee, En. split; assumption.
Qed.

(** Inserting the grades of a student who has them all changes no row. *)
Lemma insert_notes_noop :
  forall cs db id,
    (forall c, In c cs -> existsb (same_note id (cours c)) (notes db) = true) ->
    exists db',
      insert_notes_on no_violation db id cs = Ok db'
      /\ etudiants db' = etudiants db /\ notes db' = notes db.
Proof.
  induction cs as [|c cs IH]; intros db id H.
  - exists db. simpl. auto.
  - cbn [insert_notes_on]. unfold insert_note_on. cbn [no_violation].
    assert (Hc : existsb (same_note id (cours c)) (notes db) = true)
      by (apply H; left; reflexivity).
    destruct (IH (insert_or_ignore_note db id c) id) as [db' [E [Te Tn]]].
    + intros c' Hc'. unfold insert_or_ignore_note. rewrite Hc. cbn [notes].
      apply H. right. exact Hc'.
    + exists db'. split; [exact E|].
      rewrite Te, Tn. unfold insert_or_ignore_note. rewrite Hc. split; reflexivity.
Qed.

(** The statements of a stored student change no row. *)
Lemma student_statements_noop :
  forall db st,
    stored parcours annee semestre st db ->
    exists db',
      student_statements_on no_violation parcours annee semestre db st = Ok db'
      /\ etudiants db' = etudiants db /\ notes db' = notes db.
Proof.
  intros db st [id [Hs Hn]]. unfold student_statements_on, insert_etudiant_on.
  cbn [no_violation].
  assert (Hex : existsb (same_etudiant (s_nom st) (s_prenom st) parcours annee semestre)
                        (etudiants db) = true).
  { unfold select_etudiant_id in Hs.
    destruct (List.find _ (etudiants db)) as [x|] eqn:F; [|discriminate].
    apply find_some in F. apply existsb_exists. exists x. exact F. }
  assert (Hins : forall num,
    etudiants (insert_or_ignore_etudiant db (s_nom st) (s_prenom st) num
                 parcours annee semestre) = etudiants db
    /\ notes (insert_or_ignore_etudiant db (s_nom st) (s_prenom st) num
                parcours annee semestre) = notes db).
  { intros num. unfold insert_or_ignore_etudiant. rewrite Hex. split; reflexivity. }
  destruct (Hins (s_numero_etudiant st)) as [Te Tn].
  assert (Hs' : select_etudiant_id
                  (insert_or_ignore_etudiant db (s_nom st) (s_prenom st)
                     (s_numero_etudiant st) parcours annee semestre)
                  (s_nom st) (s_prenom st) parcours annee semestre = Some id).
  { unfold select_etudiant_id in *. rewrite Te. exact Hs. }
  rewrite Hs'.
  destruct (insert_notes_noop (s_cours st)
              (insert_or_ignore_etudiant db (s_nom st) (s_prenom st)
                 (s_numero_etudiant st) parcours annee semestre) id)
    as [db' [E [Te' Tn']]].
  - intros c Hc. rewrite Tn. apply Hn. exact Hc.
  - exists db'. split; [exact E|]. split; congruence.
Qed.

(** The first import: every student is counted and ends up stored. *)
Lemma import_loop_first :
  forall students db n,
    exists db',
      import_loop no_violation parcours annee semestre db students n
      = (Ok (n + length students), db')
      /\ extends db db'
      /\ forall st, In st students -> stored parcours annee semestre st db'.
Proof.
  induction students as [|st students IH]; intros db n.
  - exists db. simpl. rewrite Nat.add_0_r.
    split; [reflexivity|]. split; [apply extends_refl | contradiction].
  - cbn [import_loop].
    destruct (student_statements_ok db st) as [db1 [E [X Hst]]]. rewrite E.
    destruct (IH db1 (S n)) as [db' [E' [X' Hall]]].
    exists db'. split; [|split].
    + rewrite E'. simpl. f_equal. f_equal. lia.
    + eapply extends_trans; eassumption.
    + intros st' [<- | H]; [|apply Hall; exact H].
      eapply stored_kept; eassumption.
Qed.

(** An import of students that are all stored: every student is counted
    again, and no row changes. *)
Lemma import_loop_again :
  forall students db n,
    (forall st, In st students -> stored parcours annee semestre st db) ->
    exists db',
      import_loop no_violation parcours annee semestre db students n
      = (Ok (n + length students), db')
      /\ etudiants db' = etudiants db /\ notes db' = notes db.
Proof.
  induction students as [|st students IH]; intros db n H.
  - exists db. simpl. rewrite Nat.add_0_r. auto.
  - cbn [import_loop].
    destruct (student_statements_noop db st (H st (or_introl eq_refl)))
      as [db1 [E [Te Tn]]].
    rewrite E.
    destruct (IH db1 (S n)) as [db' [E' [Te' Tn']]].
    + intros st' Hst'. apply (stored_same_tables st' db db1 Te Tn).
      apply H. right. exact Hst'.
    + exists db'. split; [|split; congruence].
      rewrite E'. simpl. f_equal. f_equal. lia.
Qed.

End Idempotence.

(** ** C3: an integrity error on one student *)



(** Importing a document twice, in general: for every document and every
    content of the store, the two tables after the second run are exactly
    what they were after the first (no row is added, so the row counts
    are equal, and no stored value is overwritten; an identity row or a
    grade row whose key is stored already is skipped).  Both runs return
    the number of students of the document: the counter is incremented
    for every student whose statements did not raise, imported or not. *)
Lemma import_twice :
  forall (content : str) (db : database),
    (exists n db1 db2,
       import_apogee_data no_violation content (Some db) = (Ok n, Some db1)
       /\ import_apogee_data no_violation content (Some db1) = (Ok n, Some db2)
       /\ etudiants db2 = etudiants db1
       /\ notes db2 = notes db1
       /\ n = length (d_etudiants (parse_apogee_file content)))
    /\ (forall nom prenom num parcours annee semestre,
          existsb (same_etudiant nom prenom parcours annee semestre) (etudiants db)
            = true ->
          etudiants (insert_or_ignore_etudiant db nom prenom num
                       parcours annee semestre) = etudiants db)
    /\ (forall id c,
          existsb (same_note id (cours c)) (notes db) = true ->
          notes (insert_or_ignore_note db id c) = notes db).
Proof.
  intros content db. split; [|split].
  - unfold import_apogee_data.
    destruct (d_etudiants (parse_apogee_file content)) as [|st students] eqn:Es.
    + exists 0, db, db. repeat split.
    + cbn [get_connection].
      set (p := p_parcours (d_parcours (parse_apogee_file content))).
      set (a := p_annee (d_parcours (parse_apogee_file content))).
      set (s := p_semestre (d_parcours (parse_apogee_file content))).
      change (import_students no_violation p a s (Connection db db []) (st :: students) 0)
        with (import_batch no_violation p a s db (st :: students)).
      rewrite import_batch_loop.
      destruct (import_loop_first p a s (st :: students) db 0) as [db1 [E1 [_ S1]]].
      rewrite E1.
      exists (length (st :: students)), db1.
      destruct (import_loop_again p a s (st :: students) db1 0 S1)
        as [db2 [E2 [Te Tn]]].
      exists db2.
      change (import_students no_violation p a s (Connection db1 db1 []) (st :: students) 0)
        with (import_batch no_violation p a s db1 (st :: students)).
      rewrite import_batch_loop, E2. repeat split; assumption.
  - intros nom prenom num parcours annee semestre H.
    unfold insert_or_ignore_etudiant. rewrite H. reflexivity.
  - intros id c H. unfold insert_or_ignore_note. rewrite H. reflexivity.
Qed.

(** ** Instances *)


Lemma C4_witness :
  NoDup (unit_codes (_extract_courses notes_C1_decimal))
  /\ units_precede (_extract_courses notes_C1_decimal).
Proof.
  assert (H : NoDup (unit_codes (_extract_courses notes_C1_decimal))).
  { vm_compute. constructor; [intros [] | constructor]. }
  split; [exact H|].
  exact (proj2 (proj2 (C4_grade_tree_order notes_C1_decimal)) H).
Defined.

Lemma C5_witness :
  academic_year (page_before ++ py "Année universitaire 2022/2023" ++ page_after)
    = py "2022-2023"
  /\ academic_year (page_before ++ py "Session S1 2022/23" ++ page_after)
    = py "2022-2023".
Proof.
  split.
  - apply (proj1 C5_academic_year page_before page_after).
    intros i Hi [y1 [y2 [rest [E _]]]].
    do 5 (destruct i as [|i]; [vm_compute in E; discriminate|]).
    vm_compute in Hi. lia.
  - apply (proj2 C5_academic_year page_before page_after).
    + intros i [y1 [y2 [rest [E _]]]].
      do 40 (destruct i as [|i]; [vm_compute in E; discriminate|]).
      vm_compute in E. discriminate.
    + intros i Hi [b1 [n [b2 [y1 [y2 [rest [E _]]]]]]].
      do 5 (destruct i as [|i]; [vm_compute in E; discriminate|]).
      vm_compute in Hi. lia.
Defined.

(* ================================================================== *)
(** * The matcher finds a match whenever there is one *)
(* ================================================================== *)

Section MatcherComplete.

Lemma star_loop_complete :
  forall (g : bool) (r : regex) (k : mstate -> option mstate),
    (forall st st' k', reach r st st' -> k' st' <> None -> rmatch r st k' <> None) ->
    forall st st',
      reach (RStar g r) st st' ->
      forall n, length (m_rest st) < n -> k st' <> None ->
                star_loop (rmatch r) g k n st <> None.
Proof.
  intros g r k IHr st st' H.
  remember (RStar g r) as rs eqn:Ers.
  induction H as
    [ st | cs pos prev c rest caps Hc | r1 r2 s1 s2 s3 _ _ _ _
    | r1 r2 s1 s2 _ _ | r1 r2 s1 s2 _ _ | g' r' st
    | g' r' s1 s2 s3 H1 _ Hlt H2 IH2 | i r' s1 s2 _ _ | st Hb | st He
    | r' s1 s2 _ _ ]; try discriminate; injection Ers as -> ->;
    intros n Hn Hk.
  - destruct n as [|n]; [lia|]. simpl.
    destruct g.
    + destruct (rmatch r st _); [discriminate | exact Hk].
    + destruct (k st); [discriminate | contradiction].
  - destruct n as [|n]; [lia|]. simpl.
    assert (Hmore :
      rmatch r s1 (fun st1 => if m_pos s1 <? m_pos st1
                              then star_loop (rmatch r) g k n st1 else None) <> None).
    { apply (IHr s1 s2); [exact H1|].
      apply Nat.ltb_lt in Hlt. rewrite Hlt.
      apply IH2; [reflexivity | | exact Hk].
      apply reach_consumes in H1. destruct H1 as [w [E P]].
      rewrite E in Hn. rewrite length_app in Hn.
      apply Nat.ltb_lt in Hlt. lia. }
    destruct g.
    + destruct (rmatch r s1 _); [discriminate | contradiction].
    + destruct (k s1); [discriminate | exact Hmore].
Qed.

Lemma groupless_looks :
  forall r, groupless r = true -> looks_groupless r = true.
Proof.
  induction r; simpl; intros H; try reflexivity; try discriminate; auto.
  - apply andb_true_iff in H. destruct H as [H1 H2].
    rewrite IHr1, IHr2 by assumption. reflexivity.
  - apply andb_true_iff in H. destruct H as [H1 H2].
    rewrite IHr1, IHr2 by assumption. reflexivity.
Qed.

Lemma rmatch_complete :
  forall r, looks_groupless r = true ->
    forall st st' k, reach r st st' -> k st' <> None -> rmatch r st k <> None.
Proof.
  induction r as [ | cs | r1 IH1 r2 IH2 | r1 IH1 r2 IH2 | g r IH | i r IH
                   | | | r IH ]; intros LG st st' k H Hk; cbn [rmatch];
    cbn [looks_groupless] in LG.
  - apply reach_eps_inv in H. subst. exact Hk.
  - inversion H; subst. simpl. rewrite H1. exact Hk.
  - apply andb_true_iff in LG. destruct LG as [L1 L2].
    apply reach_seq_inv in H. destruct H as [st2 [H1 H2]].
    apply (IH1 L1 st st2); [exact H1|]. apply (IH2 L2 st2 st'); assumption.
  - apply andb_true_iff in LG. destruct LG as [L1 L2].
    apply reach_alt_inv in H. destruct H as [H|H].
    + pose proof (IH1 L1 st st' k H Hk) as Hn.
      destruct (rmatch r1 st k); [discriminate | contradiction].
    + destruct (rmatch r1 st k); [discriminate|].
      apply (IH2 L2 st st'); assumption.
  - apply (star_loop_complete g r k (IH LG) st st' H); [lia | exact Hk].
  - apply reach_group_inv in H. destruct H as [st2 [H ->]].
    apply (IH LG st st2); assumption.
  - inversion H; subst. rewrite H0. exact Hk.
  - inversion H; subst. rewrite H0. exact Hk.
  - inversion H as [| | | | | | | | | | r' s1 s2 Hr]; subst.
    destruct (rmatch r st (fun st1 => Some st1)) as [s1|] eqn:E.
    + apply rmatch_sound in E. destruct E as [s1' [Hr' E']]. injection E' as ->.
      rewrite (reach_groupless_caps r st s1 Hr' LG).
      rewrite <- (reach_groupless_caps r st s2 Hr LG). exact Hk.
    + exfalso. revert E. apply (IH (groupless_looks r LG) st s2); [exact Hr | discriminate].
Qed.

End MatcherComplete.

(* ================================================================== *)
(** * Matching inside one subject *)
(* ================================================================== *)

Section Subject.

Lemma skipn_cons_inv :
  forall (s : str) pos c rest,
    skipn pos s = c :: rest ->
    skipn (S pos) s = rest /\ nth_error s pos = Some c /\ pos < length s.
Proof.
  induction s as [|a s IH]; intros pos c rest H.
  - destruct pos; discriminate.
  - destruct pos as [|pos].
    + simpl in H. injection H as -> ->. simpl. repeat split. lia.
    + simpl in H. apply IH in H. destruct H as [H1 [H2 H3]].
      simpl. repeat split; try assumption. lia.
Qed.

Lemma on_subject_state_at :
  forall s pos, pos <= length s -> on_subject s (state_at s pos).
Proof. intros s pos H. repeat split. exact H. Qed.

Lemma on_subject_eq :
  forall s st, on_subject s st -> st = with_caps (state_at s (m_pos st)) (m_caps st).
Proof.
  intros s [pos prev rest caps] [H1 [H2 H3]]. simpl in *. subst.
  reflexivity.
Qed.

Lemma reach_on_subject :
  forall s r st st', reach r st st' -> on_subject s st -> on_subject s st'.
Proof.
  intros s. induction 1 as
    [ st | cs pos prev c rest caps Hc | r1 r2 s1 s2 s3 _ IH1 _ IH2
    | r1 r2 s1 s2 _ IH | r1 r2 s1 s2 _ IH | g r st
    | g r s1 s2 s3 _ IH1 Hlt _ IH2 | i r s1 s2 _ IH | st Hb | st He
    | r s1 s2 _ IH ]; intros Hs; auto.
  - destruct Hs as [H1 [H2 H3]]. simpl in *. symmetry in H2.
    apply skipn_cons_inv in H2. destruct H2 as [E1 [E2 E3]].
    repeat split; simpl; [lia | symmetry; exact E1 | symmetry; exact E2].
Qed.

(** Without groups, a match does not look at the groups captured. *)
Lemma reach_with_caps :
  forall r st st',
    reach r st st' -> groupless r = true ->
    forall c, reach r (with_caps st c) (with_caps st' c).
Proof.
  induction 1 as
    [ st | cs pos prev c rest caps Hc | r1 r2 s1 s2 s3 _ IH1 _ IH2
    | r1 r2 s1 s2 _ IH | r1 r2 s1 s2 _ IH | g r st
    | g r s1 s2 s3 _ IH1 Hlt _ IH2 | i r s1 s2 _ IH | st Hb | st He
    | r s1 s2 _ IH ]; simpl; intros G c0; try discriminate.
  - constructor.
  - unfold with_caps. simpl. constructor. exact Hc.
  - apply andb_true_iff in G. destruct G as [G1 G2].
    econstructor; [apply IH1 | apply IH2]; assumption.
  - apply andb_true_iff in G. destruct G as [G1 G2].
    apply reach_alt_l. apply IH. exact G1.
  - apply andb_true_iff in G. destruct G as [G1 G2].
    apply reach_alt_r. apply IH. exact G2.
  - constructor.
  - eapply reach_star_more; [apply IH1; exact G | exact Hlt | apply IH2; exact G].
  - constructor. exact Hb.
  - constructor. exact He.
  - apply (reach_look r (with_caps s1 c0) (with_caps s2 c0)). apply IH. exact G.
Qed.

Lemma advance_pos :
  forall j st, j <= length (m_rest st) ->
    m_pos (advance st j) = m_pos st + j
    /\ m_rest (advance st j) = skipn j (m_rest st)
    /\ m_caps (advance st j) = m_caps st.
Proof.
  induction j as [|j IH]; intros st H.
  - simpl. repeat split. lia.
  - simpl. destruct (m_rest st) as [|c rest] eqn:E; [simpl in H; lia|].
    simpl in H.
    destruct (IH (MState (S (m_pos st)) (Some c) rest (m_caps st))) as [P [R C]];
      [simpl; lia|].
    simpl in *. repeat split; [lia | exact R | exact C].
Qed.

Lemma advance_on_subject :
  forall s j st, on_subject s st -> j <= length (m_rest st) ->
                 on_subject s (advance st j).
Proof.
  intros s. induction j as [|j IH]; intros st Hs Hj; [exact Hs|].
  simpl. destruct (m_rest st) as [|c rest] eqn:E; [exact Hs|].
  apply IH; [|simpl in Hj; simpl; lia].
  destruct Hs as [H1 [H2 H3]]. rewrite E in H2. symmetry in H2.
  apply skipn_cons_inv in H2. destruct H2 as [E1 [E2 E3]].
  repeat split; simpl; [lia | symmetry; exact E1 | symmetry; exact E2].
Qed.

(** A lazy repetition of [.] hands its continuation the positions one by
    one and stops at the first it accepts. *)
Lemma lazy_loop_first :
  forall k n st res,
    star_loop (rmatch (RChar CAny)) false k n st = Some res ->
    exists j, j <= length (m_rest st)
              /\ k (advance st j) = Some res
              /\ forall i, i < j -> k (advance st i) = None.
Proof.
  intros k. induction n as [|n IH]; intros st res H.
  - exists 0. simpl in *. repeat split; [lia | exact H | intros i Hi; lia].
  - simpl in H. destruct (k st) as [r0|] eqn:Ek.
    + injection H as ->. exists 0. simpl.
      repeat split; [lia | exact Ek | intros i Hi; lia].
    + destruct (m_rest st) as [|c rest] eqn:Er; [discriminate|].
      simpl in H.
      replace (m_pos st <? S (m_pos st)) with true in H
        by (symmetry; apply Nat.ltb_lt; lia).
      apply IH in H. destruct H as [j [Hj [Hk Hn]]].
      exists (S j). simpl. rewrite Er. simpl in Hj.
      repeat split; [lia | exact Hk |].
      intros i Hi. destruct i as [|i]; [exact Ek|].
      simpl. rewrite Er. apply Hn. lia.
Qed.

End Subject.

Section BlockMatch.

Lemma rmatch_seq :
  forall r1 r2 st k,
    rmatch (RSeq r1 r2) st k = rmatch r1 st (fun st1 => rmatch r2 st1 k).
Proof. reflexivity. Qed.

Lemma rmatch_group :
  forall i r st k,
    rmatch (RGroup i r) st k = rmatch r st (fun st1 => k (set_group i st st1)).
Proof. reflexivity. Qed.

Lemma rmatch_star :
  forall g r st k,
    rmatch (RStar g r) st k
    = star_loop (rmatch r) g k (S (length (m_rest st))) st.
Proof. reflexivity. Qed.

Lemma rmatch_look :
  forall r st k,
    rmatch (RLook r) st k =
    match rmatch r st (fun st1 => Some st1) with
    | Some st1 => k (MState (m_pos st) (m_prev st) (m_rest st) (m_caps st1))
    | None => None
    end.
Proof. reflexivity. Qed.

Lemma notes_end_body_groupless : groupless notes_end_body = true.
Proof. vm_compute. reflexivity. Qed.

(** The look-ahead succeeds from a state exactly when the notes may end
    at its position. *)
Lemma look_ahead_iff :
  forall s st,
    on_subject s st ->
    (rmatch notes_end_body st (fun st1 => Some st1) <> None
     <-> notes_may_end s (m_pos st)).
Proof.
  intros s st Hs. rewrite (on_subject_eq s st Hs) at 1. split.
  - intros H.
    destruct (rmatch notes_end_body _ _) as [s1|] eqn:E; [|contradiction].
    apply rmatch_sound in E. destruct E as [s1' [Hr _]].
    pose proof (reach_with_caps _ _ _ Hr notes_end_body_groupless []) as Hr'.
    exists (with_caps s1' []). exact Hr'.
  - intros [st' Hr].
    apply (rmatch_complete notes_end_body
             (groupless_looks _ notes_end_body_groupless)
             _ (with_caps st' (m_caps st))); [|discriminate].
    apply (reach_with_caps _ _ _ Hr notes_end_body_groupless (m_caps st)).
Qed.

(** How the block pattern matches: the head, then [UE] and the shortest
    run of characters after which the notes may end. *)
Lemma student_match_structure :
  forall s q e,
    q <= length s ->
    match_at student_pattern s q = Some e ->
    exists u,
      reach student_head (state_at s q) u
      /\ (exists z, m_rest u = ch "U" :: ch "E" :: z)
      /\ m_pos u + 3 <= m_pos e /\ m_pos e <= length s
      /\ notes_may_end s (m_pos e)
      /\ forall x, m_pos u + 3 <= x -> x < m_pos e -> ~ notes_may_end s x.
Proof.
  intros s q e Hq H. unfold match_at, match_here, student_pattern in H.
  cbn [RSeqs] in H. fold (state_at s q) in H.
  rewrite rmatch_seq in H. apply rmatch_sound in H.
  destruct H as [u [Hu H]]. exists u. split; [exact Hu|].
  pose proof (reach_on_subject s _ _ _ Hu (on_subject_state_at s q Hq)) as Su.
  rewrite rmatch_seq, rmatch_group in H.
  unfold RPlus in H. rewrite rmatch_seq in H.
  apply rmatch_sound in H. destruct H as [a [Ha H]].
  rewrite rmatch_seq in H.
  apply rmatch_sound in H. destruct H as [b [Hb H]].
  rewrite rmatch_star in H. apply lazy_loop_first in H.
  destruct H as [j [Hj [Hk Hn]]].
  pose proof (reach_on_subject s _ _ _ Ha Su) as Sa.
  pose proof (reach_on_subject s _ _ _ Hb Sa) as Sb.
  apply reach_lit in Ha. destruct Ha as [Ea [Pa Ca]].
  apply reach_char_inv in Hb. destruct Hb as [c [Eb [_ [Pb [Cb _]]]]].
  split. { rewrite Ea. simpl. eexists. reflexivity. }
  assert (Hpos : m_pos b = m_pos u + 3) by (rewrite Pb, Pa; simpl; lia).
  (* what the continuation does at the position [i] characters further *)
  assert (Hcont : forall i, i <= length (m_rest b) ->
    on_subject s (set_group 4 u (advance b i))
    /\ m_pos (set_group 4 u (advance b i)) = m_pos u + 3 + i).
  { intros i Hi. pose proof (advance_on_subject s i b Sb Hi) as Si.
    destruct (advance_pos i b Hi) as [Pi _].
    split; [|simpl; lia].
    destruct Si as [S1 [S2 S3]]. repeat split; assumption. }
  destruct (Hcont j Hj) as [Sj Pj].
  cbv beta in Hk. unfold notes_end in Hk. rewrite rmatch_look in Hk.
  destruct (rmatch notes_end_body (set_group 4 u (advance b j))
              (fun st1 => Some st1)) as [s1|] eqn:El; [|discriminate].
  injection Hk as <-. cbn [m_pos].
  assert (Hend : notes_may_end s (m_pos (set_group 4 u (advance b j)))).
  { apply (look_ahead_iff s _ Sj). rewrite El. discriminate. }
  change (m_pos (set_group 4 u (advance b j))) with (m_pos (advance b j)) in Pj, Hend.
  split; [lia|]. split; [destruct Sj as [S1 _]; exact S1|].
  split; [exact Hend|].
  intros x Hx1 Hx2 Hx.
  assert (Hi : x - (m_pos u + 3) < j) by lia.
  specialize (Hn _ Hi). cbv beta in Hn. unfold notes_end in Hn.
  rewrite rmatch_look in Hn.
  destruct (Hcont (x - (m_pos u + 3))) as [Sx Px]; [lia|].
  replace (m_pos u + 3 + (x - (m_pos u + 3))) with x in Px by lia.
  rewrite <- Px in Hx. apply (look_ahead_iff s _ Sx) in Hx.
  destruct (rmatch notes_end_body
              (set_group 4 u (advance b (x - (m_pos u + 3))))
              (fun st1 => Some st1));
    [discriminate Hn | apply Hx; reflexivity].
Qed.

End BlockMatch.

(* ================================================================== *)
(** * Counting the matches of [finditer] *)
(* ================================================================== *)

Section Counting.

Lemma count_from_none :
  forall x ps, (forall p, In p ps -> p < x) -> count_from x ps = 0.
Proof.
  intros x. induction ps as [|p ps IH]; intros H; [reflexivity|].
  unfold count_from in *. simpl.
  replace (x <=? p) with false
    by (symmetry; apply Nat.leb_gt; apply H; left; reflexivity).
  apply IH. intros p' Hp'. apply H. right. exact Hp'.
Qed.

Lemma count_from_step :
  forall x ps, ~ In x ps -> count_from x ps = count_from (S x) ps.
Proof.
  intros x. induction ps as [|p ps IH]; intros H; [reflexivity|].
  unfold count_from in *. cbn [filter].
  assert (Hp : p <> x) by (intros ->; apply H; left; reflexivity).
  assert (Hps : ~ In x ps) by (intros Hi; apply H; right; exact Hi).
  destruct (Nat.leb_spec x p) as [L1|L1];
    destruct (Nat.leb_spec (S x) p) as [L2|L2];
    try lia; cbn [length]; rewrite (IH Hps); reflexivity.
Qed.

Variable r : regex.
Variable s : str.
Variable ps : list nat.

Hypothesis anchors_inside : forall p, In p ps -> p <= length s.
Hypothesis anchors_match :
  forall q, q <= length s -> match_at r s q = None -> ~ In q ps.
Hypothesis one_anchor_per_match :
  forall q e, q <= length s -> match_at r s q = Some e ->
    count_from q ps <= 1 + count_from (Nat.max (m_pos e) (S q)) ps.

Lemma finditer_from_count :
  forall rest pos skip,
    skipn pos s = rest -> pos <= length s ->
    count_from (pos + skip) ps
    <= length (finditer_from r skip pos (prev_at s pos) rest).
Proof.
  induction rest as [|c rest IH]; intros pos skip E Hpos.
  - assert (Hlen : pos = length s).
    { assert (H : length (skipn pos s) = 0) by (rewrite E; reflexivity).
      rewrite length_skipn in H. lia. }
    destruct skip as [|skip]; cbn [finditer_from].
    + rewrite Nat.add_0_r.
      fold (match_at r s pos) in *.
      change (match_here r pos (prev_at s pos) []) with
        (match_here r pos (prev_at s pos) []).
      assert (Em : match_here r pos (prev_at s pos) [] = match_at r s pos)
        by (unfold match_at; rewrite E; reflexivity).
      rewrite Em.
      destruct (match_at r s pos) as [e|] eqn:M.
      * pose proof (one_anchor_per_match pos e Hpos M) as H2.
        rewrite (count_from_none (Nat.max (m_pos e) (S pos))) in H2.
        -- simpl. lia.
        -- intros p Hp. apply anchors_inside in Hp. lia.
      * rewrite count_from_step by (apply anchors_match; assumption).
        rewrite count_from_none; [simpl; lia|].
        intros p Hp. apply anchors_inside in Hp. lia.
    + rewrite count_from_none; [simpl; lia|].
      intros p Hp. apply anchors_inside in Hp. lia.
  - apply skipn_cons_inv in E as E'. destruct E' as [E1 [E2 E3]].
    assert (Hprev : prev_at s (S pos) = Some c) by exact E2.
    destruct skip as [|skip]; cbn [finditer_from].
    + rewrite Nat.add_0_r.
      assert (Em : match_here r pos (prev_at s pos) (c :: rest) = match_at r s pos)
        by (unfold match_at; rewrite E; reflexivity).
      rewrite Em.
      destruct (match_at r s pos) as [e|] eqn:M.
      * pose proof (one_anchor_per_match pos e Hpos M) as H2.
        cbn [length]. rewrite <- Hprev.
        specialize (IH (S pos) (pred (m_pos e - pos)) E1 E3).
        replace (S pos + pred (m_pos e - pos)) with (Nat.max (m_pos e) (S pos)) in IH
          by lia.
        lia.
      * rewrite count_from_step by (apply anchors_match; [lia | assumption]).
        rewrite <- Hprev.
        specialize (IH (S pos) 0 E1 E3). rewrite Nat.add_0_r in IH. exact IH.
    + rewrite <- Hprev. specialize (IH (S pos) skip E1 E3).
      replace (pos + S skip) with (S pos + skip) by lia. exact IH.
Qed.

Lemma finditer_count : length ps <= length (finditer r s).
Proof.
  pose proof (finditer_from_count s 0 0 eq_refl (Nat.le_0_l _)) as H.
  unfold finditer. simpl in H.
  assert (E : count_from 0 ps = length ps).
  { unfold count_from. rewrite filter_all_true; [reflexivity|]. reflexivity. }
  rewrite E in H. exact H.
Qed.

End Counting.

(* ================================================================== *)
(** * The words an expression spells *)
(* ================================================================== *)

Section ListSplits.

Variable A : Type.

(** Where an element of a concatenation lies. *)
Lemma split_cases :
  forall (w l : list A) x r rest,
    l ++ x :: r = w ++ rest ->
    (exists w1 w2, w = w1 ++ x :: w2 /\ l = w1 /\ r = w2 ++ rest)
    \/ (exists l', l = w ++ l' /\ l' ++ x :: r = rest).
Proof.
  induction w as [|a w IH]; intros l x r rest H.
  - right. exists l. split; [reflexivity | exact H].
  - destruct l as [|b l].
    + simpl in H. injection H as -> ->.
      left. exists [], w. repeat split.
    + simpl in H. injection H as -> H.
      destruct (IH l x r rest H) as [[w1 [w2 [E1 [E2 E3]]]] | [l' [E1 E2]]].
      * left. exists (a :: w1), w2. subst. repeat split.
      * right. exists l'. subst. split; reflexivity.
Qed.

Variable P : A -> bool.

(** An element that is not of the kind of [b] lies before [b]. *)
Lemma mid_in_left :
  forall (a b x : list A) n y,
    a ++ b = x ++ n :: y ->
    Forall (fun c => P c = true) b -> P n = false ->
    exists a2, a = x ++ n :: a2 /\ y = a2 ++ b.
Proof.
  intros a b x n y H Fb Hn. symmetry in H.
  destruct (split_cases a x n y b H) as [[w1 [w2 [E1 [E2 E3]]]] | [l' [E1 E2]]].
  - exists w2. subst. split; reflexivity.
  - exfalso. rewrite <- E2 in Fb. apply Forall_app in Fb. destruct Fb as [_ Fb].
    inversion Fb as [|? ? Hn' _]; subst. congruence.
Qed.

(** An element that is not of the kind of [w] lies after [w]. *)
Lemma mid_in_right :
  forall (w l : list A) x r rest,
    l ++ x :: r = w ++ rest ->
    Forall (fun c => P c = true) w -> P x = false ->
    exists l', l = w ++ l' /\ l' ++ x :: r = rest.
Proof.
  intros w l x r rest H Fw Hx.
  destruct (split_cases w l x r rest H) as [[w1 [w2 [E1 [E2 E3]]]] | H'].
  - exfalso. rewrite E1 in Fw. apply Forall_app in Fw. destruct Fw as [_ Fw].
    inversion Fw as [|? ? Hx' _]; subst. congruence.
  - exact H'.
Qed.

Lemma app_prefix :
  forall (a b c d : list A),
    a ++ b = c ++ d -> length c <= length a -> exists x, a = c ++ x /\ d = x ++ b.
Proof.
  induction a as [|h a IH]; intros b c d H L.
  - destruct c; [|simpl in L; lia]. exists []. simpl in *. auto.
  - destruct c as [|k c].
    + exists (h :: a). simpl in *. auto.
    + simpl in H. injection H as -> H. simpl in L.
      destruct (IH b c d H) as [x [E1 E2]]; [lia|].
      exists x. subst. split; reflexivity.
Qed.

End ListSplits.

Section Spelling.

Lemma reach_spells :
  forall r st st',
    reach r st st' ->
    exists w, spells r w /\ m_rest st = w ++ m_rest st'
              /\ m_pos st' = m_pos st + length w.
Proof.
  intros r st st' H. destruct (reach_consumes r st st' H) as [w [E Q]].
  exists w. split; [|split; assumption].
  exists st, st'. split; assumption.
Qed.

(** The word between two states is the one the match consumed. *)
Lemma spells_word :
  forall r st st' w w',
    reach r st st' -> m_rest st = w ++ m_rest st' ->
    m_rest st = w' ++ m_rest st' -> w = w'.
Proof.
  intros r st st' w w' _ E E'. rewrite E in E'.
  apply app_inv_tail in E'. exact E'.
Qed.

Lemma spells_eps : forall w, spells REps w -> w = [].
Proof.
  intros w [st [st' [H E]]]. apply reach_eps_inv in H. subst st'.
  apply (app_inv_tail (m_rest st)). simpl. symmetry. exact E.
Qed.

Lemma spells_char :
  forall cs w, spells (RChar cs) w -> exists c, w = [c] /\ cset_mem cs c = true.
Proof.
  intros cs w [st [st' [H E]]]. apply reach_char_inv in H.
  destruct H as [c [E1 [M _]]]. exists c. split; [|exact M].
  rewrite E1 in E. apply (app_inv_tail (m_rest st')). simpl. symmetry. exact E.
Qed.

Lemma spells_seq :
  forall r1 r2 w,
    spells (RSeq r1 r2) w ->
    exists w1 w2, w = w1 ++ w2 /\ spells r1 w1 /\ spells r2 w2.
Proof.
  intros r1 r2 w [st [st' [H E]]]. apply reach_seq_inv in H.
  destruct H as [sm [H1 H2]].
  destruct (reach_consumes _ _ _ H1) as [w1 [E1 _]].
  destruct (reach_consumes _ _ _ H2) as [w2 [E2 _]].
  exists w1, w2. split; [|split].
  - apply (app_inv_tail (m_rest st')). rewrite <- E, E1, E2, app_assoc.
    reflexivity.
  - exists st, sm. split; assumption.
  - exists sm, st'. split; assumption.
Qed.

Lemma spells_alt :
  forall r1 r2 w, spells (RAlt r1 r2) w -> spells r1 w \/ spells r2 w.
Proof.
  intros r1 r2 w [st [st' [H E]]]. apply reach_alt_inv in H.
  destruct H as [H | H]; [left | right]; exists st, st'; split; assumption.
Qed.

Lemma spells_group :
  forall i r w, spells (RGroup i r) w -> spells r w.
Proof.
  intros i r w [st [st' [H E]]]. apply reach_group_inv in H.
  destruct H as [s2 [H ->]]. exists st, s2. split; [exact H | exact E].
Qed.

Lemma spells_opt :
  forall r w, spells (ROpt r) w -> spells r w \/ w = [].
Proof.
  intros r w H. apply spells_alt in H. destruct H as [H | H].
  - left. exact H.
  - right. apply spells_eps. exact H.
Qed.

(** A repetition spells a concatenation of words of its body. *)
Lemma spells_star :
  forall (Q : str -> Prop) g r,
    Q [] ->
    (forall w1 w2, spells r w1 -> Q w2 -> Q (w1 ++ w2)) ->
    forall w, spells (RStar g r) w -> Q w.
Proof.
  intros Q g r Q0 Qs w [st [st' [H E]]]. revert w E.
  remember (RStar g r) as r0 eqn:Er.
  induction H as
    [ st | cs' pos prev c rest caps Hc | r1 r2 s1 s2 s3 _ IH1 _ IH2
    | r1 r2 s1 s2 _ IH | r1 r2 s1 s2 _ IH | g' r' st
    | g' r' s1 s2 s3 H1 _ Hlt H2 IH2 | i r' s1 s2 _ IH | st Hb | st He
    | r' s1 s2 _ IH ]; try discriminate; intros w E.
  - assert (w = []) as ->; [|exact Q0].
    apply (app_inv_tail (m_rest st)). simpl. symmetry. exact E.
  - injection Er as -> ->.
    destruct (reach_consumes _ _ _ H1) as [w1 [E1 _]].
    destruct (reach_consumes _ _ _ H2) as [w2 [E2 _]].
    assert (w = w1 ++ w2) as ->.
    { apply (app_inv_tail (m_rest s3)). rewrite <- E, E1, E2, app_assoc.
      reflexivity. }
    apply Qs.
    + exists s1, s2. split; assumption.
    + apply IH2; [reflexivity | exact E2].
Qed.

Lemma spells_star_chars :
  forall g cs w,
    spells (RStar g (RChar cs)) w -> Forall (fun c => cset_mem cs c = true) w.
Proof.
  intros g cs. apply spells_star.
  - constructor.
  - intros w1 w2 H1 F. apply spells_char in H1. destruct H1 as [c [-> M]].
    simpl. constructor; assumption.
Qed.

Lemma spells_plus_chars :
  forall g cs w,
    spells (RPlus g (RChar cs)) w ->
    exists c w', w = c :: w' /\ Forall (fun c => cset_mem cs c = true) (c :: w').
Proof.
  intros g cs w H. unfold RPlus in H. apply spells_seq in H.
  destruct H as [w1 [w2 [-> [H1 H2]]]].
  apply spells_char in H1. destruct H1 as [c [-> M]].
  apply spells_star_chars in H2.
  exists c, w2. split; [reflexivity | constructor; assumption].
Qed.

Lemma spells_lit : forall s w, spells (RLit s) w -> w = s.
Proof.
  induction s as [|c s IH]; intros w H; cbn [RLit] in H.
  - apply spells_eps. exact H.
  - apply spells_seq in H. destruct H as [w1 [w2 [-> [H1 H2]]]].
    apply spells_char in H1. destruct H1 as [c' [-> M]].
    simpl in M. rewrite orb_false_r in M. apply N.eqb_eq in M. subst c'.
    rewrite (IH w2 H2). reflexivity.
Qed.

Lemma spells_seqs_cons :
  forall r rs w,
    spells (RSeqs (r :: rs)) w ->
    exists w1 w2, w = w1 ++ w2 /\ spells r w1 /\ spells (RSeqs rs) w2.
Proof.
  intros r rs w H. destruct rs as [|r' rs].
  - exists w, []. rewrite app_nil_r. split; [reflexivity|]. split; [exact H|].
    exists (MState 0 None [] []), (MState 0 None [] []).
    split; [constructor | reflexivity].
  - apply spells_seq. exact H.
Qed.

Lemma reach_seqs_app :
  forall l1 l2 st st',
    reach (RSeqs (l1 ++ l2)) st st' ->
    exists mid, reach (RSeqs l1) st mid /\ reach (RSeqs l2) mid st'.
Proof.
  induction l1 as [|r l1 IH]; intros l2 st st' H.
  - exists st. split; [constructor | exact H].
  - destruct l1 as [|r' l1].
    + destruct l2 as [|r2 l2].
      * exists st'. split; [exact H | constructor].
      * apply reach_seq_inv in H. exact H.
    + change (reach (RSeq r (RSeqs ((r' :: l1) ++ l2))) st st') in H.
      apply reach_seq_inv in H. destruct H as [sa [Ha Hb]].
      apply IH in Hb. destruct Hb as [mid [Hc Hd]].
      exists mid. split; [|exact Hd].
      change (reach (RSeq r (RSeqs (r' :: l1))) st mid).
      econstructor; eassumption.
Qed.

Lemma spells_seqs_app :
  forall l1 l2 w,
    spells (RSeqs (l1 ++ l2)) w ->
    exists w1 w2, w = w1 ++ w2 /\ spells (RSeqs l1) w1 /\ spells (RSeqs l2) w2.
Proof.
  intros l1 l2 w [st [st' [H E]]]. apply reach_seqs_app in H.
  destruct H as [mid [H1 H2]].
  destruct (reach_consumes _ _ _ H1) as [w1 [E1 _]].
  destruct (reach_consumes _ _ _ H2) as [w2 [E2 _]].
  exists w1, w2. split; [|split].
  - apply (app_inv_tail (m_rest st')). rewrite <- E, E1, E2, app_assoc.
    reflexivity.
  - exists st, mid. split; assumption.
  - exists mid, st'. split; assumption.
Qed.

End Spelling.

Section Within.

Variable P : char -> bool.
Variables sp dg : bool.
Hypothesis sp_ok : sp = true -> forall c, is_space c = true -> P c = true.
Hypothesis dg_ok : dg = true -> forall c, is_decimal c = true -> P c = true.

Lemma N_range_In :
  forall n lo c, (lo <= c)%N -> (c < lo + N.of_nat n)%N -> In c (N_range lo n).
Proof.
  induction n as [|n IH]; intros lo c H1 H2.
  - lia.
  - simpl. destruct (N.eq_dec lo c) as [E|E]; [left; exact E|].
    right. apply IH; lia.
Qed.

Lemma item_within_ok :
  forall i c, item_within P sp dg i = true -> citem_mem i c = true -> P c = true.
Proof.
  intros [x|lo hi| |] c W M; simpl in W, M.
  - apply N.eqb_eq in M. subst. exact W.
  - apply andb_true_iff in M. destruct M as [M1 M2].
    apply N.leb_le in M1. apply N.leb_le in M2.
    rewrite forallb_forall in W. apply W. apply N_range_In; lia.
  - apply dg_ok; assumption.
  - apply sp_ok; assumption.
Qed.

Lemma cset_within_ok :
  forall cs c, cset_within P sp dg cs = true -> cset_mem cs c = true -> P c = true.
Proof.
  intros [l|l|] c W M; simpl in W, M; try discriminate.
  apply existsb_exists in M. destruct M as [i [Hi M]].
  rewrite forallb_forall in W. eapply item_within_ok; eauto.
Qed.

Lemma reach_within :
  forall r st st',
    reach r st st' -> within P sp dg r = true ->
    exists w, m_rest st = w ++ m_rest st' /\ Forall (fun c => P c = true) w.
Proof.
  induction 1 as
    [ st | cs pos prev c rest caps Hc | r1 r2 s1 s2 s3 _ IH1 _ IH2
    | r1 r2 s1 s2 _ IH | r1 r2 s1 s2 _ IH | g r st
    | g r s1 s2 s3 _ IH1 Hlt _ IH2 | i r s1 s2 _ IH | st Hb | st He
    | r s1 s2 _ IH ]; cbn [within]; intros W;
    try (exists []; split; [reflexivity | constructor]).
  - exists [c]. split; [reflexivity|]. constructor; [|constructor].
    eapply cset_within_ok; eassumption.
  - apply andb_true_iff in W. destruct W as [W1 W2].
    destruct (IH1 W1) as [w1 [E1 F1]]. destruct (IH2 W2) as [w2 [E2 F2]].
    exists (w1 ++ w2). rewrite E1, E2, app_assoc. split; [reflexivity|].
    apply Forall_app. split; assumption.
  - apply andb_true_iff in W. destruct W as [W1 W2]. auto.
  - apply andb_true_iff in W. destruct W as [W1 W2]. auto.
  - destruct (IH1 W) as [w1 [E1 F1]]. destruct (IH2 W) as [w2 [E2 F2]].
    exists (w1 ++ w2). rewrite E1, E2, app_assoc. split; [reflexivity|].
    apply Forall_app. split; assumption.
  - exact (IH W).
Qed.

Lemma spells_within :
  forall r w,
    spells r w -> within P sp dg r = true -> Forall (fun c => P c = true) w.
Proof.
  intros r w [st [st' [H E]]] W.
  destruct (reach_within r st st' H W) as [w' [E' F]].
  rewrite E in E'. apply app_inv_tail in E'. subst. exact F.
Qed.

End Within.

(* ================================================================== *)
(** * The shape of the head of a student's block *)
(* ================================================================== *)

Section HeadShape.

Lemma student_head_parts :
  student_head = RSeqs (names_part ++ [RLit (py "N°")] ++ tail_part).
Proof. reflexivity. Qed.

Lemma spells_LF : forall w, spells r_LF w -> w = [LF].
Proof.
  intros w H. apply spells_char in H. destruct H as [c [-> M]].
  simpl in M. rewrite orb_false_r in M. apply N.eqb_eq in M. subst. reflexivity.
Qed.

Lemma spells_spaces :
  forall g w, spells (RStar g r_s) w -> Forall (fun x => is_space x = true) w.
Proof.
  intros g w H.
  apply (spells_within is_space true false) with (r := RStar g r_s).
  - intros _ c Hc. exact Hc.
  - discriminate.
  - exact H.
  - reflexivity.
Qed.

Lemma spells_not :
  forall g (i : citem) w,
    spells (RPlus g (RChar (CNotIn [i]))) w ->
    Forall (fun x => negb (citem_mem i x) = true) w /\ w <> [].
Proof.
  intros g i w H. apply spells_plus_chars in H. destruct H as [c [w' [-> F]]].
  split; [|discriminate].
  eapply Forall_impl; [|exact F]. intros x Hx. simpl in Hx.
  rewrite orb_false_r in Hx. exact Hx.
Qed.

Lemma is_space_plain : forall c, is_space c = true -> plain c = true.
Proof. intros c H. unfold plain. rewrite H. reflexivity. Qed.

Lemma is_decimal_plain : forall c, is_decimal c = true -> plain c = true.
Proof. intros c H. unfold plain. rewrite H, orb_true_r. reflexivity. Qed.

Lemma id_char_plain : forall c, id_char c = true -> plain c = true.
Proof. intros c H. apply andb_true_iff in H. apply H. Qed.

Lemma is_space_id : forall c, is_space c = true -> id_char c = true.
Proof.
  intros c H. unfold id_char. rewrite (is_space_plain c H). simpl.
  destruct (N.eqb_spec c cAcc) as [->|]; [discriminate H | reflexivity].
Qed.

Lemma is_decimal_id : forall c, is_decimal c = true -> id_char c = true.
Proof.
  intros c H. unfold id_char. rewrite (is_decimal_plain c H). simpl.
  destruct (N.eqb_spec c cAcc) as [->|]; [discriminate H | reflexivity].
Qed.

Lemma upper_not_space :
  forall c, cset_mem upper_cs c = true -> is_space c = false.
Proof.
  intros c H.
  assert (N : not_space c = true).
  { apply (cset_within_ok not_space false false) with (cs := upper_cs);
      [discriminate | discriminate | reflexivity | exact H]. }
  unfold not_space in N. apply negb_true_iff in N. exact N.
Qed.

Lemma names_spells_shape :
  forall n, spells (RSeqs names_part) n -> names_shape n.
Proof.
  intros n H.
  assert (F : Forall (fun c => name_char c = true) n).
  { apply (spells_within name_char true false) with (r := RSeqs names_part).
    - intros _ c Hc. unfold name_char. rewrite Hc. apply orb_true_r.
    - discriminate.
    - exact H.
    - reflexivity. }
  change names_part with
    ([RGroup 1 (words upper_cs); RPlus true r_s; RGroup 2 (words name_cs);
      RStar true r_s] ++ [r_LF]) in H.
  apply spells_seqs_app in H. destruct H as [w1 [w2 [-> [H1 H2]]]].
  apply spells_LF in H2. subst w2.
  apply spells_seqs_cons in H1. destruct H1 as [g1 [w3 [-> [H1 _]]]].
  apply spells_group in H1. unfold words in H1. apply spells_seq in H1.
  destruct H1 as [u1 [u2 [-> [H1 _]]]].
  apply spells_plus_chars in H1. destruct H1 as [up [u3 [-> Fu]]].
  exists up, ((u3 ++ u2) ++ w3). split; [|split].
  - simpl. rewrite <- !app_assoc. reflexivity.
  - apply upper_not_space. inversion Fu; assumption.
  - apply Forall_app in F. destruct F as [F _].
    simpl in F. simpl. rewrite <- !app_assoc in *. exact F.
Qed.

Lemma ends_line_app :
  forall a b, ends_line a -> ends_line b -> ends_line (a ++ b).
Proof.
  intros a b Ha [-> | [b' ->]].
  - rewrite app_nil_r. exact Ha.
  - right. exists (a ++ b'). apply app_assoc.
Qed.

Lemma ends_line_after :
  forall a b, ends_line b -> exists w', (a ++ [LF]) ++ b = w' ++ [LF].
Proof.
  intros a b [-> | [b' ->]].
  - exists a. apply app_nil_r.
  - exists ((a ++ [LF]) ++ b'). apply app_assoc.
Qed.

Lemma spells_line :
  forall w, spells (RSeq (RStar true r_s) r_LF) w -> exists w', w = w' ++ [LF].
Proof.
  intros w H. apply spells_seq in H. destruct H as [w1 [w2 [-> [_ H2]]]].
  apply spells_LF in H2. subst. exists w1. reflexivity.
Qed.

Lemma spells_header :
  forall l w,
    spells (ROpt (RSeqs [RLit l; RStar true r_s; r_LF])) w -> ends_line w.
Proof.
  intros l w H. apply spells_opt in H. destruct H as [H | ->]; [|left; reflexivity].
  change [RLit l; RStar true r_s; r_LF] with ([RLit l; RStar true r_s] ++ [r_LF]) in H.
  apply spells_seqs_app in H. destruct H as [w1 [w2 [-> [_ H2]]]].
  apply spells_LF in H2. subst. right. exists w1. reflexivity.
Qed.

Lemma gap_spells_shape :
  forall y,
    spells (RSeqs gap_part) y ->
    exists y1 y2, y = y1 ++ LF :: y2
                  /\ Forall (fun x => plain x = true) y1
                  /\ Forall (fun x => is_space x = true) y2.
Proof.
  intros y H.
  assert (F : Forall (fun c => plain c = true) y).
  { apply (spells_within plain true true) with (r := RSeqs gap_part).
    - intros _. exact is_space_plain.
    - intros _. exact is_decimal_plain.
    - exact H.
    - reflexivity. }
  unfold gap_part in H.
  apply spells_seqs_cons in H. destruct H as [g [r1 [-> [Hg H]]]].
  apply spells_seqs_cons in H. destruct H as [o1 [r2 [-> [Ho1 H]]]].
  apply spells_seqs_cons in H. destruct H as [o2 [r3 [-> [Ho2 H]]]].
  cbn [RSeqs] in H. apply spells_spaces in H.
  unfold RPlus in Hg. apply spells_seq in Hg. destruct Hg as [x1 [xs [-> [Hx1 Hxs]]]].
  apply spells_line in Hx1. destruct Hx1 as [x1' ->].
  assert (Exs : ends_line xs).
  { revert Hxs. apply spells_star.
    - left. reflexivity.
    - intros w1 w2 Hw1 Hw2. apply ends_line_app; [|exact Hw2].
      apply spells_line in Hw1. right. exact Hw1. }
  apply spells_header in Ho1. apply spells_header in Ho2.
  destruct (ends_line_after x1' (xs ++ o1 ++ o2)) as [w' E].
  { apply ends_line_app; [exact Exs|]. apply ends_line_app; assumption. }
  exists w', r3.
  assert (E' : ((x1' ++ [LF]) ++ xs) ++ o1 ++ o2 ++ r3 = w' ++ LF :: r3).
  { transitivity (((x1' ++ [LF]) ++ xs ++ o1 ++ o2) ++ r3).
    - rewrite <- !app_assoc. reflexivity.
    - rewrite E, <- app_assoc. reflexivity. }
  split; [exact E'|]. split; [|exact H].
  rewrite E' in F. apply Forall_app in F. apply F.
Qed.

Lemma tail_spells_shape :
  forall t, spells (RSeqs tail_part) t -> tail_shape t.
Proof.
  intros t H. unfold tail_part in H.
  apply spells_seqs_app in H. destruct H as [a [t1 [-> [Ha H]]]].
  apply spells_seqs_app in H. destruct H as [i [t2 [-> [Hi H]]]].
  apply spells_seqs_app in H. destruct H as [b [t3 [-> [Hb H]]]].
  apply spells_seqs_app in H. destruct H as [bv [t4 [-> [Hbv H]]]].
  apply spells_seqs_app in H. destruct H as [c [t5 [-> [Hc H]]]].
  apply spells_seqs_app in H. destruct H as [ev [y [-> [Hev Hy]]]].
  (* the identity line *)
  assert (Fa : Forall (fun x => id_char x = true) a).
  { apply (spells_within id_char true true) with (r := RSeqs id_part).
    - intros _. exact is_space_id.
    - intros _. exact is_decimal_id.
    - exact Ha.
    - reflexivity. }
  unfold ine_part in Hi.
  apply spells_seqs_cons in Hi. destruct Hi as [i1 [i2 [-> [Hi1 Hi]]]].
  apply spells_lit in Hi1. subst i1.
  apply spells_seqs_cons in Hi. destruct Hi as [sp [v [-> [Hsp Hv]]]].
  apply spells_spaces in Hsp. cbn [RSeqs] in Hv.
  apply spells_not in Hv. destruct Hv as [Fv _].
  (* the line of the birth date *)
  assert (Fb : Forall (fun x => plain x = true) b).
  { apply (spells_within plain true true) with (r := RSeqs born_part).
    - intros _. exact is_space_plain.
    - intros _. exact is_decimal_plain.
    - exact Hb.
    - reflexivity. }
  assert (Ib : In cAcc b).
  { unfold born_part in Hb.
    apply spells_seqs_cons in Hb. destruct Hb as [b1 [b2 [-> [_ Hb]]]].
    apply spells_seqs_cons in Hb. destruct Hb as [b3 [b4 [-> [_ Hb]]]].
    apply spells_seqs_cons in Hb. destruct Hb as [b5 [b6 [-> [Hb5 _]]]].
    apply spells_lit in Hb5. subst b5.
    apply in_or_app. right. apply in_or_app. right. apply in_or_app. left.
    right. left. reflexivity. }
  unfold born_value in Hbv.
  apply spells_seqs_cons in Hbv. destruct Hbv as [k1 [w1 [-> [Hk1 Hw1]]]].
  apply spells_lit in Hk1. subst k1. cbn [RSeqs] in Hw1.
  apply spells_not in Hw1. destruct Hw1 as [Fw1 _].
  (* the line of the enrolment *)
  assert (Fc : Forall (fun x => plain x = true) c).
  { apply (spells_within plain true true) with (r := RSeqs enrol_part).
    - intros _. exact is_space_plain.
    - intros _. exact is_decimal_plain.
    - exact Hc.
    - reflexivity. }
  unfold enrol_value in Hev.
  apply spells_seqs_cons in Hev. destruct Hev as [ds [w2 [-> [Hds Hw2]]]].
  apply spells_plus_chars in Hds. destruct Hds as [d0 [ds' [-> Fds]]].
  cbn [RSeqs] in Hw2. apply spells_not in Hw2. destruct Hw2 as [Fw2 _].
  destruct (exists_last (l := d0 :: ds')) as [ds0 [d Ed]]; [discriminate|].
  rewrite Ed in *. apply Forall_app in Fds. destruct Fds as [Fds0 Fd].
  inversion Fd as [|? ? Hd _]; subst. simpl in Hd. rewrite orb_false_r in Hd.
  (* the lines before the notes *)
  apply gap_spells_shape in Hy. destruct Hy as [y1 [y2 [-> [Fy1 Fy2]]]].
  exists a, sp, v, b, w1, (c ++ ds0), d, w2, y1, y2.
  split; [|repeat split; try assumption].
  - simpl. rewrite <- !app_assoc. simpl. reflexivity.
  - apply Forall_app. split; [exact Fc|].
    eapply Forall_impl; [|exact Fds0]. intros x Hx. simpl in Hx.
    rewrite orb_false_r in Hx. apply is_decimal_plain. exact Hx.
Qed.

Lemma head_spells_shape :
  forall w, spells student_head w -> head_shape w.
Proof.
  intros w H. rewrite student_head_parts in H.
  apply spells_seqs_app in H. destruct H as [n [t1 [-> [Hn H]]]].
  apply spells_seqs_app in H. destruct H as [l [t [-> [Hl Ht]]]].
  cbn [RSeqs] in Hl. apply spells_lit in Hl. subst l.
  exists n, t. split; [reflexivity|].
  split; [apply names_spells_shape | apply tail_spells_shape]; assumption.
Qed.

End HeadShape.

(* ================================================================== *)
(** * Two heads do not nest *)
(* ================================================================== *)

Section Nesting.

Lemma other_than_of :
  forall (P : char -> bool) k,
    P k = false -> forall c, P c = true -> other_than k c = true.
Proof.
  intros P k Hk c Hc. unfold other_than.
  destruct (N.eqb_spec c k) as [->|]; [congruence | reflexivity].
Qed.

Lemma Forall_other_than :
  forall (P : char -> bool) k l,
    P k = false -> Forall (fun c => P c = true) l ->
    Forall (fun c => other_than k c = true) l.
Proof.
  intros P k l Hk F. eapply Forall_impl; [|exact F].
  apply other_than_of. exact Hk.
Qed.

Lemma Forall_In_false :
  forall (P : char -> bool) l1 x l2,
    Forall (fun c => P c = true) (l1 ++ x :: l2) -> P x = false -> False.
Proof.
  intros P l1 x l2 F Hx. apply Forall_app in F. destruct F as [_ F].
  inversion F; subst. congruence.
Qed.

(** A character of the tail that is no blank, no digit and no character
    of a fixed word belongs to the INE, to the birth date or to the rest
    of the line of the enrolment. *)
Lemma tail_exotic :
  forall t l x r,
    tail_shape t -> t = l ++ x :: r -> plain x = false ->
    (exists a sp v1,
        l = a ++ cColon :: sp ++ v1
        /\ Forall (fun c => id_char c = true) a
        /\ Forall (fun c => is_space c = true) sp
        /\ Forall (fun c => not_space c = true) v1)
    \/ (exists l1 z l2,
           l = l1 ++ z :: l2
           /\ (z = cColon \/ is_decimal z = true)
           /\ Forall (fun c => not_newline c = true) l2).
Proof.
  intros t l x r
    [a [sp [v [b [w1 [c [d [w2 [y1 [y2
      [E [Fa [Fsp [Fv [Fb [_ [Fw1 [Fc [Hd [Fw2 [Fy1 Fy2]]]]]]]]]]]]]]]]]]]]] E0 Hx.
  rewrite E0 in E. clear E0.
  assert (Fa' : Forall (fun c => plain c = true) a)
    by (eapply Forall_impl; [|exact Fa]; exact id_char_plain).
  assert (Fsp' : Forall (fun c => plain c = true) sp)
    by (eapply Forall_impl; [|exact Fsp]; exact is_space_plain).
  assert (Fy2' : Forall (fun c => plain c = true) y2)
    by (eapply Forall_impl; [|exact Fy2]; exact is_space_plain).
  destruct (mid_in_right _ plain a l x r _ E Fa' Hx) as [l1 [-> E1]].
  destruct (mid_in_right _ plain [cColon] l1 x r _ E1) as [l2 [-> E2]];
    [constructor; [reflexivity | constructor] | exact Hx |].
  destruct (mid_in_right _ plain sp l2 x r _ E2 Fsp' Hx) as [l3 [-> E3]].
  destruct (split_cases _ v l3 x r _ E3) as [[v1 [v2 [-> [-> _]]]] | [l4 [-> E4]]].
  { left. exists a, sp, v1. split; [list_eq|]. repeat split; try assumption.
    apply Forall_app in Fv. apply Fv. }
  right.
  destruct (mid_in_right _ plain b l4 x r _ E4 Fb Hx) as [l5 [-> E5]].
  destruct (mid_in_right _ plain [cColon] l5 x r _ E5) as [l6 [-> E6]];
    [constructor; [reflexivity | constructor] | exact Hx |].
  destruct (split_cases _ w1 l6 x r _ E6) as [[u1 [u2 [-> [-> _]]]] | [l7 [-> E7]]].
  { exists (a ++ [cColon] ++ sp ++ v ++ b), cColon, u1.
    split; [list_eq|]. split; [left; reflexivity|].
    apply Forall_app in Fw1. apply Fw1. }
  destruct (mid_in_right _ plain c l7 x r _ E7 Fc Hx) as [l8 [-> E8]].
  destruct (mid_in_right _ plain [d] l8 x r _ E8) as [l9 [-> E9]];
    [constructor; [apply is_decimal_plain; exact Hd | constructor] | exact Hx |].
  destruct (split_cases _ w2 l9 x r _ E9) as [[u1 [u2 [-> [-> _]]]] | [l10 [-> E10]]].
  { exists (a ++ [cColon] ++ sp ++ v ++ b ++ [cColon] ++ w1 ++ c), d, u1.
    split; [list_eq|]. split; [right; exact Hd|].
    apply Forall_app in Fw2. apply Fw2. }
  exfalso.
  destruct (mid_in_right _ plain y1 l10 x r _ E10 Fy1 Hx) as [l11 [-> E11]].
  destruct (mid_in_right _ plain [LF] l11 x r _ E11) as [l12 [-> E12]];
    [constructor; [reflexivity | constructor] | exact Hx |].
  rewrite <- (app_nil_r y2) in E12.
  destruct (mid_in_right _ plain y2 l12 x r _ E12 Fy2' Hx) as [l13 [_ E13]].
  destruct l13; discriminate E13.
Qed.

(** The tail holds the accented letter of the birth line, and a line end
    after it. *)
Lemma tail_accent :
  forall t, tail_shape t -> exists x1 x2 x3, t = x1 ++ cAcc :: x2 ++ LF :: x3.
Proof.
  intros t
    [a [sp [v [b [w1 [c [d [w2 [y1 [y2 [E [_ [_ [_ [_ [Ib _]]]]]]]]]]]]]]]].
  apply in_split in Ib. destruct Ib as [b1 [b2 ->]].
  exists (a ++ cColon :: sp ++ v ++ b1),
         (b2 ++ cColon :: w1 ++ c ++ d :: w2 ++ y1), y2.
  rewrite E. list_eq.
Qed.

(** The tail ends with a line end and blanks. *)
Lemma tail_last_line :
  forall t,
    tail_shape t ->
    exists y1 y2, t = y1 ++ LF :: y2 /\ Forall (fun c => is_space c = true) y2.
Proof.
  intros t
    [a [sp [v [b [w1 [c [d [w2 [y1 [y2
      [E [_ [_ [_ [_ [_ [_ [_ [_ [_ [_ Fy2]]]]]]]]]]]]]]]]]]]]].
  exists (a ++ cColon :: sp ++ v ++ b ++ cColon :: w1 ++ c ++ d :: w2 ++ y1), y2.
  split; [|exact Fy2]. rewrite E. list_eq.
Qed.

Lemma colon_or_digit :
  forall z, z = cColon \/ is_decimal z = true ->
            is_space z = false /\ not_newline z = true /\ z <> cN.
Proof.
  intros z [-> | H].
  - repeat split. discriminate.
  - split; [|split].
    + destruct (is_space z) eqn:S; [|reflexivity].
      pose proof (is_decimal_not_space z H). congruence.
    + unfold not_newline. destruct (N.eqb_spec z LF) as [->|]; [discriminate H | reflexivity].
    + intros ->. discriminate H.
Qed.

(** The tail of a head does not go on after the tail of another head
    that starts where it starts, when the first letter of the notes
    follows that one. *)
Lemma tails_not_nested :
  forall t t' x, tail_shape t -> tail_shape t' -> t = t' ++ cU :: x -> False.
Proof.
  intros t t' x Ht Ht' E.
  destruct (tail_exotic t t' cU x Ht E eq_refl)
    as [[a [sp [v1 [El [Fa [Fsp Fv]]]]]] | [l1 [z [l2 [El [Hz Fl2]]]]]].
  - destruct (tail_accent t' Ht') as [x1 [x2 [x3 Ex]]].
    assert (E1 : (a ++ cColon :: sp) ++ v1 = (x1 ++ cAcc :: x2) ++ LF :: x3).
    { transitivity t'; [rewrite El | rewrite Ex]; list_eq. }
    destruct (mid_in_left _ not_space _ _ _ _ _ E1 Fv eq_refl) as [a2 [E2 _]].
    assert (F : Forall (fun c => id_char c = true) (a ++ cColon :: sp)).
    { apply Forall_app. split; [exact Fa|]. constructor; [reflexivity|].
      eapply Forall_impl; [|exact Fsp]. exact is_space_id. }
    rewrite E2, <- app_assoc in F.
    apply (Forall_In_false id_char) in F; [exact F | reflexivity].
  - destruct (tail_last_line t' Ht') as [y1 [y2 [Ey Fy2]]].
    destruct (colon_or_digit z Hz) as [Z1 [Z2 _]].
    assert (E1 : l1 ++ z :: l2 = y1 ++ LF :: y2) by congruence.
    destruct (mid_in_left _ not_newline _ _ _ _ _ E1) as [a2 [_ E2]];
      [constructor; assumption | reflexivity |].
    rewrite E2 in Fy2.
    apply (Forall_In_false is_space) in Fy2; [exact Fy2 | exact Z1].
Qed.

(** The tail of a head holds no second line of another block. *)
Lemma tail_holds_no_names :
  forall t a up nw r,
    tail_shape t ->
    is_space up = false ->
    Forall (fun c => name_char c = true) (up :: nw) ->
    t = (a ++ (up :: nw ++ [LF]) ++ [cN]) ++ cDeg :: r -> False.
Proof.
  intros t a0 up nw r Ht Hup Fn E.
  destruct (tail_exotic t _ cDeg r Ht E eq_refl)
    as [[a [sp [v1 [El [Fa [Fsp Fv]]]]]] | [l1 [z [l2 [El [Hz Fl2]]]]]].
  - assert (E1 : (a ++ cColon :: sp) ++ v1 = (a0 ++ up :: nw) ++ LF :: [cN]).
    { transitivity (a0 ++ (up :: nw ++ [LF]) ++ [cN]); [rewrite El|]; list_eq. }
    destruct (mid_in_left _ not_space _ _ _ _ _ E1 Fv eq_refl) as [a3 [E2 E3]].
    assert (Fk : Forall (fun c => other_than cColon c = true) (up :: nw ++ LF :: a3)).
    { change (up :: nw ++ LF :: a3) with ((up :: nw) ++ LF :: a3).
      apply Forall_app. split.
      - apply (Forall_other_than name_char); [reflexivity | exact Fn].
      - constructor; [reflexivity|].
        destruct a3 as [|k a3]; [constructor|].
        injection E3 as <- E3. destruct a3; [|discriminate E3].
        repeat constructor. }
    assert (E4 : a0 ++ up :: nw ++ LF :: a3 = a ++ cColon :: sp).
    { rewrite E2. list_eq. }
    destruct (mid_in_left _ (other_than cColon) _ _ _ _ _ E4 Fk eq_refl)
      as [a4 [_ E5]].
    rewrite E5 in Fsp.
    apply (Forall_In_false is_space) in Fsp; [exact Fsp | exact Hup].
  - destruct (colon_or_digit z Hz) as [_ [Z2 Z3]].
    assert (E1 : l1 ++ z :: l2 = (a0 ++ up :: nw) ++ LF :: [cN]).
    { rewrite <- El. list_eq. }
    destruct (mid_in_left _ not_newline _ _ _ _ _ E1) as [a3 [_ E2]];
      [constructor; assumption | reflexivity |].
    destruct a3 as [|k a3].
    + simpl in E2. injection E2 as E2 _. apply Z3. symmetry. exact E2.
    + injection E2 as _ E2. destruct a3; discriminate E2.
Qed.

(** The head of a block does not hold another head followed by the
    first letter of the notes. *)
Lemma heads_not_nested :
  forall w w' a x,
    head_shape w -> head_shape w' -> w = a ++ w' ++ cU :: x -> False.
Proof.
  intros w w' a x
    [n [t [-> [[up [nw [-> [Hup Fn]]]] Ht]]]]
    [n' [t' [-> [[up' [nw' [-> [Hup' Fn']]]] Ht']]]] E.
  assert (Dn : forall u l, Forall (fun c => name_char c = true) (u :: l) ->
               Forall (fun c => other_than cDeg c = true) ((u :: l ++ [LF]) ++ [cN])).
  { intros u l F. apply Forall_app. split; [|repeat constructor].
    change (u :: l ++ [LF]) with ((u :: l) ++ [LF]).
    apply Forall_app. split; [|repeat constructor].
    apply (Forall_other_than name_char); [reflexivity | exact F]. }
  assert (E' : (a ++ (up' :: nw' ++ [LF]) ++ [cN]) ++ cDeg :: (t' ++ cU :: x)
               = ((up :: nw ++ [LF]) ++ [cN]) ++ cDeg :: t).
  { rewrite <- (app_assoc _ [cN] (cDeg :: t)). simpl ([cN] ++ _).
    rewrite E. list_eq. }
  destruct (split_cases _ _ _ _ _ _ E') as [[w1 [w2 [B _]]] | [l' [E1 E2]]].
  { pose proof (Dn up nw Fn) as D. rewrite B in D.
    apply (Forall_In_false (other_than cDeg)) in D; [exact D | reflexivity]. }
  destruct l' as [|c0 l'].
  - simpl in E2. injection E2 as E2.
    apply (tails_not_nested t t' x Ht Ht'). symmetry. exact E2.
  - simpl in E2. injection E2 as -> E2.
    destruct (mid_in_left _ (other_than cDeg) _ _ _ _ _ E1 (Dn up' nw' Fn') eq_refl)
      as [a2 [_ E3]].
    apply (tail_holds_no_names t a2 up' nw' (t' ++ cU :: x) Ht Hup' Fn').
    rewrite <- E2, E3. reflexivity.
Qed.

End Nesting.

(* ================================================================== *)
(** * Blocks of a document and the blocks [findall] reports *)
(* ================================================================== *)

Section BlocksFound.

Lemma skipn_split :
  forall (s : str) q p,
    q <= p -> p <= length s ->
    exists a, skipn q s = a ++ skipn p s /\ length a = p - q.
Proof.
  intros s q p Hq Hp. exists (firstn (p - q) (skipn q s)). split.
  - rewrite <- (firstn_skipn (p - q) (skipn q s)) at 1.
    rewrite skipn_skipn. replace (p - q + q) with p by lia. reflexivity.
  - rewrite length_firstn, length_skipn. lia.
Qed.

(** Of two heads, each followed by the notes, the one that starts first
    ends first. *)
Lemma head_ends_ordered :
  forall s q p u u' z,
    q <= p -> p <= length s ->
    reach student_head (state_at s q) u ->
    reach student_head (state_at s p) u' ->
    m_rest u' = cU :: z ->
    m_pos u <= m_pos u'.
Proof.
  intros s q p u u' z Hq Hp Hu Hu' Hz.
  destruct (reach_spells _ _ _ Hu) as [w [Sw [Ew Pw]]].
  destruct (reach_spells _ _ _ Hu') as [w' [Sw' [Ew' Pw']]].
  cbn [state_at m_rest m_pos] in Ew, Pw, Ew', Pw'.
  destruct (Nat.le_gt_cases (m_pos u) (m_pos u')) as [L|L]; [exact L|exfalso].
  destruct (skipn_split s q p Hq Hp) as [a [Ea La]].
  assert (E : w ++ m_rest u = (a ++ w' ++ [cU]) ++ z).
  { rewrite <- Ew, Ea, Ew', Hz. list_eq. }
  apply app_prefix in E.
  - destruct E as [x [E _]].
    apply (heads_not_nested w w' a x).
    + apply head_spells_shape. exact Sw.
    + apply head_spells_shape. exact Sw'.
    + rewrite E. list_eq.
  - rewrite !length_app. simpl. lia.
Qed.

(** A match of the block pattern lies inside the text. *)
Lemma block_match_inside :
  forall s p e, match_at student_pattern s p = Some e -> p < length s.
Proof.
  intros s p e H. unfold match_at in H. apply match_here_reach in H.
  change student_pattern with
    (RSeq student_head
       (RSeq (RGroup 4 (RSeqs [RLit (py "UE"); RPlus false (RChar CAny)])) notes_end))
    in H.
  apply reach_seq_inv in H. destruct H as [u [Hu _]].
  destruct (reach_spells _ _ _ Hu) as [w [Sw [Ew _]]].
  apply head_spells_shape in Sw.
  destruct Sw as [n [t [-> [[up [nw [-> _]]] _]]]].
  cbn [m_rest] in Ew.
  destruct (Nat.lt_ge_cases p (length s)) as [L|L]; [exact L|].
  rewrite skipn_all2 in Ew by exact L. discriminate Ew.
Qed.

(** Of two matches of the block pattern, the one that starts first ends
    first. *)
Lemma block_ends_ordered :
  forall s q p e e',
    q <= p ->
    match_at student_pattern s q = Some e ->
    match_at student_pattern s p = Some e' ->
    m_pos e <= m_pos e'.
Proof.
  intros s q p e e' Hq He He'.
  pose proof (block_match_inside s q e He) as Lq.
  pose proof (block_match_inside s p e' He') as Lp.
  destruct (student_match_structure s q e (Nat.lt_le_incl _ _ Lq) He)
    as [u [Hu [_ [B1 [B2 [_ First]]]]]].
  destruct (student_match_structure s p e' (Nat.lt_le_incl _ _ Lp) He')
    as [u' [Hu' [[z Hz] [B1' [B2' [End' _]]]]]].
  pose proof (head_ends_ordered s q p u u' _ Hq (Nat.lt_le_incl _ _ Lp) Hu Hu' Hz) as O.
  destruct (Nat.le_gt_cases (m_pos e) (m_pos e')) as [L|L]; [exact L|exfalso].
  apply (First (m_pos e')); [lia | exact L | exact End'].
Qed.

Lemma block_match_nonempty :
  forall s p e, match_at student_pattern s p = Some e -> p < m_pos e.
Proof.
  intros s p e H.
  pose proof (block_match_inside s p e H) as Lp.
  destruct (student_match_structure s p e (Nat.lt_le_incl _ _ Lp) H)
    as [u [Hu [_ [B1 _]]]].
  apply reach_pos_le in Hu. cbn [state_at m_pos] in Hu. lia.
Qed.

Lemma blocks_at_cons :
  forall s p ps,
    blocks_at s (p :: ps) = true ->
    exists e, match_at student_pattern s p = Some e
              /\ blocks_at s ps = true
              /\ Forall (fun p' => m_pos e <= p') ps.
Proof.
  intros s p ps. revert p.
  induction ps as [|p1 ps IH]; intros p H; cbn [blocks_at] in H.
  - destruct (match_at student_pattern s p) as [e|]; [|discriminate].
    exists e. repeat split. constructor.
  - destruct (match_at student_pattern s p) as [e|]; [|discriminate].
    apply andb_true_iff in H. destruct H as [H1 H2].
    apply Nat.leb_le in H1.
    exists e. split; [reflexivity|]. split; [exact H2|].
    constructor; [exact H1|].
    destruct (IH p1 H2) as [e1 [M1 [_ F1]]].
    pose proof (block_match_nonempty s p1 e1 M1) as N1.
    eapply Forall_impl; [|exact F1]. intros x Hx. cbv beta in Hx. lia.
Qed.

Lemma blocks_at_match :
  forall s ps p,
    blocks_at s ps = true -> In p ps ->
    exists e, match_at student_pattern s p = Some e.
Proof.
  intros s. induction ps as [|p0 ps IH]; intros p H Hin; [contradiction|].
  destruct (blocks_at_cons s p0 ps H) as [e [M [H' _]]].
  destruct Hin as [<- | Hin]; [exists e; exact M | exact (IH p H' Hin)].
Qed.

Lemma count_from_cons :
  forall x p ps,
    count_from x (p :: ps) = (if x <=? p then 1 else 0) + count_from x ps.
Proof.
  intros x p ps. unfold count_from. cbn [filter].
  destruct (x <=? p); reflexivity.
Qed.

Lemma count_from_all :
  forall x ps, Forall (fun p => x <= p) ps -> count_from x ps = length ps.
Proof.
  intros x ps F. induction F as [|p ps Hp _ IH]; [reflexivity|].
  rewrite count_from_cons, IH.
  apply Nat.leb_le in Hp. rewrite Hp. reflexivity.
Qed.

(** A match of the block pattern covers one of the positions at most. *)
Lemma one_block_per_match :
  forall s ps,
    blocks_at s ps = true ->
    forall q e,
      match_at student_pattern s q = Some e ->
      count_from q ps <= 1 + count_from (Nat.max (m_pos e) (S q)) ps.
Proof.
  intros s. induction ps as [|p ps IH]; intros H q e M;
    [unfold count_from; simpl; lia|].
  pose proof (block_match_nonempty s q e M) as Nq.
  replace (Nat.max (m_pos e) (S q)) with (m_pos e) in * by lia.
  destruct (blocks_at_cons s p ps H) as [ep [Mp [H' Fp]]].
  specialize (IH H' q e M).
  replace (Nat.max (m_pos e) (S q)) with (m_pos e) in IH by lia.
  rewrite !count_from_cons.
  destruct (Nat.leb_spec q p) as [L1|L1];
    destruct (Nat.leb_spec (m_pos e) p) as [L2|L2]; try lia.
  pose proof (block_ends_ordered s q p e ep L1 M Mp) as O.
  pose proof (block_match_nonempty s p ep Mp) as Np.
  rewrite (count_from_all q ps), (count_from_all (m_pos e) ps); [lia| |];
    (eapply Forall_impl; [|exact Fp]); intros x Hx; cbv beta in Hx; lia.
Qed.

(** [finditer] reports as many blocks as there are positions, or more. *)
Lemma blocks_found :
  forall s ps,
    blocks_at s ps = true -> length ps <= length (finditer student_pattern s).
Proof.
  intros s ps H. apply finditer_count.
  - intros p Hp. destruct (blocks_at_match s ps p H Hp) as [e M].
    apply block_match_inside in M. lia.
  - intros q _ M Hin. destruct (blocks_at_match s ps q H Hin) as [e M'].
    congruence.
  - intros q e _ M. exact (one_block_per_match s ps H q e M).
Qed.

End BlocksFound.

(* ================================================================== *)
(** * The blocks [findall] reports when no block starts outside *)
(* ================================================================== *)

Section BlocksExact.

Variable s : str.

Lemma in_blocks_inv :
  forall ps q, in_blocks s ps q = true -> exists p, In p ps /\ p <= q.
Proof.
  induction ps as [|p ps IH]; intros q H; cbn [in_blocks] in H; [discriminate|].
  apply orb_true_iff in H. destruct H as [H | H].
  - destruct (match_at student_pattern s p); [|discriminate].
    apply andb_true_iff in H. destruct H as [H _]. apply Nat.leb_le in H.
    exists p. split; [left; reflexivity | exact H].
  - destruct (IH q H) as [p' [Hin Hle]]. exists p'. split; [right|]; assumption.
Qed.

Lemma in_blocks_before :
  forall ps q, Forall (fun p => q < p) ps -> in_blocks s ps q = false.
Proof.
  intros ps q F. destruct (in_blocks s ps q) eqn:E; [|reflexivity].
  apply in_blocks_inv in E. destruct E as [p [Hin Hle]].
  rewrite Forall_forall in F. specialize (F p Hin). lia.
Qed.

(** The matches [finditer] lists from [pos] on, [skip] characters being
    covered still, are the matches at [ps], one for one. *)
Lemma finditer_from_exact :
  forall rest pos skip ps,
    skipn pos s = rest -> pos <= length s ->
    blocks_at s ps = true ->
    Forall (fun p => pos + skip <= p) ps ->
    (forall q, pos + skip <= q -> q <= length s ->
               in_blocks s ps q = false -> match_at student_pattern s q = None) ->
    Forall2 (fun m p => mo_start m = p
                        /\ match_at student_pattern s p = Some (mo_end m))
            (finditer_from student_pattern skip pos (prev_at s pos) rest) ps.
Proof.
  induction rest as [|c rest IH]; intros pos skip ps E Hpos B F Out.
  - assert (Hlen : pos = length s).
    { assert (H : length (skipn pos s) = 0) by (rewrite E; reflexivity).
      rewrite length_skipn in H. lia. }
    assert (Hps : ps = []).
    { destruct ps as [|p ps]; [reflexivity|exfalso].
      destruct (blocks_at_cons s p ps B) as [e [M _]].
      apply block_match_inside in M.
      inversion F as [|? ? Hp _]; subst. lia. }
    subst ps. destruct skip as [|skip]; cbn [finditer_from]; [|constructor].
    assert (Em : match_here student_pattern pos (prev_at s pos) []
                 = match_at student_pattern s pos)
      by (unfold match_at; rewrite E; reflexivity).
    rewrite Em, (Out pos); [constructor | lia | lia | reflexivity].
  - apply skipn_cons_inv in E as E'. destruct E' as [E1 [E2 E3]].
    assert (Hprev : prev_at s (S pos) = Some c) by exact E2.
    destruct skip as [|skip]; cbn [finditer_from].
    + assert (Em : match_here student_pattern pos (prev_at s pos) (c :: rest)
                   = match_at student_pattern s pos)
        by (unfold match_at; rewrite E; reflexivity).
      rewrite Em. rewrite Nat.add_0_r in F, Out.
      assert (Hcase : (exists ps', ps = pos :: ps')
                      \/ Forall (fun p => pos < p) ps).
      { destruct ps as [|p ps]; [right; constructor|].
        inversion F as [|? ? Hp Fp]; subst.
        destruct (Nat.eq_dec p pos) as [->|Hne]; [left; eauto|right].
        destruct (blocks_at_cons s p ps B) as [e [M [_ Fe]]].
        pose proof (block_match_nonempty s p e M) as Ne.
        constructor; [lia|].
        eapply Forall_impl; [|exact Fe]. intros x Hx. cbv beta in Hx. lia. }
      destruct Hcase as [[ps' ->] | Fl].
      * destruct (blocks_at_cons s pos ps' B) as [e [M [B' Fe]]].
        pose proof (block_match_nonempty s pos e M) as Ne.
        rewrite M. constructor; [split; [reflexivity|exact M]|].
        rewrite <- Hprev. apply IH; [exact E1 | lia | exact B' | |].
        -- eapply Forall_impl; [|exact Fe]. intros x Hx. cbv beta in Hx. lia.
        -- intros q Hq Hl Hin. apply Out; [lia | exact Hl|].
           cbn [in_blocks]. rewrite M, Hin.
           replace (q <? m_pos e) with false
             by (symmetry; apply Nat.ltb_ge; lia).
           rewrite andb_false_r. reflexivity.
      * rewrite (Out pos); [|lia | lia | apply in_blocks_before; exact Fl].
        rewrite <- Hprev. apply IH; [exact E1 | lia | exact B | |].
        -- eapply Forall_impl; [|exact Fl]. intros x Hx. cbv beta in Hx. lia.
        -- intros q Hq Hl Hin. apply Out; [lia | exact Hl | exact Hin].
    + rewrite <- Hprev. apply IH; [exact E1 | lia | exact B | |].
      * eapply Forall_impl; [|exact F]. intros x Hx. cbv beta in Hx. lia.
      * intros q Hq Hl Hin. apply Out; [lia | exact Hl | exact Hin].
Qed.

Lemma no_block_outside_spec :
  forall ps q,
    no_block_outside s ps = true -> q <= length s ->
    in_blocks s ps q = false -> match_at student_pattern s q = None.
Proof.
  intros ps q H Hq Hin. unfold no_block_outside in H.
  rewrite forallb_forall in H.
  specialize (H q). rewrite Hin in H. cbn [orb] in H.
  destruct (match_at student_pattern s q); [|reflexivity].
  assert (Hs : In q (seq 0 (S (length s)))) by (apply in_seq; lia).
  specialize (H Hs). discriminate H.
Qed.

(** When no block starts outside the blocks at [ps], [finditer] reports
    these blocks and no other. *)
Lemma finditer_exact :
  forall ps,
    blocks_at s ps = true -> no_block_outside s ps = true ->
    Forall2 (fun m p => mo_start m = p
                        /\ match_at student_pattern s p = Some (mo_end m))
            (finditer student_pattern s) ps.
Proof.
  intros ps B N. unfold finditer.
  apply (finditer_from_exact s 0 0 ps eq_refl (Nat.le_0_l _) B).
  - apply Forall_forall. intros x _. lia.
  - intros q _ Hq Hin. exact (no_block_outside_spec ps q N Hq Hin).
Qed.

End BlocksExact.

(* ================================================================== *)
(** * C7: a malformed block among well-formed ones *)
(* ================================================================== *)

Section FirstRun.

(** [_process_student_block] keeps every block [findall] reports. *)
Lemma blocks_all_processed :
  forall content,
    length (d_etudiants (parse_apogee_file content))
    = length (_extract_student_blocks content).
Proof.
  intros content. unfold parse_apogee_file, _extract_student_blocks.
  cbn [d_etudiants].
  induction (finditer student_pattern content) as [|m l IH]; [reflexivity|].
  cbn [map flat_map _process_student_block app length]. rewrite IH. reflexivity.
Qed.

(** An import into a store that can be opened, with no integrity error:
    every student of the document is counted and stored. *)
Lemma import_first_run :
  forall content db,
    exists db',
      import_apogee_data no_violation content (Some db)
      = (Ok (length (d_etudiants (parse_apogee_file content))), Some db')
      /\ extends db db'
      /\ forall st,
           In st (d_etudiants (parse_apogee_file content)) ->
           stored (p_parcours (d_parcours (parse_apogee_file content)))
                  (p_annee (d_parcours (parse_apogee_file content)))
                  (p_semestre (d_parcours (parse_apogee_file content))) st db'.
Proof.
  intros content db. unfold import_apogee_data.
  destruct (d_etudiants (parse_apogee_file content)) as [|st students] eqn:Es.
  - exists db. split; [reflexivity|]. split; [apply extends_refl | contradiction].
  - cbn [get_connection].
    set (p := p_parcours (d_parcours (parse_apogee_file content))).
    set (a := p_annee (d_parcours (parse_apogee_file content))).
    set (s := p_semestre (d_parcours (parse_apogee_file content))).
    change (import_students no_violation p a s (Connection db db []) (st :: students) 0)
      with (import_batch no_violation p a s db (st :: students)).
    rewrite import_batch_loop.
    destruct (import_loop_first p a s (st :: students) db 0) as [db1 [E1 [X1 S1]]].
    rewrite E1. exists db1. split; [reflexivity|]. split; assumption.
Qed.

End FirstRun.

Section FreshNames.

Variables parcours annee semestre : str.

(** The statements of a student whose names the store does not hold
    yet add his identity row at the end of the table. *)
Lemma student_statements_fresh :
  forall db st,
    existsb (same_etudiant (s_nom st) (s_prenom st) parcours annee semestre)
            (etudiants db) = false ->
    exists db1 id,
      student_statements_on no_violation parcours annee semestre db st = Ok db1
      /\ etudiants db1
         = etudiants db
           ++ [EtudiantRow id (s_nom st) (s_prenom st) (s_numero_etudiant st)
                 parcours annee semestre].
Proof.
  intros db st Hnew. unfold student_statements_on, insert_etudiant_on.
  cbn [no_violation].
  destruct (select_after_insert parcours annee semestre db
              (s_nom st) (s_prenom st) (s_numero_etudiant st)) as [id Hid].
  rewrite Hid.
  destruct (insert_notes_ok (s_cours st)
              (insert_or_ignore_etudiant db (s_nom st) (s_prenom st)
                 (s_numero_etudiant st) parcours annee semestre) id)
    as [db1 [E [_ [T _]]]].
  exists db1. eexists. split; [exact E|]. rewrite T.
  unfold insert_or_ignore_etudiant. rewrite Hnew. reflexivity.
Qed.

(** An import of students with pairwise different names, none of which
    the store holds: one identity row more for each of them, with his
    number. *)
Lemma import_loop_fresh :
  forall students db n r db',
    NoDup (map (fun st => (s_nom st, s_prenom st)) students) ->
    (forall st, In st students ->
       existsb (same_etudiant (s_nom st) (s_prenom st) parcours annee semestre)
               (etudiants db) = false) ->
    import_loop no_violation parcours annee semestre db students n = (r, db') ->
    length (etudiants db') = length (etudiants db) + length students
    /\ (exists l, etudiants db' = etudiants db ++ l)
    /\ forall st, In st students ->
         exists e, In e (etudiants db')
                   /\ e_nom e = s_nom st /\ e_prenom e = s_prenom st
                   /\ e_numero_etudiant e = s_numero_etudiant st.
Proof.
  induction students as [|st students IH]; intros db n r db' N Hnew H;
    cbn [import_loop] in H.
  - injection H as _ <-. split; [simpl; lia|].
    split; [exists []; symmetry; apply app_nil_r | contradiction].
  - destruct (student_statements_fresh db st (Hnew st (or_introl eq_refl)))
      as [db1 [id [E T]]].
    rewrite E in H. cbn [map] in N. inversion N as [|? ? Hst N']; subst.
    assert (Hnew1 : forall st', In st' students ->
              existsb (same_etudiant (s_nom st') (s_prenom st')
                         parcours annee semestre) (etudiants db1) = false).
    { intros st' Hin. rewrite T, existsb_app, (Hnew st' (or_intror Hin)).
      cbn [existsb orb]. rewrite orb_false_r.
      destruct (same_etudiant _ _ _ _ _ _) eqn:Hs; [exfalso|reflexivity].
      unfold same_etudiant in Hs. cbn [e_nom e_prenom] in Hs.
      repeat (apply andb_true_iff in Hs; destruct Hs as [Hs ?]).
      apply str_eqb_eq in Hs. apply Hst.
      apply in_map_iff. exists st'. split; [|exact Hin].
      match goal with H0 : str_eqb (s_prenom st) _ = true |- _ =>
        apply str_eqb_eq in H0; rewrite H0 end.
      rewrite Hs. reflexivity. }
    destruct (IH db1 (S n) r db' N' Hnew1 H) as [L [[l El] Hrows]].
    split; [rewrite L, T, length_app; simpl; lia|].
    split; [exists ([EtudiantRow id (s_nom st) (s_prenom st) (s_numero_etudiant st)
                       parcours annee semestre] ++ l);
            rewrite El, T, <- app_assoc; reflexivity|].
    intros st' [<- | Hin]; [|exact (Hrows st' Hin)].
    eexists. split; [rewrite El, T; apply in_or_app; left;
                     apply in_or_app; right; left; reflexivity|].
    repeat split.
Qed.

(** A student that is stored, as the two tables show it. *)
Lemma stored_as_rows :
  forall st db,
    stored parcours annee semestre st db ->
    exists e,
      In e (etudiants db)
      /\ e_nom e = s_nom st /\ e_prenom e = s_prenom st
      /\ e_parcours e = parcours /\ e_annee e = annee /\ e_semestre e = semestre
      /\ forall c, In c (s_cours st) ->
           exists g, In g (notes db)
                     /\ n_etudiant_id g = e_id e /\ n_cours g = cours c.
Proof.
  intros st db [id [Hs Hn]]. unfold select_etudiant_id in Hs.
  destruct (List.find _ _) as [e|] eqn:F; [|discriminate].
  injection Hs as <-. apply find_some in F. destruct F as [He Hk].
  unfold same_etudiant in Hk.
  apply andb_true_iff in Hk. destruct Hk as [Hk K5].
  apply andb_true_iff in Hk. destruct Hk as [Hk K4].
  apply andb_true_iff in Hk. destruct Hk as [Hk K3].
  apply andb_true_iff in Hk. destruct Hk as [K1 K2].
  apply str_eqb_eq in K1, K2, K3, K4, K5.
  exists e. split; [exact He|]. repeat (split; [assumption|]).
  intros c Hc. specialize (Hn c Hc). apply existsb_exists in Hn.
  destruct Hn as [g [Hg Hk]]. unfold same_note in Hk.
  apply andb_true_iff in Hk. destruct Hk as [G1 G2].
  apply Z.eqb_eq in G1. apply str_eqb_eq in G2.
  exists g. repeat split; assumption.
Qed.

End FreshNames.

Section BlocksParsed.

Variable content : str.

(** The students [parse_apogee_file] returns, block by block. *)
Lemma parsed_students :
  d_etudiants (parse_apogee_file content)
  = map (fun m => Student (strip (group m 3)) (strip (group m 1))
                          (strip (group m 2)) (_extract_courses (group m 4)))
        (finditer student_pattern content).
Proof.
  unfold parse_apogee_file, _extract_student_blocks. cbn [d_etudiants].
  induction (finditer student_pattern content) as [|m l IH]; [reflexivity|].
  cbn [map flat_map _process_student_block app]. rewrite IH. reflexivity.
Qed.

Lemma block_of_match :
  forall m p,
    match_at student_pattern content p = Some (mo_end m) ->
    block_at content p = Some [group m 1; group m 2; group m 3; group m 4].
Proof. intros m p M. unfold block_at. rewrite M. reflexivity. Qed.

Lemma parsed_names :
  forall ps,
    Forall2 (fun m p => mo_start m = p
                        /\ match_at student_pattern content p = Some (mo_end m))
            (finditer student_pattern content) ps ->
    map (fun st => (s_nom st, s_prenom st)) (d_etudiants (parse_apogee_file content))
    = map (block_names content) ps.
Proof.
  intros ps. rewrite parsed_students, map_map. cbn [s_nom s_prenom].
  generalize (finditer student_pattern content). intros ms H.
  induction H as [|m p l ps' [_ M] _ IH]; [reflexivity|].
  cbn [map]. rewrite IH. f_equal.
  unfold block_names. rewrite (block_of_match m p M). reflexivity.
Qed.

Lemma parsed_at :
  forall ps,
    Forall2 (fun m p => mo_start m = p
                        /\ match_at student_pattern content p = Some (mo_end m))
            (finditer student_pattern content) ps ->
    forall p, In p ps ->
      exists nom prenom numero notes_block,
        block_at content p = Some [nom; prenom; numero; notes_block]
        /\ In (Student (strip numero) (strip nom) (strip prenom)
                       (_extract_courses notes_block))
              (d_etudiants (parse_apogee_file content)).
Proof.
  intros ps. rewrite parsed_students.
  generalize (finditer student_pattern content). intros ms H.
  induction H as [|m p0 l ps' [_ M] _ IH]; intros p Hin; [contradiction|].
  destruct Hin as [<- | Hin].
  - exists (group m 1), (group m 2), (group m 3), (group m 4).
    split; [exact (block_of_match m p0 M) | left; reflexivity].
  - destruct (IH p Hin) as [a [b [c [d [Hb Hs]]]]].
    exists a, b, c, d. split; [exact Hb | right; exact Hs].
Qed.

Lemma parsed_count :
  forall ps,
    Forall2 (fun m p => mo_start m = p
                        /\ match_at student_pattern content p = Some (mo_end m))
            (finditer student_pattern content) ps ->
    length (d_etudiants (parse_apogee_file content)) = length ps.
Proof.
  intros ps H. rewrite parsed_students, length_map.
  exact (Forall2_length H).
Qed.

End BlocksParsed.

(** ** C7: the claim as it is written *)


(** A malformed block that is two names on a line runs into the block
    after it: the block pattern matches from these names on, no block is
    reported at the place of the well-formed one, and the student the
    document is parsed to carries the names of the two. *)
Lemma bare_names_run_on :
  blocks_at document_with_bare_names [12] = true
  /\ no_block_outside document_with_bare_names [12] = false
  /\ map mo_start (finditer student_pattern document_with_bare_names) = [0]
  /\ map (fun st => (s_nom st, s_prenom st))
         (d_etudiants (parse_apogee_file document_with_bare_names))
     = [(py "MARTIN", py "Paul" ++ NL ++ py "DURAND Anne")].
Proof. repeat split; vm_compute; reflexivity. Qed.



(* ================================================================== *)
(** * The import never raises on a store that can be opened *)
(* ================================================================== *)

Section ImportOutcome.

Variable violates : database -> insert_stmt -> bool.
Variables parcours annee semestre : str.

Lemma insert_notes_outcome :
  forall cs db id,
    (exists db', insert_notes_on violates db id cs = Ok db')
    \/ insert_notes_on violates db id cs = Raise IntegrityError.
Proof.
  induction cs as [|c cs IH]; intros db id; cbn [insert_notes_on].
  - left. exists db. reflexivity.
  - unfold insert_note_on. destruct (violates db (InsertNote id c)).
    + right. reflexivity.
    + apply IH.
Qed.

(** The statements of one student succeed or meet an integrity error:
    the row looked up after INSERT OR IGNORE is always there. *)
Lemma student_statements_outcome :
  forall db st,
    (exists db', student_statements_on violates parcours annee semestre db st = Ok db')
    \/ student_statements_on violates parcours annee semestre db st
       = Raise IntegrityError.
Proof.
  intros db st. unfold student_statements_on, insert_etudiant_on.
  destruct (violates db _); [right; reflexivity|].
  destruct (select_after_insert parcours annee semestre db (s_nom st) (s_prenom st)
              (s_numero_etudiant st)) as [id E].
  rewrite E. apply insert_notes_outcome.
Qed.

Lemma import_loop_total :
  forall students db n,
    exists n' db',
      import_loop violates parcours annee semestre db students n = (Ok n', db')
      /\ n <= n' /\ n' <= n + length students.
Proof.
  induction students as [|st students IH]; intros db n; cbn [import_loop].
  - exists n, db. split; [reflexivity | simpl; lia].
  - destruct (student_statements_outcome db st) as [[db1 E] | E]; rewrite E.
    + destruct (IH db1 (S n)) as [n' [db' [E' [L1 L2]]]].
      exists n', db'. split; [exact E' | simpl; lia].
    + destruct (IH db n) as [n' [db' [E' [L1 L2]]]].
      exists n', db'. split; [exact E' | simpl; lia].
Qed.

End ImportOutcome.


(* ================================================================== *)
(** * The operations keep the store consistent *)
(* ================================================================== *)

Section Consistency.

Lemma fold_left_max_ge :
  forall ids a, (a <= fold_left Z.max ids a)%Z
                /\ forall x, In x ids -> (x <= fold_left Z.max ids a)%Z.
Proof.
  induction ids as [|i ids IH]; intros a; simpl.
  - split; [lia | contradiction].
  - destruct (IH (Z.max a i)) as [H1 H2]. split; [lia|].
    intros x [<- | Hx]; [lia | apply H2; exact Hx].
Qed.

(** AUTOINCREMENT draws a rowid no row has. *)
Lemma next_rowid_fresh : forall seq ids, ~ In (next_rowid seq ids) ids.
Proof.
  intros seq ids H. unfold next_rowid in H.
  apply (proj2 (fold_left_max_ge ids seq)) in H. lia.
Qed.

Lemma NoDup_snoc :
  forall (A : Type) (l : list A) x, NoDup l -> ~ In x l -> NoDup (l ++ [x]).
Proof.
  intros A l x Hl Hx. apply NoDup_app; [exact Hl | repeat constructor; intros [] |].
  intros y Hy [<- | []]. exact (Hx Hy).
Qed.

Lemma same_etudiant_key :
  forall nom prenom parcours annee semestre r,
    same_etudiant nom prenom parcours annee semestre r = true
    <-> etudiant_key r = (nom, prenom, parcours, annee, semestre).
Proof.
  intros nom prenom parcours annee semestre r. unfold same_etudiant, etudiant_key.
  rewrite !andb_true_iff, !str_eqb_eq. split.
  - intros [[[[-> ->] ->] ->] ->]. reflexivity.
  - intros E. injection E as -> -> -> -> ->. repeat split.
Qed.

Lemma same_note_key :
  forall id name g, same_note id name g = true <-> note_key g = (id, name).
Proof.
  intros id name g. unfold same_note, note_key.
  rewrite andb_true_iff, Z.eqb_eq, str_eqb_eq. split.
  - intros [-> ->]. reflexivity.
  - intros E. injection E as -> ->. split; reflexivity.
Qed.

Lemma existsb_false_key :
  forall (A K : Type) (f : A -> bool) (key : A -> K) (k : K) l,
    (forall x, f x = true <-> key x = k) ->
    existsb f l = false -> ~ In k (map key l).
Proof.
  intros A K f key k l Hf E Hin. apply in_map_iff in Hin.
  destruct Hin as [x [Hk Hx]].
  assert (T : existsb f l = true).
  { apply existsb_exists. exists x. split; [exact Hx | apply Hf; exact Hk]. }
  congruence.
Qed.

Lemma insert_etudiant_consistent :
  forall db nom prenom num parcours annee semestre,
    consistent db ->
    consistent (insert_or_ignore_etudiant db nom prenom num parcours annee semestre).
Proof.
  intros db nom prenom num parcours annee semestre [I1 [K1 [I2 [K2 R]]]].
  unfold insert_or_ignore_etudiant.
  destruct (existsb _ (etudiants db)) eqn:E.
  - repeat split; assumption.
  - unfold consistent. cbn [etudiants notes]. rewrite !map_app. cbn [map].
    split; [|split; [|split; [|split]]]; try assumption.
    + apply NoDup_snoc; [exact I1 | apply next_rowid_fresh].
    + apply NoDup_snoc; [exact K1|]. unfold etudiant_key at 2. cbn.
      eapply existsb_false_key; [|exact E].
      intros x. apply same_etudiant_key.
    + intros g Hg. destruct (R g Hg) as [e [He Ee]].
      exists e. split; [apply in_or_app; left; exact He | exact Ee].
Qed.

Lemma insert_note_consistent :
  forall db id c,
    consistent db ->
    (exists e, In e (etudiants db) /\ e_id e = id) ->
    consistent (insert_or_ignore_note db id c).
Proof.
  intros db id c [I1 [K1 [I2 [K2 R]]]] Hid.
  unfold insert_or_ignore_note.
  destruct (existsb _ (notes db)) eqn:E.
  - repeat split; assumption.
  - unfold consistent. cbn [etudiants notes]. rewrite !map_app. cbn [map].
    split; [|split; [|split; [|split]]]; try assumption.
    + apply NoDup_snoc; [exact I2 | apply next_rowid_fresh].
    + apply NoDup_snoc; [exact K2|]. unfold note_key at 2. cbn.
      eapply existsb_false_key; [|exact E].
      intros x. apply same_note_key.
    + intros g Hg. apply in_app_or in Hg. destruct Hg as [Hg | [<- | []]].
      * apply R. exact Hg.
      * exact Hid.
Qed.

Variable violates : database -> insert_stmt -> bool.
Variables parcours annee semestre : str.

Lemma insert_notes_consistent :
  forall cs db id db',
    consistent db ->
    (exists e, In e (etudiants db) /\ e_id e = id) ->
    insert_notes_on violates db id cs = Ok db' ->
    consistent db'.
Proof.
  induction cs as [|c cs IH]; intros db id db' C Hid H; cbn [insert_notes_on] in H.
  - injection H as <-. exact C.
  - unfold insert_note_on in H.
    destruct (violates db (InsertNote id c)); [discriminate|].
    apply (IH (insert_or_ignore_note db id c) id db').
    + apply insert_note_consistent; assumption.
    + destruct Hid as [e [He Ee]]. exists e. split; [|exact Ee].
      unfold insert_or_ignore_note. destruct (existsb _ _); exact He.
    + exact H.
Qed.

Lemma student_statements_consistent :
  forall db st db',
    consistent db ->
    student_statements_on violates parcours annee semestre db st = Ok db' ->
    consistent db'.
Proof.
  intros db st db' C H. unfold student_statements_on, insert_etudiant_on in H.
  destruct (violates db _); [discriminate|].
  destruct (select_etudiant_id _ _ _ _ _ _) as [id|] eqn:E; [|discriminate].
  eapply insert_notes_consistent; [| |exact H].
  - apply insert_etudiant_consistent. exact C.
  - unfold select_etudiant_id in E.
    destruct (List.find _ _) as [e|] eqn:F; [|discriminate].
    injection E as <-. apply find_some in F. exists e. split; [apply F | reflexivity].
Qed.

Lemma import_loop_consistent :
  forall students db n r db',
    consistent db ->
    import_loop violates parcours annee semestre db students n = (r, db') ->
    consistent db'.
Proof.
  induction students as [|st students IH]; intros db n r db' C H;
    cbn [import_loop] in H.
  - injection H as _ <-. exact C.
  - destruct (student_statements_on violates parcours annee semestre db st)
      as [db1|e] eqn:E.
    + eapply IH; [|exact H]. eapply student_statements_consistent; eassumption.
    + destruct e; try (injection H as _ <-; exact C).
      eapply IH; eassumption.
Qed.

End Consistency.

(** X2. For every document, every consistent content of the store and
    every way the engine may answer with integrity errors:
    [import_apogee_data] leaves the store consistent.  Ids and keys stay
    without duplicates, and every grade row it adds carries the id of a
    student row that is there, though no foreign key is enforced. *)
Theorem import_keeps_consistent :
  forall (violates : database -> insert_stmt -> bool) (content : str)
         (db : database) (r : result nat) (db' : database),
    consistent db ->
    import_apogee_data violates content (Some db) = (r, Some db') ->
    consistent db'.
Proof.
  intros violates content db r db' C H. unfold import_apogee_data in H.
  destruct (d_etudiants (parse_apogee_file content)) as [|st students] eqn:Es.
  - injection H as _ <-. exact C.
  - cbn [get_connection] in H.
    set (p := p_parcours (d_parcours (parse_apogee_file content))) in H.
    set (a := p_annee (d_parcours (parse_apogee_file content))) in H.
    set (s := p_semestre (d_parcours (parse_apogee_file content))) in H.
    change (import_students violates p a s (Connection db db []) (st :: students) 0)
      with (import_batch violates p a s db (st :: students)) in H.
    rewrite import_batch_loop in H.
    destruct (import_loop violates p a s db (st :: students) 0) as [r1 db1] eqn:E.
    injection H as _ <-.
    eapply import_loop_consistent; eassumption.
Qed.

Lemma consistent_empty : consistent empty_db.
Proof.
  unfold consistent, empty_db. cbn.
  repeat split; try constructor. intros g [].
Qed.

Lemma import_keeps_consistent_witness :
  consistent empty_db
  /\ consistent
       (match snd (import_apogee_data no_violation document_with_malformed_block
                     (Some empty_db)) with
        | Some db' => db'
        | None => empty_db
        end).
Proof.
  split; [exact consistent_empty|].
  destruct (import_apogee_data no_violation document_with_malformed_block
              (Some empty_db)) as [r [db'|]] eqn:E.
  - cbn [snd].
    exact (import_keeps_consistent no_violation document_with_malformed_block
             empty_db r db' consistent_empty E).
  - vm_compute in E. discriminate E.
Defined.

Section DeleteConsistency.

Lemma NoDup_map_filter :
  forall (A B : Type) (f : A -> B) (p : A -> bool) l,
    NoDup (map f l) -> NoDup (map f (filter p l)).
Proof.
  intros A B f p l. induction l as [|x l IH]; intros N; [constructor|].
  cbn [map] in N. inversion N as [|? ? Hx Hl]; subst. cbn [filter].
  destruct (p x); [|apply IH; exact Hl].
  cbn [map]. constructor; [|apply IH; exact Hl].
  intros Hin. apply Hx. apply in_map_iff in Hin. destruct Hin as [y [Ey Hy]].
  apply filter_In in Hy. apply in_map_iff. exists y. split; [exact Ey | apply Hy].
Qed.

(** Deleting the students a condition selects, and the grade rows that
    carry their ids. *)
Lemma delete_rows_consistent :
  forall (w : etudiant_row -> bool) db s1 s2,
    consistent db ->
    consistent
      (Database
         (filter (fun e => negb (w e)) (etudiants db))
         (filter (fun g => negb (mem_Z (n_etudiant_id g)
                                   (map e_id (filter w (etudiants db)))))
                 (notes db))
         s1 s2).
Proof.
  intros w db s1 s2 [I1 [K1 [I2 [K2 R]]]].
  unfold consistent. cbn [etudiants notes].
  split; [apply NoDup_map_filter; exact I1|].
  split; [apply NoDup_map_filter; exact K1|].
  split; [apply NoDup_map_filter; exact I2|].
  split; [apply NoDup_map_filter; exact K2|].
  intros g Hg. apply filter_In in Hg. destruct Hg as [Hg Hk].
  destruct (R g Hg) as [e [He Ee]]. exists e. split; [|exact Ee].
  apply filter_In. split; [exact He|].
  destruct (w e) eqn:W; [|reflexivity]. exfalso.
  apply negb_true_iff in Hk.
  assert (T : mem_Z (n_etudiant_id g) (map e_id (filter w (etudiants db))) = true).
  { unfold mem_Z. apply existsb_exists. exists (e_id e). split.
    - apply in_map. apply filter_In. split; assumption.
    - apply Z.eqb_eq. symmetry. exact Ee. }
  congruence.
Qed.

End DeleteConsistency.

(** X3. For every set of criteria and every consistent content of the
    store, [delete_data] leaves the store consistent: the grade rows of
    the students it deletes go with them, so no grade row is left
    without its student. *)
Theorem delete_keeps_consistent :
  forall (max_variables : nat) (cr : criteria) (db : database)
         (r : result nat) (db' : database),
    consistent db ->
    delete_data max_variables cr (Some db) = (r, Some db') ->
    consistent db'.
Proof.
  intros limit cr db r db' C H. unfold delete_data in H. cbn [get_connection] in H.
  destruct (no_conditions cr); [injection H as _ <-; exact C|].
  cbn [c_work close] in H.
  destruct (map e_id (filter (where_clause cr) (etudiants db))) as [|i ids] eqn:Eids;
    [injection H as _ <-; exact C|].
  destruct (limit <? length (i :: ids)); [injection H as _ <-; exact C|].
  rewrite <- Eids in H. injection H as _ <-.
  cbn [commit set_work c_work c_file].
  apply delete_rows_consistent. exact C.
Qed.

Lemma consistent_sample : consistent sample_store.
Proof.
  unfold consistent, sample_store. cbn [etudiants notes map].
  split; [|split; [|split; [|split]]].
  - constructor; [intros [H | []]; discriminate H|].
    constructor; [intros [] | constructor].
  - constructor; [intros [H | []]; vm_compute in H; discriminate H|].
    constructor; [intros [] | constructor].
  - constructor; [intros [H | []]; discriminate H|].
    constructor; [intros [] | constructor].
  - constructor; [intros [H | []]; vm_compute in H; discriminate H|].
    constructor; [intros [] | constructor].
  - intros g [<- | [<- | []]].
    + eexists. split; [left; reflexivity | reflexivity].
    + eexists. split; [right; left; reflexivity | reflexivity].
Qed.

Lemma delete_keeps_consistent_witness :
  consistent sample_store
  /\ consistent
       (match snd (delete_data 999 sample_criteria (Some sample_store)) with
        | Some db' => db'
        | None => empty_db
        end).
Proof.
  split; [exact consistent_sample|].
  destruct (delete_data 999 sample_criteria (Some sample_store)) as [r [db'|]] eqn:E.
  - cbn [snd].
    exact (delete_keeps_consistent 999 sample_criteria sample_store r db'
             consistent_sample E).
  - vm_compute in E. discriminate E.
Defined.

(* ================================================================== *)
(** * [delete_data], for any criteria *)
(* ================================================================== *)

Section DeleteOutcome.

Lemma filter_filter_negb :
  forall (A : Type) (p : A -> bool) l,
    filter p (filter (fun x => negb (p x)) l) = [].
Proof.
  intros A p l. induction l as [|x l IH]; [reflexivity|].
  cbn [filter]. destruct (p x) eqn:E; cbn [negb]; [exact IH|].
  cbn [filter]. rewrite E. exact IH.
Qed.

(** What [delete_data] does on a store that can be opened. *)
Lemma delete_outcome :
  forall max_variables cr db,
    exists n db',
      delete_data max_variables cr (Some db) = (Ok n, Some db')
      /\ (no_conditions cr = true -> db' = db /\ n = 0)
      /\ (filter (where_clause cr) (etudiants db) = [] -> db' = db /\ n = 0)
      /\ (max_variables < length (filter (where_clause cr) (etudiants db)) ->
          db' = db /\ n = 0)
      /\ (no_conditions cr = false ->
          length (filter (where_clause cr) (etudiants db)) <= max_variables ->
          etudiants db' = filter (fun e => negb (where_clause cr e)) (etudiants db)
          /\ notes db'
             = filter (fun g => negb (mem_Z (n_etudiant_id g)
                                 (map e_id (filter (where_clause cr) (etudiants db)))))
                      (notes db)
          /\ n = length (filter (where_clause cr) (etudiants db))).
Proof.
  intros limit cr db. unfold delete_data.
  cbn [get_connection c_work close rollback c_file].
  destruct (no_conditions cr) eqn:Ec.
  - exists 0, db. split; [reflexivity|]. split; [auto|]. split; [auto|].
    split; [auto | discriminate].
  - destruct (filter (where_clause cr) (etudiants db)) as [|e l] eqn:Ef.
    + cbn [map]. exists 0, db. split; [reflexivity|]. split; [discriminate|].
      split; [auto|]. split; [auto|]. intros _ _. split; [|split; [|reflexivity]].
      * symmetry. apply filter_none_negb_all. exact Ef.
      * symmetry. apply filter_all_true. reflexivity.
    + cbn [map length]. rewrite length_map.
      destruct (Nat.ltb_spec limit (S (length l))) as [Hlt | Hle].
      * exists 0, db. split; [reflexivity|]. split; [discriminate|].
        split; [discriminate|]. split; [auto|]. intros _ H. lia.
      * eexists. eexists. split; [reflexivity|].
        split; [discriminate|]. split; [discriminate|].
        split; [intros H; lia|]. intros _ _.
        cbn [commit set_work c_work c_file etudiants notes]. repeat split.
Qed.

End DeleteOutcome.

(** X4. For every limit of the engine, every set of criteria and every
    content of the store: [delete_data] deletes nothing and returns 0
    when the dictionary of criteria is empty (it does not take "no
    criterion" for "everything"), and also when more students match than
    the engine accepts host parameters in a statement; a second call with
    the same criteria returns 0 and leaves the store as the first call
    left it; and when the students that match are no more than that
    limit, no student that matches is left after the first call. *)
Theorem delete_twice :
  forall (max_variables : nat) (cr : criteria) (db : database),
    exists n db',
      delete_data max_variables cr (Some db) = (Ok n, Some db')
      /\ (no_conditions cr = true -> db' = db /\ n = 0)
      /\ (max_variables < length (filter (where_clause cr) (etudiants db)) ->
          db' = db /\ n = 0)
      /\ delete_data max_variables cr (Some db') = (Ok 0, Some db')
      /\ (no_conditions cr = false ->
          length (filter (where_clause cr) (etudiants db)) <= max_variables ->
          n = length (filter (where_clause cr) (etudiants db))
          /\ forall e, In e (etudiants db') -> where_clause cr e = false).
Proof.
  intros limit cr db.
  destruct (delete_outcome limit cr db) as [n [db' [E [H0 [_ [Hmany H1]]]]]].
  exists n, db'. split; [exact E|]. split; [exact H0|]. split; [exact Hmany|].
  destruct (no_conditions cr) eqn:Ec.
  - destruct (H0 eq_refl) as [-> ->]. split; [exact E | discriminate].
  - destruct (Nat.le_gt_cases
                (length (filter (where_clause cr) (etudiants db))) limit)
      as [Hle | Hgt].
    + destruct (H1 eq_refl Hle) as [He [_ Hn]].
      assert (Hnone : filter (where_clause cr) (etudiants db') = []).
      { rewrite He. apply filter_filter_negb. }
      split.
      * destruct (delete_outcome limit cr db') as [n2 [db2 [E2 [_ [H2 _]]]]].
        destruct (H2 Hnone) as [-> ->]. exact E2.
      * intros _ _. split; [exact Hn|].
        intros e Hin. destruct (where_clause cr e) eqn:W; [|reflexivity].
        assert (Hf : In e (filter (where_clause cr) (etudiants db')))
          by (apply filter_In; split; assumption).
        rewrite Hnone in Hf. contradiction.
    + destruct (Hmany Hgt) as [-> ->]. split; [exact E|].
      intros _ Hle. lia.
Qed.

(* ================================================================== *)
(** * What the queries find after an import *)
(* ================================================================== *)

Section Lookup.

Lemma insert_by_name_In :
  forall e l x, In x (insert_by_name e l) <-> x = e \/ In x l.
Proof.
  intros e l x. induction l as [|y l IH]; cbn [insert_by_name].
  - simpl. intuition.
  - destruct (if str_eqb (e_nom e) (e_nom y)
              then str_leb (e_prenom e) (e_prenom y)
              else str_leb (e_nom e) (e_nom y)).
    + simpl. intuition.
    + simpl. rewrite IH. intuition.
Qed.

Lemma sorted_by_name_In :
  forall l x, In x (fold_right insert_by_name [] l) <-> In x l.
Proof.
  induction l as [|e l IH]; intros x; cbn [fold_right]; [reflexivity|].
  rewrite insert_by_name_In, IH. simpl. intuition.
Qed.

Lemma insert_sorted_In :
  forall x l y, In y (insert_sorted x l) <-> y = x \/ In y l.
Proof.
  intros x l y. induction l as [|z l IH]; cbn [insert_sorted].
  - simpl. intuition.
  - destruct (str_eqb x z) eqn:E.
    + apply str_eqb_eq in E. subst z. simpl. intuition.
    + destruct (str_leb x z).
      * simpl. intuition.
      * simpl. rewrite IH. intuition.
Qed.

Lemma distinct_sorted_In :
  forall l y, In y (distinct_sorted l) <-> In y l.
Proof.
  unfold distinct_sorted.
  induction l as [|x l IH]; intros y; cbn [fold_right]; [reflexivity|].
  rewrite insert_sorted_In, IH. simpl. intuition.
Qed.

(** A filter argument lets through the value it names. *)
Lemma filter_ok_same : forall v, filter_ok (Some v) v = true.
Proof. intros [|c v]; [reflexivity|]. apply str_eqb_refl. Qed.

Lemma join_In :
  forall db e g,
    In e (etudiants db) -> In g (notes db) -> n_etudiant_id g = e_id e ->
    In (e, g) (join db).
Proof.
  intros db e g He Hg E. unfold join. apply in_flat_map. exists e.
  split; [exact He|]. apply in_map. apply filter_In. split; [exact Hg|].
  apply Z.eqb_eq. exact E.
Qed.

Lemma join_In_inv :
  forall db e g,
    In (e, g) (join db) ->
    In e (etudiants db) /\ In g (notes db) /\ n_etudiant_id g = e_id e.
Proof.
  intros db e g H. unfold join in H. apply in_flat_map in H.
  destruct H as [e' [He H]]. apply in_map_iff in H. destruct H as [g' [E Hg]].
  injection E as -> ->. apply filter_In in Hg. destruct Hg as [Hg Hid].
  apply Z.eqb_eq in Hid. auto.
Qed.

(** A student that is stored, as the tables show it. *)
Lemma stored_rows :
  forall parcours annee semestre st db,
    stored parcours annee semestre st db ->
    exists e,
      In e (etudiants db)
      /\ e_nom e = s_nom st /\ e_prenom e = s_prenom st
      /\ e_parcours e = parcours /\ e_annee e = annee /\ e_semestre e = semestre
      /\ forall c, In c (s_cours st) ->
           exists g, In g (notes db)
                     /\ n_etudiant_id g = e_id e /\ n_cours g = cours c.
Proof.
  intros parcours annee semestre st db [id [Hs Hn]].
  unfold select_etudiant_id in Hs.
  destruct (List.find _ _) as [e|] eqn:F; [|discriminate].
  injection Hs as <-. apply find_some in F. destruct F as [He Hk].
  apply same_etudiant_key in Hk. unfold etudiant_key in Hk.
  injection Hk as E1 E2 E3 E4 E5.
  exists e. repeat split; try assumption.
  intros c Hc. specialize (Hn c Hc). apply existsb_exists in Hn.
  destruct Hn as [g [Hg Hk]]. apply same_note_key in Hk.
  unfold note_key in Hk. injection Hk as K1 K2.
  exists g. repeat split; assumption.
Qed.

End Lookup.

(** X5. For every document and every content of the store, after
    [import_apogee_data] (on the schema of [initialize_db], where the
    two INSERT OR IGNORE raise no integrity error) the queries find
    what was imported.  For each student of the document, with the
    year, track and semester of the document as filters: [get_students]
    lists a row with the student's names; [get_student_data] returns,
    for each course of the student, a row with that course; and the
    year, the track and the semester are among the values
    [get_available_years], [get_available_parcours] and
    [get_available_semestres] list. *)
Theorem import_then_lookup :
  forall (content : str) (db : database),
    let parcours := p_parcours (d_parcours (parse_apogee_file content)) in
    let annee := p_annee (d_parcours (parse_apogee_file content)) in
    let semestre := p_semestre (d_parcours (parse_apogee_file content)) in
    exists n db',
      import_apogee_data no_violation content (Some db) = (Ok n, Some db')
      /\ forall st,
           In st (d_etudiants (parse_apogee_file content)) ->
           (exists rows,
               get_students (Some annee) (Some parcours) (Some semestre) (Some db')
               = Ok rows
               /\ exists e, In e rows
                            /\ e_nom e = s_nom st /\ e_prenom e = s_prenom st)
           /\ (exists rows,
                  get_student_data (s_nom st) (s_prenom st)
                    (Some annee) (Some parcours) (Some semestre) (Some db')
                  = Ok rows
                  /\ forall c, In c (s_cours st) ->
                       exists en, In en rows /\ n_cours (snd en) = cours c)
           /\ (exists years, get_available_years (Some db') = Ok years
                             /\ In annee years)
           /\ (exists l, get_available_parcours (Some annee) (Some db') = Ok l
                         /\ In parcours l)
           /\ (exists l, get_available_semestres (Some annee) (Some parcours)
                           (Some db') = Ok l
                         /\ In semestre l).
Proof.
  intros content db parcours annee semestre.
  destruct (import_first_run content db) as [db' [E [_ S]]].
  exists (length (d_etudiants (parse_apogee_file content))), db'.
  split; [exact E|]. intros st Hst.
  destruct (stored_rows _ _ _ st db' (S st Hst))
    as [e [He [E1 [E2 [E3 [E4 [E5 Hn]]]]]]].
  fold parcours in E3. fold annee in E4. fold semestre in E5.
  assert (Hok : etudiant_ok (Some annee) (Some parcours) (Some semestre) e = true).
  { unfold etudiant_ok. rewrite E3, E4, E5, !filter_ok_same. reflexivity. }
  split; [|split; [|split; [|split]]].
  - eexists. split; [reflexivity|]. exists e. split; [|split; assumption].
    apply sorted_by_name_In. apply filter_In. split; assumption.
  - eexists. split; [reflexivity|]. intros c Hc.
    destruct (Hn c Hc) as [g [Hg [G1 G2]]].
    exists (e, g). split; [|exact G2].
    apply filter_In. split; [apply join_In; assumption|].
    cbn [fst]. rewrite E1, E2, !str_eqb_refl, Hok. reflexivity.
  - eexists. split; [reflexivity|]. apply distinct_sorted_In.
    rewrite <- E4. apply in_map. exact He.
  - eexists. split; [reflexivity|]. apply distinct_sorted_In.
    rewrite <- E3. apply in_map. apply filter_In. split; [exact He|].
    rewrite E4. apply filter_ok_same.
  - eexists. split; [reflexivity|]. apply distinct_sorted_In.
    rewrite <- E5. apply in_map. apply filter_In. split; [exact He|].
    rewrite E3, E4, !filter_ok_same. reflexivity.
Qed.

(* ================================================================== *)
(** * Deleting the data of a document, then importing it *)
(* ================================================================== *)

Section Replace.

Variables annee parcours semestre : str.
Variable students : list student.

Lemma NoDup_map_inj :
  forall (A B : Type) (f : A -> B) l x y,
    NoDup (map f l) -> In x l -> In y l -> f x = f y -> x = y.
Proof.
  intros A B f l x y. induction l as [|z l IH]; intros N Hx Hy E; [contradiction|].
  cbn [map] in N. inversion N as [|? ? Hz Hl]; subst.
  destruct Hx as [-> | Hx]; destruct Hy as [-> | Hy].
  - reflexivity.
  - exfalso. apply Hz. rewrite E. apply in_map. exact Hy.
  - exfalso. apply Hz. rewrite <- E. apply in_map. exact Hx.
  - apply IH; assumption.
Qed.

(** The grade rows the loop over the courses adds. *)
Lemma insert_notes_rows :
  forall cs db id db',
    insert_notes_on no_violation db id cs = Ok db' ->
    etudiants db' = etudiants db
    /\ exists new,
         notes db' = notes db ++ new
         /\ forall g, In g new ->
              n_etudiant_id g = id
              /\ exists c, In c cs
                           /\ n_ue g = ue c /\ n_cours g = cours c
                           /\ n_note g = note c /\ n_est_ue g = est_ue c.
Proof.
  induction cs as [|c cs IH]; intros db id db' H; cbn [insert_notes_on] in H.
  - injection H as <-. split; [reflexivity|]. exists [].
    rewrite app_nil_r. split; [reflexivity | contradiction].
  - unfold insert_note_on, no_violation in H.
    destruct (IH _ _ _ H) as [E1 [new [E2 Hnew]]].
    unfold insert_or_ignore_note in E1, E2.
    destruct (existsb (same_note id (cours c)) (notes db)).
    + cbn [etudiants notes] in E1, E2. split; [exact E1|].
      exists new. split; [exact E2|].
      intros g Hg. destruct (Hnew g Hg) as [G1 [c' [Hc' G2]]].
      split; [exact G1|]. exists c'. split; [right; exact Hc' | exact G2].
    + cbn [etudiants notes] in E1, E2. split; [exact E1|].
      eexists. rewrite <- app_assoc in E2. split; [exact E2|].
      intros g [<- | Hg].
      * cbn. split; [reflexivity|]. exists c. repeat split. left. reflexivity.
      * destruct (Hnew g Hg) as [G1 [c' [Hc' G2]]].
        split; [exact G1|]. exists c'. split; [right; exact Hc' | exact G2].
Qed.

Lemma grown_refl : forall db, grown annee parcours semestre students db db.
Proof.
  intros db. exists [], []. rewrite !app_nil_r.
  repeat split; contradiction.
Qed.

Lemma grown_step :
  forall db0 db st db',
    grown annee parcours semestre students db0 db ->
    In st students ->
    student_statements_on no_violation parcours annee semestre db st = Ok db' ->
    grown annee parcours semestre students db0 db'.
Proof.
  intros db0 db st db' [newE [newN [GE [GN [HE HN]]]]] Hst H.
  unfold student_statements_on, insert_etudiant_on, no_violation in H.
  set (db1 := insert_or_ignore_etudiant db (s_nom st) (s_prenom st)
                (s_numero_etudiant st) parcours annee semestre) in H.
  destruct (select_etudiant_id db1 _ _ _ _ _) as [id|] eqn:Es; [|discriminate].
  destruct (insert_notes_rows _ _ _ _ H) as [E1 [new [E2 Hnew]]].
  (* the row of the student *)
  unfold select_etudiant_id in Es.
  destruct (List.find _ _) as [e0|] eqn:F; [|discriminate].
  injection Es as <-. apply find_some in F. destruct F as [He0 Hk0].
  apply same_etudiant_key in Hk0. unfold etudiant_key in Hk0.
  injection Hk0 as K1 K2 K3 K4 K5.
  assert (M0 : matches_all annee parcours semestre e0 = true).
  { apply matches_all_spec. auto. }
  (* the identity rows *)
  assert (HE1 : exists add,
             etudiants db1 = etudiants db ++ add
             /\ forall e, In e add ->
                  matches_all annee parcours semestre e = true
                  /\ from_document students e).
  { unfold db1, insert_or_ignore_etudiant.
    destruct (existsb _ (etudiants db)).
    - exists []. cbn [etudiants]. rewrite app_nil_r.
      split; [reflexivity | contradiction].
    - eexists. cbn [etudiants]. split; [reflexivity|].
      intros e [<- | []]. split.
      + apply matches_all_spec. repeat split.
      + exists st. repeat split. exact Hst. }
  destruct HE1 as [add [EA HA]].
  assert (Sub : forall e, In e (etudiants db) -> In e (etudiants db')).
  { intros e He. rewrite E1, EA. apply in_or_app. left. exact He. }
  exists (newE ++ add), (newN ++ new). split; [|split; [|split]].
  - rewrite E1, EA, GE, app_assoc. reflexivity.
  - rewrite E2. unfold db1, insert_or_ignore_etudiant.
    destruct (existsb _ (etudiants db)); cbn [notes];
      rewrite GN, app_assoc; reflexivity.
  - intros e He. apply in_app_or in He. destruct He as [He | He]; auto.
  - intros g Hg. apply in_app_or in Hg. destruct Hg as [Hg | Hg].
    + destruct (HN g Hg) as [e [He [Ei [Me Ge]]]].
      exists e. repeat split; auto.
    + destruct (Hnew g Hg) as [G1 [c [Hc [G2 [G3 [G4 G5]]]]]].
      exists e0. split; [rewrite E1; exact He0|].
      split; [symmetry; exact G1|]. split; [exact M0|].
      exists st, c. repeat split; assumption.
Qed.

Lemma grown_loop :
  forall todo db0 db n r db',
    (forall st, In st todo -> In st students) ->
    grown annee parcours semestre students db0 db ->
    import_loop no_violation parcours annee semestre db todo n = (r, db') ->
    grown annee parcours semestre students db0 db'.
Proof.
  induction todo as [|st todo IH]; intros db0 db n r db' Sub G H;
    cbn [import_loop] in H.
  - injection H as _ <-. exact G.
  - destruct (student_statements_on no_violation parcours annee semestre db st)
      as [db1|e] eqn:E.
    + eapply (IH db0 db1); [|eapply grown_step; eauto|exact H].
      * intros x Hx. apply Sub. right. exact Hx.
      * apply Sub. left. reflexivity.
    + destruct e; try (injection H as _ <-; exact G).
      eapply (IH db0 db); [|exact G|exact H].
      intros x Hx. apply Sub. right. exact Hx.
Qed.

(** What a store holds under the year, the track and the semester when
    it has grown from a consistent store that held nothing under them. *)
Lemma grown_from_nothing :
  forall db1 db2,
    consistent db1 -> consistent db2 ->
    (forall e, In e (etudiants db1) ->
               matches_all annee parcours semestre e = false) ->
    grown annee parcours semestre students db1 db2 ->
    (forall e, In e (etudiants db2) ->
               matches_all annee parcours semestre e = true ->
               from_document students e)
    /\ (forall e g, In e (etudiants db2) -> In g (notes db2) ->
                    n_etudiant_id g = e_id e ->
                    matches_all annee parcours semestre e = true ->
                    grade_from_document students e g)
    /\ filter (fun e => negb (matches_all annee parcours semestre e)) (etudiants db2)
       = etudiants db1
    /\ filter (fun g => negb (owner_matches annee parcours semestre db2 g)) (notes db2)
       = notes db1.
Proof.
  intros db1 db2 C1 C2 None1 [newE [newN [GE [GN [HE HN]]]]].
  destruct C1 as [_ [_ [_ [_ R1]]]].
  destruct C2 as [I2 _].
  assert (Sub : forall e, In e (etudiants db1) -> In e (etudiants db2)).
  { intros e He. rewrite GE. apply in_or_app. left. exact He. }
  assert (Old : forall e g, In e (etudiants db2) -> In g (notes db1) ->
                  n_etudiant_id g = e_id e ->
                  matches_all annee parcours semestre e = false).
  { intros e g He Hg Ei. destruct (R1 g Hg) as [e1 [He1 E1]].
    assert (e1 = e) as <-.
    { apply (NoDup_map_inj _ _ e_id (etudiants db2)); auto. congruence. }
    apply None1. exact He1. }
  split; [|split; [|split]].
  - intros e He M. rewrite GE in He. apply in_app_or in He.
    destruct He as [He | He]; [|apply HE; exact He].
    rewrite (None1 e He) in M. discriminate.
  - intros e g He Hg Ei M. rewrite GN in Hg. apply in_app_or in Hg.
    destruct Hg as [Hg | Hg].
    + rewrite (Old e g He Hg Ei) in M. discriminate.
    + destruct (HN g Hg) as [e' [He' [Ei' [_ Ge]]]].
      assert (e' = e) as <-; [|exact Ge].
      apply (NoDup_map_inj _ _ e_id (etudiants db2)); auto. congruence.
  - rewrite GE, filter_app.
    rewrite (filter_all_true _ _ (etudiants db1)).
    + assert (N : filter (fun e => negb (matches_all annee parcours semestre e)) newE
                  = []).
      { clear - HE. induction newE as [|e l IH]; [reflexivity|].
        cbn [filter]. destruct (HE e (or_introl eq_refl)) as [-> _]. cbn [negb].
        apply IH. intros x Hx. apply HE. right. exact Hx. }
      rewrite N. apply app_nil_r.
    + intros e He. rewrite (None1 e He). reflexivity.
  - rewrite GN, filter_app.
    rewrite (filter_all_true _ _ (notes db1)).
    + assert (N : filter (fun g => negb (owner_matches annee parcours semestre db2 g))
                         newN = []).
      { assert (K : forall g, In g newN ->
                      owner_matches annee parcours semestre db2 g = true).
        { intros g Hg. destruct (HN g Hg) as [e [He [Ei [M _]]]].
          apply owner_matches_spec. exists e. auto. }
        clear - K. induction newN as [|g l IH]; [reflexivity|].
        cbn [filter]. rewrite (K g (or_introl eq_refl)). cbn [negb].
        apply IH. intros x Hx. apply K. right. exact Hx. }
      rewrite N. apply app_nil_r.
    + intros g Hg.
      destruct (owner_matches annee parcours semestre db2 g) eqn:O; [|reflexivity].
      apply owner_matches_spec in O. destruct O as [e [He [Ei M]]].
      rewrite (Old e g He Hg (eq_sym Ei)) in M. discriminate.
Qed.

End Replace.

(** X6. Replacing the data of a document, as the conflict dialog does:
    [delete_data] with the year, the track and the semester of the
    document, then [import_apogee_data] of the document.  For every
    document and every consistent content of the store, both calls
    return normally, and afterwards: every student the store holds under
    that year, track and semester carries the names and the number of a
    student of the document; every grade row of such a student carries
    an entry of the document, unit, course, grade and unit flag; the
    students of the other years, tracks and semesters and their grade
    rows are what they were, in their order.  This is so when the
    students the store holds under that year, track and semester are no
    more than the host parameters the engine accepts in a statement;
    when they are more, [delete_data] deletes nothing. *)
Theorem replace_document :
  forall (max_variables : nat) (content : str) (db : database),
    consistent db ->
    let students := d_etudiants (parse_apogee_file content) in
    let parcours := p_parcours (d_parcours (parse_apogee_file content)) in
    let annee := p_annee (d_parcours (parse_apogee_file content)) in
    let semestre := p_semestre (d_parcours (parse_apogee_file content)) in
    length (filter (matches_all annee parcours semestre) (etudiants db))
      <= max_variables ->
    exists k db1 n db2,
      delete_data max_variables
        (Criteria (Some annee) (Some parcours) (Some semestre)) (Some db)
      = (Ok k, Some db1)
      /\ k = length (filter (matches_all annee parcours semestre) (etudiants db))
      /\ import_apogee_data no_violation content (Some db1) = (Ok n, Some db2)
      /\ (forall e, In e (etudiants db2) ->
                    matches_all annee parcours semestre e = true ->
                    from_document students e)
      /\ (forall e g, In e (etudiants db2) -> In g (notes db2) ->
                      n_etudiant_id g = e_id e ->
                      matches_all annee parcours semestre e = true ->
                      grade_from_document students e g)
      /\ filter (fun e => negb (matches_all annee parcours semestre e)) (etudiants db2)
         = filter (fun e => negb (matches_all annee parcours semestre e)) (etudiants db)
      /\ filter (fun g => negb (owner_matches annee parcours semestre db2 g)) (notes db2)
         = filter (fun g => negb (owner_matches annee parcours semestre db g)) (notes db).
Proof.
  intros limit content db C students parcours annee semestre Hfew.
  set (cr := Criteria (Some annee) (Some parcours) (Some semestre)).
  destruct (delete_outcome limit cr db) as [k [db1 [Ed [_ [_ [_ Hd]]]]]].
  destruct (Hd eq_refl Hfew) as [De [Dn Dk]].
  change (where_clause cr) with (matches_all annee parcours semestre) in De, Dn, Dk.
  assert (C1 : consistent db1).
  { destruct db1 as [e1 n1 s1 s2]. cbn [etudiants notes] in De, Dn. subst e1 n1.
    apply delete_rows_consistent. exact C. }
  assert (None1 : forall e, In e (etudiants db1) ->
                    matches_all annee parcours semestre e = false).
  { intros e He. rewrite De in He. apply filter_In in He.
    destruct He as [_ He]. apply negb_true_iff in He. exact He. }
  assert (Dn' : notes db1
                = filter (fun g => negb (owner_matches annee parcours semestre db g))
                         (notes db)).
  { rewrite Dn. apply filter_ext. intros g. rewrite mem_ids. reflexivity. }
  assert (Himp : exists n db2,
             import_apogee_data no_violation content (Some db1) = (Ok n, Some db2)
             /\ consistent db2
             /\ grown annee parcours semestre students db1 db2).
  { unfold import_apogee_data. fold students.
    destruct students as [|st sts] eqn:Es.
    - exists 0, db1. split; [reflexivity|]. split; [exact C1 | apply grown_refl].
    - cbn [get_connection]. fold parcours annee semestre.
      change (import_students no_violation parcours annee semestre
                (Connection db1 db1 []) (st :: sts) 0)
        with (import_batch no_violation parcours annee semestre db1 (st :: sts)).
      rewrite import_batch_loop.
      destruct (import_loop_total no_violation parcours annee semestre
                  (st :: sts) db1 0) as [n [db2 [E _]]].
      rewrite E. exists n, db2. split; [reflexivity|]. split.
      + eapply import_loop_consistent; eassumption.
      + eapply grown_loop; [|apply grown_refl|exact E]. auto. }
  destruct Himp as [n [db2 [Ei [C2 G]]]].
  exists k, db1, n, db2. split; [exact Ed|]. split; [exact Dk|].
  split; [exact Ei|].
  destruct (grown_from_nothing annee parcours semestre students db1 db2 C1 C2 None1 G)
    as [H1 [H2 [H3 H4]]].
  split; [exact H1|]. split; [exact H2|]. split.
  - rewrite H3. exact De.
  - rewrite H4. exact Dn'.
Qed.

Lemma replace_document_witness :
  consistent sample_store
  /\ exists k db1 n db2,
       delete_data 999
         (Criteria
            (Some (p_annee (d_parcours (parse_apogee_file document_with_malformed_block))))
            (Some (p_parcours (d_parcours (parse_apogee_file document_with_malformed_block))))
            (Some (p_semestre (d_parcours (parse_apogee_file document_with_malformed_block)))))
         (Some sample_store)
       = (Ok k, Some db1)
       /\ import_apogee_data no_violation document_with_malformed_block (Some db1)
          = (Ok n, Some db2).
Proof.
  split; [exact consistent_sample|].
  assert (Hfew :
    length (filter
              (matches_all
                 (p_annee (d_parcours (parse_apogee_file document_with_malformed_block)))
                 (p_parcours (d_parcours (parse_apogee_file document_with_malformed_block)))
                 (p_semestre (d_parcours (parse_apogee_file document_with_malformed_block))))
              (etudiants sample_store)) <= 999)
    by (vm_compute; lia).
  destruct (replace_document 999 document_with_malformed_block sample_store
              consistent_sample Hfew) as [k [db1 [n [db2 [E1 [_ [E2 _]]]]]]].
  exists k, db1, n, db2. split; [exact E1 | exact E2].
Defined.

(* ================================================================== *)
(** * The listings: in order, without duplicates *)
(* ================================================================== *)

Section Listings.

Lemma str_leb_refl : forall a, str_leb a a = true.
Proof.
  induction a as [|x a IH]; [reflexivity|]. cbn [str_leb].
  rewrite N.eqb_refl, IH. apply orb_true_r.
Qed.

Lemma str_leb_total : forall a b, str_leb a b = false -> str_leb b a = true.
Proof.
  induction a as [|x a IH]; intros [|y b] H; cbn [str_leb] in *;
    try reflexivity; try discriminate.
  apply orb_false_iff in H. destruct H as [H1 H2].
  apply N.ltb_ge in H1.
  destruct (N.eqb_spec x y) as [->|Hn].
  - cbn [andb] in H2. rewrite N.eqb_refl, (IH b H2). apply orb_true_r.
  - assert (L : (y <? x)%N = true) by (apply N.ltb_lt; lia).
    rewrite L. reflexivity.
Qed.

Lemma str_leb_antisym :
  forall a b, str_leb a b = true -> str_leb b a = true -> a = b.
Proof.
  induction a as [|x a IH]; intros [|y b] H1 H2; cbn [str_leb] in *;
    try reflexivity; try discriminate.
  apply orb_true_iff in H1. apply orb_true_iff in H2.
  destruct H1 as [H1 | H1]; destruct H2 as [H2 | H2];
    rewrite ?andb_true_iff, ?N.ltb_lt, ?N.eqb_eq in *; try lia.
  destruct H1 as [-> H1]. destruct H2 as [_ H2].
  rewrite (IH b H1 H2). reflexivity.
Qed.

Lemma str_leb_trans :
  forall a b c, str_leb a b = true -> str_leb b c = true -> str_leb a c = true.
Proof.
  induction a as [|x a IH]; intros [|y b] [|z c] H1 H2; cbn [str_leb] in *;
    try reflexivity; try discriminate.
  apply orb_true_iff in H1. apply orb_true_iff in H2. apply orb_true_iff.
  rewrite ?andb_true_iff, ?N.ltb_lt, ?N.eqb_eq in *.
  destruct H1 as [H1 | [-> H1]]; destruct H2 as [H2 | [-> H2]].
  - left. lia.
  - left. exact H1.
  - left. exact H2.
  - right. split; [reflexivity | eapply IH; eassumption].
Qed.

Lemma str_ltb_spec :
  forall a b, str_ltb a b = true <-> str_leb a b = true /\ a <> b.
Proof.
  intros a b. unfold str_ltb. rewrite andb_true_iff, negb_true_iff, str_eqb_neq.
  reflexivity.
Qed.

Lemma str_ltb_trans :
  forall a b c, str_ltb a b = true -> str_ltb b c = true -> str_ltb a c = true.
Proof.
  intros a b c H1 H2. apply str_ltb_spec in H1. apply str_ltb_spec in H2.
  destruct H1 as [L1 N1]. destruct H2 as [L2 N2]. apply str_ltb_spec. split.
  - eapply str_leb_trans; eassumption.
  - intros ->. apply N1. apply str_leb_antisym; assumption.
Qed.

Lemma insert_sorted_ascending :
  forall x l, ascending l -> ascending (insert_sorted x l).
Proof.
  intros x. induction l as [|y l IH]; intros A; cbn [insert_sorted].
  - split; [contradiction | exact I].
  - destruct (str_eqb x y) eqn:E; [exact A|].
    apply str_eqb_neq in E. destruct A as [Hy A].
    destruct (str_leb x y) eqn:L.
    + assert (Lt : str_ltb x y = true) by (apply str_ltb_spec; auto).
      split; [|split; assumption].
      intros z [<- | Hz]; [exact Lt|].
      eapply str_ltb_trans; [exact Lt | apply Hy; exact Hz].
    + split; [|apply IH; exact A].
      intros z Hz. apply insert_sorted_In in Hz. destruct Hz as [-> | Hz].
      * apply str_ltb_spec. split; [apply str_leb_total; exact L | congruence].
      * apply Hy. exact Hz.
Qed.

Lemma distinct_sorted_ascending : forall l, ascending (distinct_sorted l).
Proof.
  unfold distinct_sorted. induction l as [|x l IH]; [exact I|].
  cbn [fold_right]. apply insert_sorted_ascending. exact IH.
Qed.

Lemma in_map_filter :
  forall (A : Type) (f : A -> str) (p : A -> bool) l v,
    In v (map f (filter p l)) <-> exists x, In x l /\ p x = true /\ f x = v.
Proof.
  intros A f p l v. rewrite in_map_iff. split.
  - intros [x [E H]]. apply filter_In in H. exists x. tauto.
  - intros [x [H [P E]]]. exists x. split; [exact E|].
    apply filter_In. split; assumption.
Qed.

End Listings.

(** X7. For every content of the store and every filter:
    [get_available_years], [get_available_parcours] and
    [get_available_semestres] return a list in strictly ascending order
    of code points, so without duplicates, whose elements are exactly
    the values of the column in the student rows that pass the filters.
    A filter that is [None] or the empty string lets every row pass. *)
Theorem listings_of_students :
  forall (db : database) (year parcours : option str),
    (exists l, get_available_years (Some db) = Ok l
               /\ ascending l
               /\ forall v, In v l <-> exists e, In e (etudiants db) /\ e_annee e = v)
    /\ (exists l, get_available_parcours year (Some db) = Ok l
                  /\ ascending l
                  /\ forall v, In v l <->
                       exists e, In e (etudiants db)
                                 /\ filter_ok year (e_annee e) = true
                                 /\ e_parcours e = v)
    /\ (exists l, get_available_semestres year parcours (Some db) = Ok l
                  /\ ascending l
                  /\ forall v, In v l <->
                       exists e, In e (etudiants db)
                                 /\ filter_ok year (e_annee e) = true
                                 /\ filter_ok parcours (e_parcours e) = true
                                 /\ e_semestre e = v).
Proof.
  intros db year parcours. split; [|split].
  - eexists. split; [reflexivity|]. split; [apply distinct_sorted_ascending|].
    intros v. rewrite distinct_sorted_In, in_map_iff. split.
    + intros [e [E H]]. exists e. auto.
    + intros [e [H E]]. exists e. auto.
  - eexists. split; [reflexivity|]. split; [apply distinct_sorted_ascending|].
    intros v. rewrite distinct_sorted_In, in_map_filter. reflexivity.
  - eexists. split; [reflexivity|]. split; [apply distinct_sorted_ascending|].
    intros v. rewrite distinct_sorted_In, in_map_filter. split.
    + intros [e [H [P E]]]. apply andb_true_iff in P. exists e. tauto.
    + intros [e [H [P1 [P2 E]]]]. exists e. rewrite P1, P2. auto.
Qed.

(** X8. For every content of the store and every filter:
    [get_available_ues] and [get_available_courses] return a list in
    strictly ascending order of code points, without duplicates, whose
    elements are exactly the unit labels of the grade rows flagged as
    units (the course names of the grade rows not flagged) that belong
    to a student row passing the filters; a grade row whose student id
    is the id of no student row is never listed. *)
Theorem listings_of_grades :
  forall (db : database) (year parcours semestre ue_filter : option str),
    (exists l, get_available_ues year parcours semestre (Some db) = Ok l
               /\ ascending l
               /\ forall v, In v l <->
                    exists e g, In e (etudiants db) /\ In g (notes db)
                                /\ n_etudiant_id g = e_id e
                                /\ n_est_ue g = 1%Z
                                /\ etudiant_ok year parcours semestre e = true
                                /\ n_ue g = v)
    /\ (exists l, get_available_courses year parcours semestre ue_filter (Some db)
                  = Ok l
                  /\ ascending l
                  /\ forall v, In v l <->
                       exists e g, In e (etudiants db) /\ In g (notes db)
                                   /\ n_etudiant_id g = e_id e
                                   /\ n_est_ue g = 0%Z
                                   /\ etudiant_ok year parcours semestre e = true
                                   /\ filter_ok ue_filter (n_ue g) = true
                                   /\ n_cours g = v).
Proof.
  intros db year parcours semestre ue_filter. split.
  - eexists. split; [reflexivity|]. split; [apply distinct_sorted_ascending|].
    intros v. rewrite distinct_sorted_In, in_map_filter. split.
    + intros [[e g] [H [P E]]]. apply join_In_inv in H. cbn [fst snd] in *.
      apply andb_true_iff in P. destruct P as [P1 P2]. apply Z.eqb_eq in P1.
      exists e, g. tauto.
    + intros [e [g [He [Hg [Ei [U [P E]]]]]]]. exists (e, g). cbn [fst snd].
      split; [apply join_In; assumption|]. rewrite U, P. auto.
  - eexists. split; [reflexivity|]. split; [apply distinct_sorted_ascending|].
    intros v. rewrite distinct_sorted_In, in_map_filter. split.
    + intros [[e g] [H [P E]]]. apply join_In_inv in H. cbn [fst snd] in *.
      apply andb_true_iff in P. destruct P as [P P3].
      apply andb_true_iff in P. destruct P as [P1 P2]. apply Z.eqb_eq in P1.
      exists e, g. tauto.
    + intros [e [g [He [Hg [Ei [U [P [F E]]]]]]]]. exists (e, g). cbn [fst snd].
      split; [apply join_In; assumption|]. rewrite U, P, F. auto.
Qed.

(* ================================================================== *)
(** * [get_students]: each student once, by name *)
(* ================================================================== *)

Section ByName.

Lemma name_leb_spec :
  forall a b,
    name_leb a b = true
    <-> (e_nom a <> e_nom b /\ str_leb (e_nom a) (e_nom b) = true)
        \/ (e_nom a = e_nom b /\ str_leb (e_prenom a) (e_prenom b) = true).
Proof.
  intros a b. unfold name_leb.
  destruct (str_eqb (e_nom a) (e_nom b)) eqn:E.
  - apply str_eqb_eq in E. split; [auto|]. intros [[N _] | [_ H]]; [contradiction | exact H].
  - apply str_eqb_neq in E. split; [auto|]. intros [[_ H] | [N _]]; [exact H | contradiction].
Qed.

Lemma name_leb_total : forall a b, name_leb a b = false -> name_leb b a = true.
Proof.
  intros a b H. unfold name_leb in *.
  destruct (str_eqb (e_nom a) (e_nom b)) eqn:E.
  - apply str_eqb_eq in E. rewrite E, str_eqb_refl.
    apply str_leb_total. exact H.
  - apply str_eqb_neq in E.
    destruct (str_eqb (e_nom b) (e_nom a)) eqn:E'.
    + apply str_eqb_eq in E'. congruence.
    + apply str_leb_total. exact H.
Qed.

Lemma name_leb_trans :
  forall a b c, name_leb a b = true -> name_leb b c = true -> name_leb a c = true.
Proof.
  intros a b c H1 H2. apply name_leb_spec in H1. apply name_leb_spec in H2.
  apply name_leb_spec.
  destruct H1 as [[N1 L1] | [E1 L1]]; destruct H2 as [[N2 L2] | [E2 L2]].
  - left. split; [|eapply str_leb_trans; eassumption].
    intros E. apply N1. apply str_leb_antisym; [exact L1|]. rewrite E. exact L2.
  - left. rewrite <- E2. auto.
  - left. rewrite E1. auto.
  - right. split; [congruence | eapply str_leb_trans; eassumption].
Qed.

Lemma insert_by_name_perm :
  forall e l, Permutation (insert_by_name e l) (e :: l).
Proof.
  intros e. induction l as [|y l IH]; cbn [insert_by_name]; [reflexivity|].
  destruct (if str_eqb (e_nom e) (e_nom y)
            then str_leb (e_prenom e) (e_prenom y)
            else str_leb (e_nom e) (e_nom y)); [reflexivity|].
  rewrite IH. apply perm_swap.
Qed.

Lemma sorted_by_name_perm :
  forall l, Permutation (fold_right insert_by_name [] l) l.
Proof.
  induction l as [|e l IH]; cbn [fold_right]; [reflexivity|].
  rewrite insert_by_name_perm, IH. reflexivity.
Qed.

Lemma insert_by_name_sorted :
  forall e l, by_name l -> by_name (insert_by_name e l).
Proof.
  intros e. induction l as [|y l IH]; intros B; cbn [insert_by_name].
  - split; [contradiction | exact I].
  - change (if str_eqb (e_nom e) (e_nom y)
            then str_leb (e_prenom e) (e_prenom y)
            else str_leb (e_nom e) (e_nom y)) with (name_leb e y).
    destruct B as [Hy B]. destruct (name_leb e y) eqn:L.
    + split; [|split; assumption].
      intros z [<- | Hz]; [exact L|].
      eapply name_leb_trans; [exact L | apply Hy; exact Hz].
    + split; [|apply IH; exact B].
      intros z Hz. apply insert_by_name_In in Hz. destruct Hz as [-> | Hz].
      * apply name_leb_total. exact L.
      * apply Hy. exact Hz.
Qed.

Lemma sorted_by_name_sorted :
  forall l, by_name (fold_right insert_by_name [] l).
Proof.
  induction l as [|e l IH]; cbn [fold_right]; [exact I|].
  apply insert_by_name_sorted. exact IH.
Qed.

End ByName.

(** X9. For every content of the store and every filter, [get_students]
    returns the student rows that pass the filters, each as many times
    as the table holds it (a rearrangement of them), in the order of the
    family name and then of the given name, by code points.  A filter
    that is [None] or the empty string lets every row pass. *)
Theorem get_students_by_name :
  forall (db : database) (year parcours semestre : option str),
    exists rows,
      get_students year parcours semestre (Some db) = Ok rows
      /\ Permutation rows
           (filter (etudiant_ok year parcours semestre) (etudiants db))
      /\ by_name rows.
Proof.
  intros db year parcours semestre. eexists. split; [reflexivity|]. split.
  - apply sorted_by_name_perm.
  - apply sorted_by_name_sorted.
Qed.

(* ================================================================== *)
(** * [export_to_dataframe]: one row per grade row *)
(* ================================================================== *)

Section ExportRows.

Lemma filter_or_perm :
  forall (A : Type) (p q : A -> bool) l,
    (forall x, In x l -> p x = true -> q x = false) ->
    Permutation (filter (fun x => p x || q x) l) (filter p l ++ filter q l).
Proof.
  intros A p q. induction l as [|x l IH]; intros D; [reflexivity|].
  assert (D' : forall y, In y l -> p y = true -> q y = false)
    by (intros y Hy; apply D; right; exact Hy).
  cbn [filter]. destruct (p x) eqn:P.
  - rewrite (D x (or_introl eq_refl) P). cbn [orb app].
    apply perm_skip. apply IH. exact D'.
  - cbn [orb]. destruct (q x).
    + rewrite (IH D'). apply Permutation_middle.
    + apply IH. exact D'.
Qed.

(** The grade rows of the join are the grade rows of the students. *)
Lemma join_notes_perm :
  forall (N : list note_row) (E : list etudiant_row),
    NoDup (map e_id E) ->
    Permutation
      (map snd
         (flat_map (fun e => map (fun n => (e, n))
                       (filter (fun n => (n_etudiant_id n =? e_id e)%Z) N)) E))
      (filter (fun g => mem_Z (n_etudiant_id g) (map e_id E)) N).
Proof.
  intros N. induction E as [|e E IH]; intros D.
  - cbn. induction N as [|g N IHN]; [reflexivity | exact IHN].
  - cbn [map] in D. inversion D as [|? ? He DE]; subst.
    cbn [flat_map map]. rewrite map_app, map_map. cbn [snd]. rewrite map_id.
    rewrite (IH DE).
    symmetry.
    apply (filter_or_perm _ (fun g => (n_etudiant_id g =? e_id e)%Z)
             (fun g => mem_Z (n_etudiant_id g) (map e_id E))).
    intros g _ P. apply Z.eqb_eq in P. rewrite P.
    unfold mem_Z. destruct (existsb (Z.eqb (e_id e)) (map e_id E)) eqn:X;
      [|reflexivity].
    apply existsb_exists in X. destruct X as [i [Hi Ei]].
    apply Z.eqb_eq in Ei. subst i. contradiction.
Qed.

End ExportRows.

(** X10. For every consistent content of the store,
    [export_to_dataframe] returns one row for each grade row (the grade
    rows of the result are a rearrangement of table [notes]), and each
    row pairs a grade row with the student row whose id it carries. *)
Theorem export_one_row_per_grade :
  forall (db : database),
    consistent db ->
    exists rows,
      export_to_dataframe (Some db) = Ok rows
      /\ Permutation (map snd rows) (notes db)
      /\ forall e g, In (e, g) rows ->
           In e (etudiants db) /\ In g (notes db) /\ n_etudiant_id g = e_id e.
Proof.
  intros db [I1 [_ [_ [_ R]]]]. eexists. split; [reflexivity|].
  cbn [c_work]. split.
  - unfold join. rewrite (join_notes_perm (notes db) (etudiants db) I1).
    rewrite filter_all_true; [reflexivity|].
    intros g Hg. destruct (R g Hg) as [e [He Ee]].
    unfold mem_Z. apply existsb_exists. exists (e_id e).
    split; [apply in_map; exact He | apply Z.eqb_eq; symmetry; exact Ee].
  - intros e g H. apply join_In_inv. exact H.
Qed.

Lemma export_one_row_per_grade_witness :
  consistent sample_store
  /\ exists rows,
       export_to_dataframe (Some sample_store) = Ok rows
       /\ Permutation (map snd rows) (notes sample_store).
Proof.
  split; [exact consistent_sample|].
  destruct (export_one_row_per_grade sample_store consistent_sample)
    as [rows [E [P _]]].
  exists rows. split; [exact E | exact P].
Defined.

(* ================================================================== *)
(** * What the groups of a match hold *)
(* ================================================================== *)

Section Groups.

(** An expression that does not hold group [i] leaves it as it is. *)
Lemma reach_keeps_group :
  forall i r st st',
    reach r st st' -> has_group i r = false ->
    group_of (m_caps st') i = group_of (m_caps st) i.
Proof.
  intros i. induction 1 as
    [ st | cs pos prev c rest caps Hc | r1 r2 s1 s2 s3 _ IH1 _ IH2
    | r1 r2 s1 s2 _ IH | r1 r2 s1 s2 _ IH | g r st
    | g r s1 s2 s3 _ IH1 Hlt _ IH2 | j r s1 s2 _ IH | st Hb | st He
    | r s1 s2 _ IH ]; cbn [has_group]; intros G; try reflexivity.
  - apply orb_false_iff in G. destruct G as [G1 G2].
    rewrite (IH2 G2), (IH1 G1). reflexivity.
  - apply orb_false_iff in G. destruct G as [G1 G2]. auto.
  - apply orb_false_iff in G. destruct G as [G1 G2]. auto.
  - rewrite (IH2 G), (IH1 G). reflexivity.
  - apply orb_false_iff in G. destruct G as [G1 G2].
    cbn [set_group m_caps group_of]. rewrite G1. auto.
  - cbn [m_caps]. auto.
Qed.

(** A group holds the word its expression consumed. *)
Lemma reach_group_text :
  forall i r st st',
    reach (RGroup i r) st st' ->
    exists w, spells r w /\ group_of (m_caps st') i = Some w.
Proof.
  intros i r st st' H. apply reach_group_inv in H. destruct H as [s2 [H ->]].
  destruct (reach_consumes _ _ _ H) as [w [E P]].
  exists w. split; [exists st, s2; split; assumption|].
  cbn [set_group m_caps group_of]. rewrite Nat.eqb_refl. f_equal.
  apply (text_between_spec st s2 w E P).
Qed.

Lemma seqs_group_text :
  forall pre i r post st e,
    reach (RSeqs (pre ++ RGroup i r :: post)) st e ->
    has_group i (RSeqs post) = false ->
    exists w, spells r w /\ group_of (m_caps e) i = Some w.
Proof.
  intros pre i r post st e H G.
  apply reach_seqs_app in H. destruct H as [m1 [_ H]].
  change (RGroup i r :: post) with ([RGroup i r] ++ post) in H.
  apply reach_seqs_app in H. destruct H as [m2 [Hg Hp]].
  cbn [RSeqs] in Hg. apply reach_group_text in Hg. destruct Hg as [w [Sw Gw]].
  exists w. split; [exact Sw|].
  rewrite (reach_keeps_group i _ _ _ Hp G). exact Gw.
Qed.

(** What [re.search] returns was matched somewhere. *)
Lemma search_from_reach :
  forall r s pos prev m,
    search_from r pos prev s = Some m ->
    exists pos' prev' rest', reach r (MState pos' prev' rest' []) (mo_end m).
Proof.
  intros r. induction s as [|c s IH]; intros pos prev m H;
    rewrite search_from_unfold in H.
  - destruct (match_here r pos prev []) as [e|] eqn:E; [|discriminate].
    injection H as <-. exists pos, prev, []. apply match_here_reach. exact E.
  - destruct (match_here r pos prev (c :: s)) as [e|] eqn:E.
    + injection H as <-. exists pos, prev, (c :: s). apply match_here_reach. exact E.
    + eapply IH. exact H.
Qed.

End Groups.

(* ================================================================== *)
(** * The metadata of a document *)
(* ================================================================== *)

Section Metadata.

Lemma all_decimal_app :
  forall a b, all_decimal a -> all_decimal b -> all_decimal (a ++ b).
Proof. intros a b Ha Hb. apply Forall_app. split; assumption. Qed.

Lemma decimal_not_slash :
  forall c, is_decimal c = true -> char_eqb c (ch "/") = false.
Proof.
  intros c H. unfold char_eqb. destruct (N.eqb_spec c (ch "/")) as [->|]; [|reflexivity].
  vm_compute in H. discriminate.
Qed.

Lemma replace_slash_decimal :
  forall a, all_decimal a -> replace_char (ch "/") (ch "-") a = a.
Proof.
  induction a as [|c a IH]; intros H; [reflexivity|].
  inversion H as [|? ? Hc Ha]; subst.
  rewrite replace_char_cons, (decimal_not_slash c Hc), (IH Ha). reflexivity.
Qed.

(** The groups of the line of the enrolment. *)
Lemma reach_semestre_parcours :
  forall st e,
    reach semestre_parcours_re st e ->
    (exists w, group_of (m_caps e) 1 = Some w /\ w <> [] /\ all_decimal w)
    /\ (exists w, group_of (m_caps e) 2 = Some w /\ w <> []
                  /\ Forall (fun c => is_space c = false) w).
Proof.
  intros st e H. split.
  - change semestre_parcours_re with
      (RSeqs ([ RLit (py "inscrit"); ROpt (RChar (CIn [CChar (ch "e")]));
                RPlus true r_s; RLit (py "en"); RPlus true r_s; RLit (py "Semestre");
                RPlus true r_s ]
              ++ RGroup 1 (RPlus true r_d)
              :: [ RPlus true r_s;
                   RGroup 2 (RPlus true (RChar (CNotIn [CSpace; CChar LF]))) ])) in H.
    apply seqs_group_text in H; [|reflexivity].
    destruct H as [w [Sw Gw]]. exists w. split; [exact Gw|].
    apply spells_plus_chars in Sw. destruct Sw as [c [w' [-> F]]].
    split; [discriminate | apply digit_class_all; exact F].
  - change semestre_parcours_re with
      (RSeqs ([ RLit (py "inscrit"); ROpt (RChar (CIn [CChar (ch "e")]));
                RPlus true r_s; RLit (py "en"); RPlus true r_s; RLit (py "Semestre");
                RPlus true r_s; RGroup 1 (RPlus true r_d); RPlus true r_s ]
              ++ RGroup 2 (RPlus true (RChar (CNotIn [CSpace; CChar LF])))
              :: [])) in H.
    apply seqs_group_text in H; [|reflexivity].
    destruct H as [w [Sw Gw]]. exists w. split; [exact Gw|].
    apply spells_plus_chars in Sw. destruct Sw as [c [w' [-> F]]].
    split; [discriminate|].
    eapply Forall_impl; [|exact F]. intros x Hx. cbn in Hx.
    apply negb_true_iff in Hx. apply orb_false_iff in Hx. apply Hx.
Qed.

End Metadata.

(** The shape of the metadata, whether it comes from the document or from
    the defaults. *)
Lemma metadata_shape :
  forall (content : str),
    (exists a b,
        p_annee (_extract_parcours_info content) = a ++ ch "-" :: b
        /\ length a = 4 /\ length b = 4 /\ all_decimal a /\ all_decimal b)
    /\ p_semestre (_extract_parcours_info content) <> []
    /\ all_decimal (p_semestre (_extract_parcours_info content))
    /\ (p_parcours (_extract_parcours_info content) = py "M1 API"
        \/ (p_parcours (_extract_parcours_info content) <> []
            /\ Forall (fun c => is_space c = false)
                      (p_parcours (_extract_parcours_info content)))).
Proof.
  intros content. unfold _extract_parcours_info.
  set (info1 := match search semestre_parcours_re content with
                | Some m => ParcoursInfo (group m 2) (group m 1) (py "2022-2023")
                | None => ParcoursInfo (py "M1 API") (py "7") (py "2022-2023")
                end).
  assert (H1 : p_semestre info1 <> [] /\ all_decimal (p_semestre info1)
               /\ (p_parcours info1 = py "M1 API"
                   \/ (p_parcours info1 <> []
                       /\ Forall (fun c => is_space c = false) (p_parcours info1)))).
  { unfold info1. destruct (search semestre_parcours_re content) as [m|] eqn:E.
    - unfold search in E. apply search_from_reach in E.
      destruct E as [pos [prev [rest R]]].
      apply reach_semestre_parcours in R.
      destruct R as [[w1 [G1 [N1 D1]]] [w2 [G2 [N2 F2]]]].
      cbn [p_semestre p_parcours]. unfold group. rewrite G1, G2.
      split; [exact N1|]. split; [exact D1|]. right. split; assumption.
    - cbn [p_semestre p_parcours]. split; [discriminate|].
      split; [repeat constructor | left; reflexivity]. }
  assert (H2 : p_annee info1 = py "2022-2023").
  { unfold info1. destruct (search semestre_parcours_re content); reflexivity. }
  change (p_annee (ParcoursInfo (py "M1 API") (py "7") (py "2022-2023")))
    with (py "2022-2023") in *.
  fold info1.
  destruct (search annee_re content) as [m|] eqn:Ea.
  - cbn [p_annee p_semestre p_parcours]. split; [|exact H1].
    unfold search in Ea. apply search_from_reach in Ea.
    destruct Ea as [pos [prev [rest R]]]. apply reach_annee in R.
    destruct R as [y1 [y2 [_ [L1 [L2 [D1 [D2 G]]]]]]].
    unfold group. rewrite G. exists y1, y2.
    rewrite replace_char_app, replace_char_cons, !replace_slash_decimal by assumption.
    repeat split; assumption.
  - destruct (search session_re content) as [m|] eqn:Es.
    + unfold search in Es. apply search_from_reach in Es.
      destruct Es as [pos [prev [rest R]]]. apply reach_session in R.
      destruct R as [b1 [n [b2 [y1 [y2 [_ [_ [_ [_ [_ [_ [_ [L1 [L2 [D1 [D2 G]]]]]]]]]]]]]]]].
      unfold group. rewrite G.
      destruct y1 as [|a1 [|a2 [|a3 [|a4 [|]]]]]; try discriminate L1.
      destruct y2 as [|c1 [|c2 [|]]]; try discriminate L2.
      cbn [app length Nat.eqb].
      cbn [p_annee p_semestre p_parcours]. split; [|exact H1].
      exists [a1; a2; a3; a4], (py "20" ++ [c1; c2]).
      split; [reflexivity|]. split; [reflexivity|]. split; [reflexivity|].
      split; [exact D1|]. apply all_decimal_app; [repeat constructor | exact D2].
    + split; [|exact H1]. rewrite H2.
      exists (py "2022"), (py "2023"). repeat split; repeat constructor.
Qed.


(** X11. For every document, the metadata [_extract_parcours_info]
    returns is well formed, whether it comes from the document or from
    the defaults: the academic year is four digits, a hyphen and four
    digits (the digits of [\d], so any Unicode decimal digit); the
    semester is a non-empty run of digits; and the track is the default
    [M1 API] or a non-empty text without a blank.  Where each field comes
    from: the semester and the track are the two groups of the first
    enrolment line, or the defaults [7] and [M1 API]; the year is the
    group [dddd/dddd] of the first full header with its slash turned
    into a hyphen; without a full header it is made of the group of the
    first session header, which always has seven characters, four
    digits, a slash and two digits (so the test on its length never
    fails), as the four digits, [-20] and the two digits; without either
    header it is the default [2022-2023]. *)
Theorem metadata_format :
  forall (content : str),
    ((exists a b,
        p_annee (_extract_parcours_info content) = a ++ ch "-" :: b
        /\ length a = 4 /\ length b = 4 /\ all_decimal a /\ all_decimal b)
     /\ p_semestre (_extract_parcours_info content) <> []
     /\ all_decimal (p_semestre (_extract_parcours_info content))
     /\ (p_parcours (_extract_parcours_info content) = py "M1 API"
         \/ (p_parcours (_extract_parcours_info content) <> []
             /\ Forall (fun c => is_space c = false)
                       (p_parcours (_extract_parcours_info content)))))
    /\ match search semestre_parcours_re content with
       | Some m =>
         p_semestre (_extract_parcours_info content) = group m 1
         /\ p_parcours (_extract_parcours_info content) = group m 2
       | None =>
         p_semestre (_extract_parcours_info content) = py "7"
         /\ p_parcours (_extract_parcours_info content) = py "M1 API"
       end
    /\ (forall m, search session_re content = Some m ->
          length (group m 1) = 7
          /\ exists y1 y2,
               group m 1 = y1 ++ ch "/" :: y2
               /\ length y1 = 4 /\ length y2 = 2
               /\ all_decimal y1 /\ all_decimal y2)
    /\ match search annee_re content, search session_re content with
       | Some m, _ =>
         exists y1 y2,
           group m 1 = y1 ++ ch "/" :: y2
           /\ p_annee (_extract_parcours_info content) = y1 ++ ch "-" :: y2
       | None, Some m =>
         exists y1 y2,
           group m 1 = y1 ++ ch "/" :: y2
           /\ p_annee (_extract_parcours_info content) = y1 ++ py "-20" ++ y2
       | None, None =>
         p_annee (_extract_parcours_info content) = py "2022-2023"
       end.
Proof.
  intros content. split; [apply metadata_shape|].
  assert (Hsession : forall m, search session_re content = Some m ->
            exists y1 y2,
              group m 1 = y1 ++ ch "/" :: y2
              /\ length y1 = 4 /\ length y2 = 2
              /\ all_decimal y1 /\ all_decimal y2).
  { intros m Es. unfold search in Es. apply search_from_reach in Es.
    destruct Es as [pos [prev [rest R]]]. apply reach_session in R.
    destruct R as [b1 [n [b2 [y1 [y2 [_ [_ [_ [_ [_ [_ [_ [L1 [L2 [D1 [D2 G]]]]]]]]]]]]]]]].
    exists y1, y2. unfold group. rewrite G. repeat split; assumption. }
  split; [|split].
  - unfold _extract_parcours_info.
    destruct (search semestre_parcours_re content) as [m|];
      destruct (search annee_re content) as [ma|];
      try (split; reflexivity);
      (destruct (search session_re content) as [ms|];
       [destruct (length (group ms 1) =? 7)|]; split; reflexivity).
  - intros m Es. destruct (Hsession m Es) as [y1 [y2 [G [L1 [L2 [D1 D2]]]]]].
    split; [rewrite G, length_app; cbn [length]; lia|].
    exists y1, y2. repeat split; assumption.
  - unfold _extract_parcours_info.
    destruct (search annee_re content) as [ma|] eqn:Ea.
    + unfold search in Ea. apply search_from_reach in Ea.
      destruct Ea as [pos [prev [rest R]]]. apply reach_annee in R.
      destruct R as [y1 [y2 [_ [L1 [L2 [D1 [D2 G]]]]]]].
      exists y1, y2. cbn [p_annee]. unfold group. rewrite G.
      split; [reflexivity|].
      rewrite replace_char_app, replace_char_cons, !replace_slash_decimal
        by assumption.
      reflexivity.
    + destruct (search session_re content) as [ms|] eqn:Es.
      * destruct (Hsession ms eq_refl) as [y1 [y2 [G [L1 [L2 [D1 D2]]]]]].
        exists y1, y2. split; [exact G|]. rewrite G.
        destruct y1 as [|a1 [|a2 [|a3 [|a4 [|]]]]]; try discriminate L1.
        destruct y2 as [|c1 [|c2 [|]]]; try discriminate L2.
        cbn [app length Nat.eqb]. reflexivity.
      * cbn [p_annee].
        destruct (search semestre_parcours_re content); reflexivity.
Qed.

(* ================================================================== *)
(** * The identity fields of a student *)
(* ================================================================== *)

Section Identity.

Lemma last_app_nonempty :
  forall (A : Type) (a b : list A) d, b <> [] -> last (a ++ b) d = last b d.
Proof.
  intros A a b d Hb. induction a as [|x a IH]; [reflexivity|].
  cbn [app]. destruct (a ++ b) eqn:E.
  - destruct a; [simpl in E; contradiction | discriminate].
  - cbn [last]. exact IH.
Qed.

Lemma Forall_last :
  forall (A : Type) (P : A -> Prop) l d, Forall P l -> l <> [] -> P (last l d).
Proof.
  intros A P l d F N. destruct (exists_last N) as [l' [z ->]].
  rewrite last_last. apply Forall_app in F. destruct F as [_ F].
  inversion F; assumption.
Qed.

(** A text that starts and ends with a character that is no blank is its
    own strip. *)
Lemma strip_noop :
  forall w,
    w <> [] -> is_space (hd 0%N w) = false -> is_space (last w 0%N) = false ->
    strip w = w.
Proof.
  intros w N H L. destruct w as [|c s]; [contradiction|]. cbn [hd] in H.
  unfold strip. rewrite lstrip_head by exact H.
  destruct (exists_last N) as [s' [z E]]. rewrite E in L.
  rewrite last_last in L.
  transitivity (rstrip (s' ++ [z])); [f_equal; exact E|].
  rewrite rstrip_last by exact L. symmetry. exact E.
Qed.

(** The words [words cs] spells: they start and end with a character of
    [cs], and hold characters of [cs] and blanks. *)
Lemma words_shape :
  forall cs w,
    spells (words cs) w ->
    w <> []
    /\ cset_mem cs (hd 0%N w) = true
    /\ cset_mem cs (last w 0%N) = true
    /\ Forall (fun c => cset_mem cs c || is_space c = true) w.
Proof.
  intros cs w H. unfold words in H. apply spells_seq in H.
  destruct H as [w1 [w2 [-> [H1 H2]]]].
  apply spells_plus_chars in H1. destruct H1 as [c [w1' [-> F1]]].
  assert (Q : Forall (fun c => cset_mem cs c || is_space c = true) w2
              /\ (w2 = [] \/ cset_mem cs (last w2 0%N) = true)).
  { apply (spells_star
             (fun w => Forall (fun c => cset_mem cs c || is_space c = true) w
                       /\ (w = [] \/ cset_mem cs (last w 0%N) = true))
             true (RSeq r_s (RPlus true (RChar cs)))); [| |exact H2].
    - split; [constructor | left; reflexivity].
    - intros b w3 Hb [F3 L3]. apply spells_seq in Hb.
      destruct Hb as [sp [b' [-> [Hsp Hb']]]].
      apply spells_char in Hsp. destruct Hsp as [s [-> Ms]].
      cbn in Ms. rewrite orb_false_r in Ms.
      apply spells_plus_chars in Hb'. destruct Hb' as [c' [b'' [-> Fb]]].
      split.
      + cbn [app]. constructor; [rewrite Ms; apply orb_true_r|].
        change (c' :: b'' ++ w3) with ((c' :: b'') ++ w3).
        apply Forall_app. split; [|exact F3].
        eapply Forall_impl; [|exact Fb]. intros x Hx. cbv beta in Hx.
        rewrite Hx. reflexivity.
      + right. destruct L3 as [-> | L3].
        * rewrite app_nil_r. change (cset_mem cs (last (c' :: b'') 0%N) = true).
          apply (Forall_last _ (fun x => cset_mem cs x = true)); [exact Fb | discriminate].
        * destruct w3 as [|x w3]; [simpl in L3|].
          -- rewrite app_nil_r. change (cset_mem cs (last (c' :: b'') 0%N) = true).
             apply (Forall_last _ (fun x => cset_mem cs x = true));
               [exact Fb | discriminate].
          -- rewrite last_app_nonempty by discriminate. exact L3. }
  destruct Q as [F2 L2].
  split; [discriminate|]. split; [inversion F1; assumption|]. split.
  - destruct L2 as [-> | L2].
    + rewrite app_nil_r.
      apply (Forall_last _ (fun x => cset_mem cs x = true)); [exact F1 | discriminate].
    + destruct w2 as [|x w2].
      * rewrite app_nil_r.
        apply (Forall_last _ (fun x => cset_mem cs x = true));
          [exact F1 | discriminate].
      * rewrite last_app_nonempty by discriminate. exact L2.
  - apply Forall_app. split; [|exact F2].
    eapply Forall_impl; [|exact F1]. intros x Hx. cbv beta in Hx.
    rewrite Hx. reflexivity.
Qed.

Lemma name_not_space :
  forall c, cset_mem name_cs c = true -> is_space c = false.
Proof.
  intros c H.
  assert (N : not_space c = true).
  { apply (cset_within_ok not_space false false) with (cs := name_cs);
      [discriminate | discriminate | reflexivity | exact H]. }
  unfold not_space in N. apply negb_true_iff in N. exact N.
Qed.

(** The groups of a match of the block pattern. *)
Lemma block_groups :
  forall st e,
    reach student_pattern st e ->
    (exists w, group_of (m_caps e) 1 = Some w /\ spells (words upper_cs) w)
    /\ (exists w, group_of (m_caps e) 2 = Some w /\ spells (words name_cs) w)
    /\ (exists w, group_of (m_caps e) 3 = Some w /\ spells (RPlus true r_d) w)
    /\ (exists w, group_of (m_caps e) 4 = Some w
                  /\ spells (RSeqs [RLit (py "UE"); RPlus false (RChar CAny)]) w).
Proof.
  intros st e H.
  assert (H4 : exists w, group_of (m_caps e) 4 = Some w
                 /\ spells (RSeqs [RLit (py "UE"); RPlus false (RChar CAny)]) w).
  { change student_pattern with
      (RSeqs ([student_head]
              ++ RGroup 4 (RSeqs [RLit (py "UE"); RPlus false (RChar CAny)])
              :: [notes_end])) in H.
    apply seqs_group_text in H; [|reflexivity].
    destruct H as [w [Sw Gw]]. exists w. split; assumption. }
  change student_pattern with
    (RSeq student_head
       (RSeq (RGroup 4 (RSeqs [RLit (py "UE"); RPlus false (RChar CAny)])) notes_end))
    in H.
  apply reach_seq_inv in H. destruct H as [u [Hu He]].
  split; [|split; [|split; [|exact H4]]].
  - rewrite (reach_keeps_group 1 _ _ _ He eq_refl).
    change student_head with
      (RSeqs ([] ++ RGroup 1 (words upper_cs)
              :: (tl names_part ++ RLit (py "N°") :: tail_part))) in Hu.
    apply seqs_group_text in Hu; [|reflexivity].
    destruct Hu as [w [Sw Gw]]. exists w. split; assumption.
  - rewrite (reach_keeps_group 2 _ _ _ He eq_refl).
    change student_head with
      (RSeqs (firstn 2 names_part ++ RGroup 2 (words name_cs)
              :: (skipn 3 names_part ++ RLit (py "N°") :: tail_part))) in Hu.
    apply seqs_group_text in Hu; [|reflexivity].
    destruct Hu as [w [Sw Gw]]. exists w. split; assumption.
  - rewrite (reach_keeps_group 3 _ _ _ He eq_refl).
    change student_head with
      (RSeqs ((names_part ++ RLit (py "N°") :: firstn 5 tail_part)
              ++ RGroup 3 (RPlus true r_d) :: skipn 6 tail_part)) in Hu.
    apply seqs_group_text in Hu; [|reflexivity].
    destruct Hu as [w [Sw Gw]]. exists w. split; assumption.
Qed.

End Identity.

(** X12. For every document, every student record [parse_apogee_file]
    returns has well-formed identity fields: the family name starts
    with a capital of the pattern and holds only such capitals and
    blanks; the given name starts with a character of a name (a letter,
    an apostrophe or a hyphen) and holds only such characters and
    blanks; the student number is a non-empty run of digits (the digits
    of [\d]).  None of the three is empty, and [strip] changes none of
    them. *)
Theorem student_identity_format :
  forall (content : str) (st : student),
    In st (d_etudiants (parse_apogee_file content)) ->
    (exists c s,
        s_nom st = c :: s
        /\ cset_mem upper_cs c = true
        /\ Forall (fun x => cset_mem upper_cs x || is_space x = true) s)
    /\ (exists c s,
           s_prenom st = c :: s
           /\ cset_mem name_cs c = true
           /\ Forall (fun x => name_char x = true) s)
    /\ s_numero_etudiant st <> []
    /\ all_decimal (s_numero_etudiant st).
Proof.
  intros content st H. unfold parse_apogee_file in H. cbn [d_etudiants] in H.
  apply in_flat_map in H. destruct H as [b [Hb Hst]].
  unfold _extract_student_blocks in Hb. apply in_map_iff in Hb.
  destruct Hb as [m [<- Hm]].
  cbn [_process_student_block] in Hst. destruct Hst as [<- | []].
  cbn [s_nom s_prenom s_numero_etudiant].
  apply finditer_reach in Hm. destruct Hm as [pos [prev [rest R]]].
  apply block_groups in R.
  destruct R as [[w1 [G1 S1]] [[w2 [G2 S2]] [[w3 [G3 S3]] _]]].
  unfold group. rewrite G1, G2, G3.
  apply words_shape in S1. destruct S1 as [N1 [F1 [L1 A1]]].
  apply words_shape in S2. destruct S2 as [N2 [F2 [L2 A2]]].
  apply spells_plus_chars in S3. destruct S3 as [d [w3' [-> D3]]].
  apply digit_class_all in D3.
  rewrite (strip_noop w1 N1 (upper_not_space _ F1) (upper_not_space _ L1)).
  rewrite (strip_noop w2 N2 (name_not_space _ F2) (name_not_space _ L2)).
  rewrite (strip_noop (d :: w3')).
  - split; [|split; [|split; [discriminate | exact D3]]].
    + destruct w1 as [|c s]; [contradiction|]. exists c, s.
      split; [reflexivity|]. split; [exact F1 | inversion A1; assumption].
    + destruct w2 as [|c s]; [contradiction|]. exists c, s.
      split; [reflexivity|]. split; [exact F2 | inversion A2; assumption].
  - discriminate.
  - apply is_decimal_not_space. inversion D3; assumption.
  - apply is_decimal_not_space.
    apply (Forall_last _ (fun c => is_decimal c = true)); [exact D3 | discriminate].
Qed.

Lemma student_identity_format_witness :
  In (Student (py "12345") (py "DUPONT") (py "Jean")
        (_extract_courses
           (py "UE701 Maths 12,5/20" ++ NL ++ py "Algebre 11,0/20")))
     (d_etudiants (parse_apogee_file one_student_document))
  /\ all_decimal (py "12345").
Proof.
  assert (H : In (Student (py "12345") (py "DUPONT") (py "Jean")
                    (_extract_courses
                       (py "UE701 Maths 12,5/20" ++ NL ++ py "Algebre 11,0/20")))
                 (d_etudiants (parse_apogee_file one_student_document)))
    by (vm_compute; left; reflexivity).
  split; [exact H|].
  exact (proj2 (proj2 (proj2 (student_identity_format one_student_document _ H)))).
Defined.

(* ================================================================== *)
(** * The names of the entries of the grade tree *)
(* ================================================================== *)

Section EntryNames.

Lemma lstrip_Forall :
  forall (P : char -> Prop) s, Forall P s -> Forall P (lstrip s).
Proof.
  intros P. induction s as [|c s IH]; intros F; [constructor|].
  cbn [lstrip]. destruct (is_space c); [|exact F].
  apply IH. inversion F; assumption.
Qed.

Lemma strip_Forall :
  forall (P : char -> Prop) s, Forall P s -> Forall P (strip s).
Proof.
  intros P s F. unfold strip, rstrip.
  apply Forall_rev. apply lstrip_Forall. apply Forall_rev.
  apply lstrip_Forall. exact F.
Qed.

Lemma rstrip_snoc :
  forall s c, rstrip (s ++ [c]) = if is_space c then rstrip s else s ++ [c].
Proof.
  intros s c. unfold rstrip. rewrite rev_app_distr. cbn [rev app lstrip].
  destruct (is_space c); [reflexivity|].
  change (c :: rev s) with ([c] ++ rev s).
  rewrite rev_app_distr, rev_involutive. reflexivity.
Qed.

(** [rstrip] keeps what stands before a character that is no blank. *)
Lemma rstrip_keeps :
  forall p z r,
    is_space z = false -> exists r', rstrip (p ++ z :: r) = p ++ z :: r'.
Proof.
  intros p z r Hz. induction r as [|c r IH] using rev_ind.
  - exists []. change (p ++ [z]) with (p ++ [z]). apply rstrip_last. exact Hz.
  - replace (p ++ z :: r ++ [c]) with ((p ++ z :: r) ++ [c])
      by (rewrite <- app_assoc; reflexivity).
    rewrite rstrip_snoc. destruct (is_space c).
    + exact IH.
    + exists (r ++ [c]). rewrite <- app_assoc. reflexivity.
Qed.

(** The pairs [findall] returns hold the texts of groups 1 and 2 of a
    match. *)
Lemma findall2_groups :
  forall r s name g,
    In (name, g) (findall2 r s) ->
    exists st e,
      reach r st e
      /\ name = match group_of (m_caps e) 1 with Some t => t | None => [] end
      /\ g = match group_of (m_caps e) 2 with Some t => t | None => [] end.
Proof.
  intros r s name g H. unfold findall2 in H. apply in_map_iff in H.
  destruct H as [m [E Hin]]. injection E as <- <-.
  apply finditer_reach in Hin. destruct Hin as [pos [prev [rest Hin]]].
  eexists. exists (mo_end m). split; [exact Hin|]. split; reflexivity.
Qed.

(** The label of a unit, as the pattern captures it. *)
Lemma ue_pattern_label :
  forall st e,
    reach ue_pattern st e ->
    exists d rest,
      group_of (m_caps e) 1 = Some (cU :: cE :: d :: rest)
      /\ is_decimal d = true
      /\ Forall (fun c => c <> LF) (cU :: cE :: d :: rest).
Proof.
  intros st e H.
  change ue_pattern with
    (RSeqs ([] ++ RGroup 1 (RSeqs [ RLit (py "UE"); RPlus true r_d;
                 RStar true (RChar (CNotIn [CRange (ch "0") (ch "9"); CChar LF])) ])
            :: [ RPlus true r_s; RGroup 2 score_re; RStar true r_s;
                 RLit (py "/20") ])) in H.
  apply seqs_group_text in H; [|reflexivity].
  destruct H as [w [Sw Gw]].
  apply spells_seqs_cons in Sw. destruct Sw as [w1 [w' [-> [S1 Sw]]]].
  apply spells_seqs_cons in Sw. destruct Sw as [w2 [w3 [-> [S2 S3]]]].
  cbn [RSeqs] in S3.
  apply spells_lit in S1. subst w1.
  apply spells_plus_chars in S2. destruct S2 as [d [ds [-> Fd]]].
  apply spells_star_chars in S3.
  exists d, (ds ++ w3). split; [exact Gw|].
  apply digit_class_all in Fd. split; [inversion Fd; assumption|].
  constructor; [discriminate|]. constructor; [discriminate|].
  change (d :: ds ++ w3) with ((d :: ds) ++ w3). apply Forall_app. split.
  - eapply Forall_impl; [|exact Fd]. intros x Hx ->. discriminate Hx.
  - eapply Forall_impl; [|exact S3]. intros x Hx ->. discriminate Hx.
Qed.

(** The name of a course, as the pattern captures it. *)
Lemma course_pattern_name :
  forall st e,
    reach course_pattern st e ->
    exists w, group_of (m_caps e) 1 = Some w /\ Forall (fun c => c <> LF) w.
Proof.
  intros st e H.
  change course_pattern with
    (RSeqs ([RBol]
            ++ RGroup 1 (RSeqs [ RChar (CNotIn [CChar (ch "U"); CChar (ch "/"); CChar LF]);
                                 RStar false (RChar (CNotIn [CChar LF])) ])
            :: [ RPlus true r_s; RGroup 2 score_re; RStar true r_s;
                 RLit (py "/20") ])) in H.
  apply seqs_group_text in H; [|reflexivity].
  destruct H as [w [Sw Gw]]. exists w. split; [exact Gw|].
  apply spells_seqs_cons in Sw. destruct Sw as [w1 [w2 [-> [S1 S2]]]].
  cbn [RSeqs] in S2.
  apply spells_char in S1. destruct S1 as [c [-> Mc]].
  apply spells_star_chars in S2.
  constructor.
  - intros ->. discriminate Mc.
  - eapply Forall_impl; [|exact S2]. intros x Hx ->. discriminate Hx.
Qed.

(** The label of a unit entry, stripped. *)
Lemma unit_label_shape :
  forall notes_block name s,
    In (name, s) (findall2 ue_pattern notes_block) ->
    exists d rest,
      strip name = cU :: cE :: d :: rest
      /\ is_decimal d = true
      /\ Forall (fun c => c <> LF) (strip name).
Proof.
  intros notes_block name s H. apply findall2_groups in H.
  destruct H as [st [e [R [-> _]]]].
  apply ue_pattern_label in R. destruct R as [d [rest [-> [Hd F]]]].
  destruct (rstrip_keeps [cU; cE] d rest (is_decimal_not_space d Hd)) as [r' Er].
  assert (E : strip (cU :: cE :: d :: rest) = cU :: cE :: d :: r').
  { unfold strip. rewrite lstrip_head by reflexivity. exact Er. }
  exists d, r'. split; [exact E|]. split; [exact Hd|].
  apply strip_Forall. exact F.
Qed.

End EntryNames.

(** X14. For every notes text and every entry [_extract_courses]
    returns: the entry is flagged 1 (a unit) or 0 (a course); neither
    its course name nor its unit label holds a line break; its unit
    label is [UE] followed by a digit and maybe more; a unit entry has
    its label for course name; and the name of a course entry holds
    neither [Note/Barème] nor [Note :]. *)
Theorem entry_names :
  forall (notes_block : str) (c : course),
    In c (_extract_courses notes_block) ->
    (est_ue c = 1%Z \/ est_ue c = 0%Z)
    /\ Forall (fun x => x <> LF) (cours c)
    /\ Forall (fun x => x <> LF) (ue c)
    /\ (exists d rest, ue c = cU :: cE :: d :: rest /\ is_decimal d = true)
    /\ (est_ue c = 1%Z -> cours c = ue c)
    /\ (est_ue c = 0%Z ->
        contains (py "Note/Barème") (cours c) = false
        /\ contains (py "Note :") (cours c) = false).
Proof.
  intros notes_block c H. unfold _extract_courses in H.
  apply in_flat_map in H. destruct H as [[name s] [Hin Hc]].
  destruct (unit_label_shape notes_block name s Hin) as [d [rest [E [Hd F]]]].
  destruct Hc as [<- | Hc].
  - cbn [est_ue cours ue]. split; [left; reflexivity|].
    split; [exact F|]. split; [exact F|].
    split; [exists d, rest; split; assumption|].
    split; [reflexivity | discriminate].
  - unfold _extract_ue_courses in Hc. apply in_flat_map in Hc.
    destruct Hc as [[name' s'] [Hin' Hc]].
    destruct (contains (py "Note/Barème") (strip name')) eqn:C1;
      [contradiction|].
    destruct (contains (py "Note :") (strip name')) eqn:C2; [contradiction|].
    destruct Hc as [<- | []]. cbn [est_ue cours ue].
    split; [right; reflexivity|]. split.
    + apply strip_Forall. apply findall2_groups in Hin'.
      destruct Hin' as [st [e [R [-> _]]]].
      apply course_pattern_name in R. destruct R as [w [-> Fw]]. exact Fw.
    + split; [exact F|]. split; [exists d, rest; split; assumption|].
      split; [discriminate|]. intros _. split; assumption.
Qed.

Lemma entry_names_witness :
  In (Course (py "UE401 Systèmes") (py "Algorithmique") (FNum (12 # 1)) 0)
     (_extract_courses notes_C1_decimal)
  /\ Forall (fun x => x <> LF) (py "Algorithmique").
Proof.
  assert (H : In (Course (py "UE401 Systèmes") (py "Algorithmique") (FNum (12 # 1)) 0)
                 (_extract_courses notes_C1_decimal))
    by (vm_compute; right; left; reflexivity).
  split; [exact H|].
  exact (proj1 (proj2 (entry_names notes_C1_decimal _ H))).
Defined.

(* ================================================================== *)
(** * The courses of a unit are read up to the next [UE] *)
(* ================================================================== *)

Section CourseNames.

Lemma starts_with_spec :
  forall p s, starts_with p s = true <-> exists r, s = p ++ r.
Proof.
  induction p as [|x p IH]; intros s; simpl.
  - split; [intros _; exists s; reflexivity | reflexivity].
  - destruct s as [|y s].
    + split; [discriminate | intros [r E]; discriminate E].
    + rewrite andb_true_iff, IH. unfold char_eqb. rewrite N.eqb_eq. split.
      * intros [-> [r ->]]. exists r. reflexivity.
      * intros [r E]. injection E as -> ->.
        split; [reflexivity | exists r; reflexivity].
Qed.

(** [find_from] returns the first occurrence. *)
Lemma find_from_some :
  forall sub s pos n,
    find_from sub s pos = Some n ->
    exists l r, s = l ++ sub ++ r /\ n = pos + length l
      /\ forall l' r', s = l' ++ sub ++ r' -> length l <= length l'.
Proof.
  intros sub. induction s as [|c s IH]; intros pos n H; cbn [find_from] in H.
  - destruct (starts_with sub []) eqn:S; [|discriminate].
    injection H as <-. apply starts_with_spec in S. destruct S as [r E].
    exists [], r. split; [exact E|]. split; [simpl; lia|].
    intros l' r' _. simpl. lia.
  - destruct (starts_with sub (c :: s)) eqn:S.
    + injection H as <-. apply starts_with_spec in S. destruct S as [r E].
      exists [], r. split; [exact E|]. split; [simpl; lia|].
      intros l' r' _. simpl. lia.
    + apply IH in H. destruct H as [l [r [E [N M]]]].
      exists (c :: l), r. split; [simpl; rewrite <- E; reflexivity|].
      split; [simpl; lia|].
      intros l' r' E'. destruct l' as [|c' l'].
      * assert (T : starts_with sub (c :: s) = true)
          by (apply starts_with_spec; exists r'; exact E').
        congruence.
      * simpl in E'. injection E' as _ E'. apply M in E'. simpl. lia.
Qed.

Lemma find_from_none :
  forall sub s pos, find_from sub s pos = None -> ~ occurs sub s.
Proof.
  intros sub. induction s as [|c s IH]; intros pos H [l [r E]];
    cbn [find_from] in H.
  - destruct (starts_with sub []) eqn:S; [discriminate|].
    destruct l; [|discriminate E].
    assert (T : starts_with sub [] = true)
      by (apply starts_with_spec; exists r; exact E).
    congruence.
  - destruct (starts_with sub (c :: s)) eqn:S; [discriminate|].
    destruct l as [|c' l].
    + assert (T : starts_with sub (c :: s) = true)
        by (apply starts_with_spec; exists r; exact E).
      congruence.
    + simpl in E. injection E as _ E. apply (IH _ H). exists l, r. exact E.
Qed.

Lemma contains_false :
  forall sub s, ~ occurs sub s -> contains sub s = false.
Proof.
  intros sub s N. unfold contains.
  destruct (find_from sub s 0) as [n|] eqn:F; [|reflexivity].
  exfalso. apply N. apply find_from_some in F.
  destruct F as [l [r [E _]]]. exists l, r. exact E.
Qed.

Lemma occurs_trans :
  forall a b c, occurs a b -> occurs b c -> occurs a c.
Proof.
  intros a b c [l1 [r1 E1]] [l2 [r2 E2]].
  exists (l2 ++ l1), (r1 ++ r2). rewrite E2, E1.
  repeat rewrite <- app_assoc. reflexivity.
Qed.

Lemma lstrip_suffix : forall s, exists l, s = l ++ lstrip s.
Proof.
  induction s as [|c s [l IH]].
  - exists []. reflexivity.
  - cbn [lstrip]. destruct (is_space c).
    + exists (c :: l). simpl. rewrite <- IH. reflexivity.
    + exists []. reflexivity.
Qed.

Lemma strip_occurs : forall s, occurs (strip s) s.
Proof.
  intros s. unfold strip, rstrip.
  destruct (lstrip_suffix s) as [l El].
  destruct (lstrip_suffix (rev (lstrip s))) as [r Er].
  exists l, (rev r).
  rewrite <- rev_app_distr, <- Er, rev_involutive. exact El.
Qed.

(** [s.find(sub, k)] for a bound inside the text. *)
Lemma find_at :
  forall s sub k,
    k <= length s ->
    find s sub (Z.of_nat k)
    = match find_from sub (skipn k s) k with
      | Some p => Z.of_nat p
      | None => (-1)%Z
      end.
Proof.
  intros s sub k H. unfold find, clip_index.
  destruct (Z.ltb_spec (Z.of_nat (length s)) (Z.of_nat k)); [lia|].
  destruct (Z.ltb_spec (Z.of_nat k) 0); [lia|].
  rewrite Nat2Z.id, Nat.min_r by lia. reflexivity.
Qed.

(** [s[i:j]] for bounds inside the text. *)
Lemma slice_at :
  forall s i j,
    i <= length s -> j <= length s ->
    slice s (Z.of_nat i) (Z.of_nat j) = firstn (j - i) (skipn i s).
Proof.
  intros s i j Hi Hj. unfold slice, clip_index.
  destruct (Z.ltb_spec (Z.of_nat i) 0); [lia|].
  destruct (Z.ltb_spec (Z.of_nat j) 0); [lia|].
  rewrite !Nat2Z.id, !Nat.min_r by lia. reflexivity.
Qed.

Lemma skipn_length_app :
  forall (a b : str), skipn (length a) (a ++ b) = b.
Proof.
  intros a b. rewrite skipn_app, skipn_all, Nat.sub_diag. reflexivity.
Qed.

Lemma firstn_length_app :
  forall (a b : str), firstn (length a) (a ++ b) = a.
Proof.
  intros a b. rewrite firstn_app, firstn_all, Nat.sub_diag.
  simpl. apply app_nil_r.
Qed.

(** The section of a unit whose label occurs in the notes: the label,
    then a text in which [UE] does not occur. *)
Lemma ue_section_shape :
  forall notes_block ue_name,
    occurs ue_name notes_block ->
    exists tail,
      ue_section notes_block ue_name = ue_name ++ tail
      /\ ~ occurs (py "UE") tail.
Proof.
  intros nb u O. unfold ue_section. cbv zeta.
  change 0%Z with (Z.of_nat 0). rewrite find_at by lia.
  cbn [skipn].
  destruct (find_from u nb 0) as [i|] eqn:F1;
    [|exfalso; exact (find_from_none _ _ _ F1 O)].
  apply find_from_some in F1. destruct F1 as [l [r [E [Ni _]]]].
  simpl in Ni. subst i.
  assert (Len : length nb = length l + length u + length r)
    by (rewrite E, !length_app; lia).
  assert (Sl : skipn (length l) nb = u ++ r)
    by (rewrite E; apply skipn_length_app).
  assert (Sr : skipn (length l + length u) nb = r).
  { rewrite E, app_assoc, <- length_app. apply skipn_length_app. }
  rewrite <- Nat2Z.inj_add. rewrite find_at by lia. rewrite Sr.
  destruct (find_from (py "UE") r (length l + length u)) as [n|] eqn:F2.
  - apply find_from_some in F2. destruct F2 as [l2 [r2 [E2 [Nn M]]]].
    assert (L2 : length r = length l2 + 2 + length r2)
      by (rewrite E2, !length_app; simpl; lia).
    destruct (Z.eqb_spec (Z.of_nat n) (-1)); [lia|].
    rewrite slice_at by lia. rewrite Sl.
    replace (n - length l) with (length u + length l2) by lia.
    rewrite firstn_app_2. exists l2. split.
    + f_equal. rewrite E2. apply firstn_length_app.
    + intros [a [b Eab]].
      assert (La : length l2 = length a + 2 + length b)
        by (rewrite Eab, !length_app; simpl; lia).
      specialize (M a (b ++ py "UE" ++ r2)).
      assert (Q : r = a ++ py "UE" ++ b ++ py "UE" ++ r2).
      { rewrite E2, Eab. repeat rewrite <- app_assoc. reflexivity. }
      apply M in Q. lia.
  - change ((-1 =? -1)%Z) with true. cbv iota.
    rewrite slice_at by lia. rewrite Sl.
    exists r. split.
    + apply firstn_all2. rewrite length_app. lia.
    + exact (find_from_none _ _ _ F2).
Qed.

(** Every match [finditer] lists starts at a position of the subject. *)
Lemma finditer_from_on_subject :
  forall r s rest pos skip m,
    skipn pos s = rest -> pos <= length s ->
    In m (finditer_from r skip pos (prev_at s pos) rest) ->
    exists p, p <= length s /\ match_at r s p = Some (mo_end m).
Proof.
  intros r s. induction rest as [|c rest IH]; intros pos skip m E Hpos H.
  - destruct skip as [|skip]; cbn [finditer_from] in H; [|contradiction].
    assert (Em : match_here r pos (prev_at s pos) [] = match_at r s pos)
      by (unfold match_at; rewrite E; reflexivity).
    rewrite Em in H.
    destruct (match_at r s pos) as [e|] eqn:M; [|contradiction].
    destruct H as [<- | []]. exists pos. split; [exact Hpos | exact M].
  - apply skipn_cons_inv in E as E'. destruct E' as [E1 [E2 E3]].
    assert (Hprev : prev_at s (S pos) = Some c) by exact E2.
    destruct skip as [|skip]; cbn [finditer_from] in H.
    + assert (Em : match_here r pos (prev_at s pos) (c :: rest) = match_at r s pos)
        by (unfold match_at; rewrite E; reflexivity).
      rewrite Em in H.
      destruct (match_at r s pos) as [e|] eqn:M.
      * destruct H as [<- | H].
        -- exists pos. split; [lia | exact M].
        -- rewrite <- Hprev in H. exact (IH _ _ _ E1 E3 H).
      * rewrite <- Hprev in H. exact (IH _ _ _ E1 E3 H).
    + rewrite <- Hprev in H. exact (IH _ _ _ E1 E3 H).
Qed.

Lemma findall2_at :
  forall r s name g,
    In (name, g) (findall2 r s) ->
    exists p e,
      p <= length s
      /\ reach r (state_at s p) e
      /\ name = match group_of (m_caps e) 1 with Some t => t | None => [] end.
Proof.
  intros r s name g H. unfold findall2 in H. apply in_map_iff in H.
  destruct H as [m [E Hin]]. injection E as <- _.
  unfold finditer in Hin.
  apply (finditer_from_on_subject r s s 0 0 m eq_refl (Nat.le_0_l _)) in Hin.
  destruct Hin as [p [Hp M]]. exists p, (mo_end m).
  split; [exact Hp|]. split; [|reflexivity].
  apply match_here_reach in M. exact M.
Qed.

(** A group the expression opens with holds the text the matcher stands
    on. *)
Lemma group_then_rest :
  forall i r rest st e,
    reach (RSeq (RGroup i r) rest) st e -> has_group i rest = false ->
    exists s2 w,
      reach r st s2 /\ m_rest st = w ++ m_rest s2
      /\ group_of (m_caps e) i = Some w.
Proof.
  intros i r rest st e H G.
  apply reach_seq_inv in H. destruct H as [m2 [Hg Hr]].
  apply reach_group_inv in Hg. destruct Hg as [s2 [Hb ->]].
  destruct (reach_consumes _ _ _ Hb) as [w [E P]].
  exists s2, w. split; [exact Hb|]. split; [exact E|].
  rewrite (reach_keeps_group i _ _ _ Hr G).
  cbn [set_group m_caps group_of]. rewrite Nat.eqb_refl. f_equal.
  apply (text_between_spec st s2 w E P).
Qed.

Lemma skipn_occurs :
  forall (s w post : str) p, skipn p s = w ++ post -> occurs w s.
Proof.
  intros s w post p E. exists (firstn p s), post.
  rewrite <- E. symmetry. apply firstn_skipn.
Qed.

(** The label a match of [ue_pattern] captures is part of the subject. *)
Lemma unit_label_occurs :
  forall notes_block name g,
    In (name, g) (findall2 ue_pattern notes_block) ->
    occurs (strip name) notes_block.
Proof.
  intros nb name g H. apply findall2_at in H.
  destruct H as [p [e [Hp [R ->]]]].
  unfold ue_pattern in R. cbn [RSeqs] in R.
  apply group_then_rest in R; [|reflexivity].
  destruct R as [s2 [w [_ [E ->]]]].
  apply occurs_trans with (b := w); [apply strip_occurs|].
  exact (skipn_occurs nb w (m_rest s2) p E).
Qed.

(** Where a match of [course_pattern] starts: at the start of a line, on
    the captured name, which does not start with [U]. *)
Lemma course_pattern_at :
  forall s p e,
    p <= length s ->
    reach course_pattern (state_at s p) e ->
    exists c w post,
      group_of (m_caps e) 1 = Some (c :: w)
      /\ skipn p s = (c :: w) ++ post
      /\ c <> cU
      /\ (p = 0 \/ exists q, p = S q /\ nth_error s q = Some LF).
Proof.
  intros s p e Hp H. unfold course_pattern in H. cbn [RSeqs] in H.
  apply reach_seq_inv in H. destruct H as [m1 [Hb H]].
  inversion Hb as [| | | | | | | |st Hs| |]; subst.
  apply group_then_rest in H; [|reflexivity].
  destruct H as [s2 [w [Hw [E G]]]].
  apply reach_seq_inv in Hw. destruct Hw as [s1 [Hc Hst]].
  apply reach_char_inv in Hc. destruct Hc as [c [Ec [Mc _]]].
  destruct (reach_consumes _ _ _ Hst) as [w2 [E2 _]].
  assert (Ew : w = c :: w2).
  { rewrite Ec, E2 in E.
    apply (app_inv_tail (m_rest s2)). symmetry. exact E. }
  subst w. exists c, w2, (m_rest s2).
  split; [exact G|]. split; [exact E|]. split.
  - intros ->. discriminate Mc.
  - destruct p as [|q]; [left; reflexivity|].
    right. exists q. split; [reflexivity|].
    unfold at_line_start in Hs. cbn [state_at m_prev prev_at] in Hs.
    destruct (nth_error s q) as [x|] eqn:Nq.
    + unfold char_eqb in Hs. apply N.eqb_eq in Hs. subst x. reflexivity.
    + apply nth_error_None in Nq. lia.
Qed.

(** In a section made of a one-line label starting with [U] and of a text
    without [UE], no course name holds [UE]. *)
Lemma section_course_names :
  forall u rest tail name g,
    u = cU :: rest -> Forall (fun c => c <> LF) u ->
    ~ occurs (py "UE") tail ->
    In (name, g) (findall2 course_pattern (u ++ tail)) ->
    ~ occurs (py "UE") (strip name).
Proof.
  intros u rest tail name g Eu Fu Nt H O.
  apply findall2_at in H. destruct H as [p [e [Hp [R ->]]]].
  apply course_pattern_at in R; [|exact Hp].
  destruct R as [c [w [post [G [Sk [Nc Ls]]]]]].
  rewrite G in O.
  assert (Lp : length u < p).
  { destruct Ls as [-> | [q [-> Nq]]].
    - exfalso. rewrite Eu in Sk. simpl in Sk. injection Sk as Sk _.
      apply Nc. symmetry. exact Sk.
    - destruct (Nat.lt_ge_cases q (length u)) as [Lt | Ge]; [|lia].
      exfalso. rewrite nth_error_app1 in Nq by exact Lt.
      apply nth_error_In in Nq.
      rewrite Forall_forall in Fu. exact (Fu _ Nq eq_refl). }
  rewrite skipn_app in Sk. rewrite skipn_all2 in Sk by lia.
  simpl in Sk.
  apply Nt. apply occurs_trans with (b := c :: w); [|].
  - apply occurs_trans with (b := strip (c :: w)); [exact O | apply strip_occurs].
  - exact (skipn_occurs tail (c :: w) post _ Sk).
Qed.

End CourseNames.

(** X15. For every notes text, no course entry (est_ue = 0)
    [_extract_courses] returns has a name in which [UE] occurs: the courses
    of a unit are read in the text between the unit's label and the next
    occurrence of the two letters [UE], wherever it stands, so a line
    holding them is cut before its score. *)
Theorem course_names_without_UE :
  forall (notes_block : str) (c : course),
    In c (_extract_courses notes_block) ->
    est_ue c = 0%Z ->
    contains (py "UE") (cours c) = false.
Proof.
  intros nb c H Z. unfold _extract_courses in H. cbv zeta in H.
  apply in_flat_map in H. destruct H as [[name s] [Hu Hc]].
  destruct Hc as [<- | Hc]; [discriminate Z|].
  pose proof (unit_label_occurs _ _ _ Hu) as O.
  destruct (unit_label_shape _ _ _ Hu) as [d [rest [Es [_ F]]]].
  destruct (ue_section_shape nb (strip name) O) as [tail [Et Nt]].
  change (_extract_ue_courses nb (strip name)) with
    (flat_map
       (fun course_match : str * str =>
          let '(course_name, course_note_str) := course_match in
          let course_name := strip course_name in
          if (contains (py "Note/Barème") course_name
              || contains (py "Note :") course_name)%bool
          then []
          else [Course (strip name) course_name (parse_note course_note_str) 0])
       (findall2 course_pattern (ue_section nb (strip name)))) in Hc.
  apply in_flat_map in Hc. destruct Hc as [[cn cs] [Hm Hc]].
  cbv zeta in Hc.
  destruct (contains (py "Note/Barème") (strip cn)
            || contains (py "Note :") (strip cn))%bool; [contradiction|].
  destruct Hc as [<- | []]. cbn [cours].
  apply contains_false. rewrite Et in Hm.
  exact (section_course_names _ _ _ _ _ Es F Nt Hm).
Qed.

Lemma course_names_without_UE_witness :
  In (Course (py "UE401 Systèmes") (py "Algorithmique") (FNum (12 # 1)) 0)
     (_extract_courses notes_C1_decimal)
  /\ contains (py "UE") (py "Algorithmique") = false.
Proof.
  assert (H : In (Course (py "UE401 Systèmes") (py "Algorithmique") (FNum (12 # 1)) 0)
                 (_extract_courses notes_C1_decimal))
    by (vm_compute; right; left; reflexivity).
  split; [exact H|].
  exact (course_names_without_UE notes_C1_decimal _ H eq_refl).
Defined.

(* ================================================================== *)
(** * An import adds rows and changes none *)
(* ================================================================== *)

Section NeverUpdates.

Variable violates : database -> insert_stmt -> bool.
Variables parcours annee semestre : str.

Lemma insert_notes_extends :
  forall cs db id db',
    insert_notes_on violates db id cs = Ok db' -> extends db db'.
Proof.
  induction cs as [|c cs IH]; intros db id db' H; cbn [insert_notes_on] in H.
  - injection H as <-. apply extends_refl.
  - unfold insert_note_on in H.
    destruct (violates db (InsertNote id c)); [discriminate|].
    eapply extends_trans; [apply insert_note_extends | exact (IH _ _ _ H)].
Qed.

Lemma student_statements_extends :
  forall db st db',
    student_statements_on violates parcours annee semestre db st = Ok db' ->
    extends db db'.
Proof.
  intros db st db' H. unfold student_statements_on, insert_etudiant_on in H.
  destruct (violates db _); [discriminate|].
  destruct (select_etudiant_id _ _ _ _ _ _) as [id|]; [|discriminate].
  eapply extends_trans; [apply insert_etudiant_extends|].
  exact (insert_notes_extends _ _ _ _ H).
Qed.

Lemma import_loop_extends :
  forall students db n r db',
    import_loop violates parcours annee semestre db students n = (r, db') ->
    extends db db'.
Proof.
  induction students as [|st students IH]; intros db n r db' H;
    cbn [import_loop] in H.
  - injection H as _ <-. apply extends_refl.
  - destruct (student_statements_on violates parcours annee semestre db st)
      as [db1|e] eqn:E.
    + eapply extends_trans;
        [exact (student_statements_extends _ _ _ E) | exact (IH _ _ _ _ H)].
    + destruct e; try (injection H as _ <-; apply extends_refl).
      exact (IH _ _ _ _ H).
Qed.

End NeverUpdates.

(** X16. An import into a consistent store, whatever the document and
    whatever the store refuses, only adds rows at the end of the two
    tables, and the row found under a key that was there before is the row
    that was there: a student who is imported again keeps the id and the
    student number of the first import, a grade that is imported again
    keeps its first value. *)
Theorem import_never_updates :
  forall (violates : database -> insert_stmt -> bool) (content : str)
         (db : database) (r : result nat) (db' : database),
    consistent db ->
    import_apogee_data violates content (Some db) = (r, Some db') ->
    extends db db'
    /\ (forall e e', In e (etudiants db) -> In e' (etudiants db') ->
          etudiant_key e' = etudiant_key e -> e' = e)
    /\ (forall g g', In g (notes db) -> In g' (notes db') ->
          note_key g' = note_key g -> g' = g).
Proof.
  intros violates content db r db' C H.
  assert (X : extends db db' /\ consistent db').
  { unfold import_apogee_data in H.
    destruct (d_etudiants (parse_apogee_file content)) as [|st students] eqn:Es.
    - injection H as _ <-. split; [apply extends_refl | exact C].
    - cbn [get_connection] in H.
      set (p := p_parcours (d_parcours (parse_apogee_file content))) in H.
      set (a := p_annee (d_parcours (parse_apogee_file content))) in H.
      set (s := p_semestre (d_parcours (parse_apogee_file content))) in H.
      change (import_students violates p a s (Connection db db []) (st :: students) 0)
        with (import_batch violates p a s db (st :: students)) in H.
      rewrite import_batch_loop in H.
      destruct (import_loop violates p a s db (st :: students) 0) as [r1 db1] eqn:E.
      injection H as _ <-. split.
      + exact (import_loop_extends _ _ _ _ _ _ _ _ _ E).
      + exact (import_loop_consistent _ _ _ _ _ _ _ _ _ C E). }
  destruct X as [[[le Ee] [lg Eg]] [_ [Ke [_ [Kg _]]]]].
  split; [split; [exists le; exact Ee | exists lg; exact Eg]|]. split.
  - intros e e' He He' K.
    apply (NoDup_map_inj _ _ etudiant_key (etudiants db')); try assumption.
    rewrite Ee. apply in_or_app. left. exact He.
  - intros g g' Hg Hg' K.
    apply (NoDup_map_inj _ _ note_key (notes db')); try assumption.
    rewrite Eg. apply in_or_app. left. exact Hg.
Qed.

Lemma import_never_updates_witness :
  consistent sample_store
  /\ extends sample_store
       (match snd (import_apogee_data no_violation document_with_malformed_block
                     (Some sample_store)) with
        | Some db' => db'
        | None => sample_store
        end).
Proof.
  split; [exact consistent_sample|].
  destruct (import_apogee_data no_violation document_with_malformed_block
              (Some sample_store)) as [r [db'|]] eqn:E.
  - cbn [snd].
    exact (proj1 (import_never_updates no_violation document_with_malformed_block
                    sample_store r db' consistent_sample E)).
  - vm_compute in E. discriminate E.
Defined.

(* ================================================================== *)
(** * The upload of a file *)
(* ================================================================== *)

Section UploadOutcome.

Variable violates : database -> insert_stmt -> bool.

Lemma import_loop_counts :
  forall parcours annee semestre students db n r db',
    import_loop violates parcours annee semestre db students n = (r, db') ->
    exists n', r = Ok n' /\ n <= n' /\ n' <= n + length students.
Proof.
  intros p a s students db n r db' H.
  destruct (import_loop_total violates p a s students db n)
    as [n' [db2 [E [L1 L2]]]].
  rewrite E in H. injection H as <- _. exists n'. auto.
Qed.

(** A run of the loop that counts no student leaves the store as it
    was. *)
Lemma import_loop_same :
  forall parcours annee semestre students db n db',
    import_loop violates parcours annee semestre db students n = (Ok n, db') ->
    db' = db.
Proof.
  intros p a s. induction students as [|st students IH]; intros db n db' H;
    cbn [import_loop] in H.
  - injection H as <-. reflexivity.
  - destruct (student_statements_on violates p a s db st) as [db1|e] eqn:E.
    + apply import_loop_counts in H. destruct H as [n' [En [L _]]].
      injection En as <-. lia.
    + destruct e; try discriminate H. exact (IH _ _ _ H).
Qed.

(** The statements of a student that succeed leave a row of the
    student's year, track and semester. *)
Lemma student_statements_row :
  forall parcours annee semestre db st db',
    student_statements_on violates parcours annee semestre db st = Ok db' ->
    exists e, In e (etudiants db') /\ matches_all annee parcours semestre e = true.
Proof.
  intros p a s db st db' H.
  unfold student_statements_on, insert_etudiant_on in H.
  destruct (violates db _); [discriminate|].
  destruct (select_etudiant_id _ _ _ _ _ _) as [id|] eqn:E; [|discriminate].
  unfold select_etudiant_id in E.
  destruct (List.find _ _) as [e|] eqn:F; [|discriminate].
  apply find_some in F. destruct F as [He Se].
  apply insert_notes_extends in H. destruct H as [[l El] _].
  exists e. split.
  - rewrite El. apply in_or_app. left. exact He.
  - unfold same_etudiant in Se. unfold matches_all.
    repeat (apply andb_true_iff in Se; destruct Se as [Se ?]).
    repeat (apply andb_true_iff; split); assumption.
Qed.

Lemma import_loop_row :
  forall parcours annee semestre students db n n' db',
    import_loop violates parcours annee semestre db students n = (Ok n', db') ->
    n < n' ->
    exists e, In e (etudiants db') /\ matches_all annee parcours semestre e = true.
Proof.
  intros p a s. induction students as [|st students IH]; intros db n n' db' H L;
    cbn [import_loop] in H.
  - injection H as -> _. lia.
  - destruct (student_statements_on violates p a s db st) as [db1|e] eqn:E.
    + apply student_statements_row in E. destruct E as [e [He Me]].
      apply import_loop_extends in H. destruct H as [[l El] _].
      exists e. split; [|exact Me]. rewrite El. apply in_or_app. left. exact He.
    + destruct e; try discriminate H. exact (IH _ _ _ _ H L).
Qed.

(** What an import into a store that can be opened comes to. *)
Lemma import_outcome :
  forall content db,
    exists n db',
      import_apogee_data violates content (Some db) = (Ok n, Some db')
      /\ n <= length (d_etudiants (parse_apogee_file content))
      /\ extends db db'
      /\ (n = 0 -> db' = db)
      /\ (0 < n ->
          exists e,
            In e (etudiants db')
            /\ matches_all (p_annee (d_parcours (parse_apogee_file content)))
                           (p_parcours (d_parcours (parse_apogee_file content)))
                           (p_semestre (d_parcours (parse_apogee_file content))) e
               = true).
Proof.
  intros content db. unfold import_apogee_data.
  destruct (d_etudiants (parse_apogee_file content)) as [|st students] eqn:Es.
  - exists 0, db. split; [reflexivity|]. split; [simpl; lia|].
    split; [apply extends_refl|]. split; [reflexivity | lia].
  - cbn [get_connection].
    set (p := p_parcours (d_parcours (parse_apogee_file content))).
    set (a := p_annee (d_parcours (parse_apogee_file content))).
    set (s := p_semestre (d_parcours (parse_apogee_file content))).
    change (import_students violates p a s (Connection db db []) (st :: students) 0)
      with (import_batch violates p a s db (st :: students)).
    rewrite import_batch_loop.
    destruct (import_loop violates p a s db (st :: students) 0) as [r db'] eqn:E.
    destruct (import_loop_counts _ _ _ _ _ _ _ _ E) as [n [-> [_ L]]].
    exists n, db'. split; [reflexivity|]. split; [exact L|].
    split; [exact (import_loop_extends _ _ _ _ _ _ _ _ _ E)|]. split.
    + intros ->. exact (import_loop_same _ _ _ _ _ _ _ E).
    + intros Hn. exact (import_loop_row _ _ _ _ _ _ _ _ E Hn).
Qed.

(** A row of the year, the track and the semester is a row
    [get_students] returns under these three filters. *)
Lemma get_students_finds :
  forall annee parcours semestre db e,
    In e (etudiants db) -> matches_all annee parcours semestre e = true ->
    exists x l,
      get_students (Some annee) (Some parcours) (Some semestre) (Some db)
      = Ok (x :: l).
Proof.
  intros a p s db e He Me. unfold get_students, guarded. cbn [get_connection c_work].
  assert (Hin : In e (fold_right insert_by_name []
                        (filter (etudiant_ok (Some a) (Some p) (Some s))
                                (etudiants db)))).
  { apply sorted_by_name_In. apply filter_In. split; [exact He|].
    unfold matches_all in Me.
    apply andb_true_iff in Me. destruct Me as [Me M3].
    apply andb_true_iff in Me. destruct Me as [M1 M2].
    apply str_eqb_eq in M1, M2, M3. unfold etudiant_ok.
    rewrite M1, M2, M3, !filter_ok_same. reflexivity. }
  destruct (fold_right insert_by_name [] _) as [|x l]; [contradiction|].
  exists x, l. reflexivity.
Qed.

End UploadOutcome.


(** X18. When the upload of a file is reported as imported, the upload of
    the same file into the store it left is reported as a conflict, with
    the record of the file, and leaves the store as it is. *)
Theorem upload_twice :
  forall (violates : database -> insert_stmt -> bool)
         (file_text : str -> option str)
         (content filename : str) (s s' : store) (n : nat),
    process_file_content violates file_text content filename s
    = ((ImportedOk n, None), s') ->
    exists text,
      file_text content = Some text
      /\ let parcours := p_parcours (d_parcours (parse_apogee_file text)) in
         let annee := p_annee (d_parcours (parse_apogee_file text)) in
         let semestre := p_semestre (d_parcours (parse_apogee_file text)) in
         process_file_content violates file_text content filename s'
         = ((AlreadyThere parcours annee semestre,
             Some (ConflictInfo filename parcours annee semestre content
                     (length (d_etudiants (parse_apogee_file text))))),
            s').
Proof.
  intros violates file_text content filename s s' n H.
  unfold process_file_content in *.
  destruct (negb (ends_with filename (py ".txt"))); [discriminate H|].
  destruct (file_text content) as [text|] eqn:Ft; [|discriminate H].
  exists text. split; [reflexivity|]. cbv zeta.
  destruct s as [db|]; cbn [get_connection] in H; [|discriminate H].
  cbn [initialize_db set_work commit close c_work c_file] in H.
  destruct (d_etudiants (parse_apogee_file text)) as [|st students] eqn:Es;
    [discriminate H|].
  destruct (get_students _ _ _ (Some db)) as [[|x l]|e] eqn:G;
    try discriminate H.
  destruct (import_outcome violates text db) as [k [db' [E [_ [_ [_ R]]]]]].
  rewrite E in H. destruct k as [|k]; cbn [Nat.ltb Nat.leb] in H;
    [discriminate H|].
  injection H as _ <-.
  destruct (R (Nat.lt_0_succ k)) as [e [He Me]].
  cbn [get_connection initialize_db set_work commit close c_work c_file].
  destruct (get_students_finds _ _ _ _ _ He Me) as [x [l G']].
  rewrite G'. reflexivity.
Qed.

Lemma upload_twice_witness :
  exists n s',
    process_file_content no_violation plain_upload document_with_malformed_block
      (py "releve.txt") (Some empty_db)
    = ((ImportedOk n, None), s')
    /\ fst (fst (process_file_content no_violation plain_upload
                   document_with_malformed_block (py "releve.txt") s'))
       = AlreadyThere (py "M1-API") (py "2022-2023") (py "7").
Proof.
  assert (E : process_file_content no_violation plain_upload
                document_with_malformed_block (py "releve.txt") (Some empty_db)
              = ((ImportedOk 2, None),
                 snd (process_file_content no_violation plain_upload
                        document_with_malformed_block (py "releve.txt")
                        (Some empty_db))))
    by (vm_compute; reflexivity).
  exists 2, (snd (process_file_content no_violation plain_upload
                    document_with_malformed_block (py "releve.txt")
                    (Some empty_db))).
  split; [exact E|].
  destruct (upload_twice _ _ _ _ _ _ _ E) as [text [Ft H]].
  injection Ft as <-. cbv zeta in H. rewrite H. cbn [fst].
  vm_compute. reflexivity.
Defined.
